(** * STransmision: modulation, AWGN channel and minimum-distance detection

    A shallow embedding of the modulation / channel / demodulation chain of
    the repository:

    - [2_modulador.py]    framing (zero padding), the three modulators
                          (8FSK, 16QAM, 8PSK) and their one-hot output;
    - [3-canal.py]        the AWGN channel and its SNR bookkeeping;
    - [4_demodulador.py]  the minimum-distance detector, the symbol-to-bit
                          maps and the removal of the padding;
    - [5_comparacion.py]  the comparison of two sequences of binary codes.

    Conventions of the embedding.

    - Python [int]s that are never negative in these programs (bits, symbol
      values, Gray symbols) are [N]; list positions and lengths are [nat].
    - The one-hot matrices and the chain without noise are lists of
      rationals [Q]: on the values that chain produces (0, 1 and 2, with the
      reference amplitude 1) binary64 arithmetic is exact, and so is [Q].
      Where rounding can decide the outcome the numbers are binary64
      ([PrimFloat]): the decision of the detector on an arbitrary row
      ([Demodulador.detect64]) and the channel with its SNR figures.
    - A Python call that may raise returns a [result]; the exception classes
      that occur are the constructors of [pyerror].
    - Python [dict]s keep insertion order, and the programs enumerate their
      keys, so a [dict] is an association list in insertion order. *)

From Stdlib Require Import List ZArith NArith QArith String Ascii Lia Bool Arith.
From Stdlib Require Import DecimalString BinaryString PrimFloat.
From Stdlib Require Uint63.
From Stdlib Require Import SpecFloat FloatOps FloatAxioms.
From Stdlib Require Import Lqa.
From Stdlib Require Import Permutation.
Import ListNotations.

Close Scope Q_scope.
Open Scope nat_scope.

(** ** Exceptions *)

Inductive pyerror : Set :=
| ValueError
| KeyError
| IndexError
| ZeroDivisionError
| OverflowError.

Inductive result (A : Type) : Type :=
| Ok (a : A)
| Raise (e : pyerror).

Arguments Ok {A} a.
Arguments Raise {A} e.

Definition bind {A B : Type} (c : result A) (k : A -> result B) : result B :=
  match c with
  | Ok a => k a
  | Raise e => Raise e
  end.

Declare Scope py_scope.
Delimit Scope py_scope with py.
Notation "x <- c ;; k" := (bind c (fun x => k))
  (at level 61, c at next level, right associativity) : py_scope.
Notation "' p <- c ;; k" := (bind c (fun x => match x with p => k end))
  (at level 61, p pattern, c at next level, right associativity) : py_scope.
Open Scope py_scope.

(** A loop that appends one computed item per element of [l] and stops at the
    first exception. *)
Fixpoint mapM {A B : Type} (f : A -> result B) (l : list A) : result (list B) :=
  match l with
  | [] => Ok []
  | a :: t => b <- f a ;; bs <- mapM f t ;; Ok (b :: bs)
  end.

Definition raises {A : Type} (c : result A) : Prop := exists e, c = Raise e.

(** Two computations that end alike: both return, with related values, or
    both raise the same exception. *)
Definition alike {A B : Type} (R : A -> B -> Prop) (x : result A) (y : result B)
  : Prop :=
  match x, y with
  | Ok a, Ok b => R a b
  | Raise e, Raise e' => e = e'
  | _, _ => False
  end.

(** ** The Python and numpy operations the programs use *)

Module Py.

(** [str(n)] of a non-negative [int] that the conversion accepts: since
    Python 3.11 an [int] of more than 4300 decimal digits (the default
    limit) is refused with [ValueError]. *)
Definition str (n : N) : string := NilEmpty.string_of_uint (N.to_uint n).

(** [''.join(l)]. *)
Definition join (l : list string) : string := fold_right append EmptyString l.

Definition is_binary_digit (c : ascii) : bool :=
  (Ascii.eqb c "0" || Ascii.eqb c "1")%bool.

Definition binary_digit_value (c : ascii) : N :=
  if Ascii.eqb c "1" then 1%N else 0%N.

(** [int(s, 2)] on a string of decimal digits, which is what joining the
    [str] of non-negative integers gives: the value of [s] read in base
    two when [s] is a non-empty string of 0 and 1, [ValueError] otherwise. *)
Definition int_base2 (s : string) : result N :=
  let cs := list_ascii_of_string s in
  match cs with
  | [] => Raise ValueError
  | _ =>
      if forallb is_binary_digit cs
      then Ok (fold_left (fun acc c => (2 * acc + binary_digit_value c)%N) cs 0%N)
      else Raise ValueError
  end.

(** [int(c)] of a one-character string [c]. *)
Definition int_of_char (c : ascii) : result N :=
  let n := nat_of_ascii c in
  if (48 <=? n) && (n <=? 57) then Ok (N.of_nat (n - 48)) else Raise ValueError.

(** [bin(n)] of a non-negative integer: the prefix 0b and the binary digits. *)
Definition bin (n : N) : string := BinaryString.of_N n.

(** [s[k:]]. *)
Definition slice_from (k : nat) (s : string) : string :=
  string_of_list_ascii (skipn k (list_ascii_of_string s)).

(** [s.zfill(w)] of a string without a sign. *)
Definition zfill (w : nat) (s : string) : string :=
  string_of_list_ascii (repeat "0"%char (w - String.length s)) ++ s.

(** [format(n, '0wb')] of a non-negative integer, with the width [w] written
    out: the binary digits of [n], filled with zeros on the left up to the
    width. *)
Definition format_b (w : nat) (n : N) : string := zfill w (slice_from 2 (bin n)).

(** [l[i]] for a position [i] that is not negative. *)
Definition index {A : Type} (l : list A) (i : nat) : result A :=
  match nth_error l i with
  | Some a => Ok a
  | None => Raise IndexError
  end.

(** [[l[i:i+n] for i in range(0, len(l), n)]]; the recursion is bounded by
    the length of the list, every step of which consumes [n > 0] items. *)
Fixpoint chunks_upto (fuel n : nat) {A : Type} (l : list A) : list (list A) :=
  match fuel with
  | O => []
  | S fuel' =>
      match l with
      | [] => []
      | _ => firstn n l :: chunks_upto fuel' n (skipn n l)
      end
  end.

Definition chunks (n : nat) {A : Type} (l : list A) : list (list A) :=
  chunks_upto (List.length l) n l.

(** [enumerate(l)]. *)
Definition enumerate {A : Type} (l : list A) : list (nat * A) :=
  combine (seq 0 (List.length l)) l.

(** Dictionaries: association lists in insertion order. *)
Section Dict.
Context {K V : Type} (eqb : K -> K -> bool).

Definition dict : Type := list (K * V).

(** [d[k] = v]: an existing key keeps its place, a new one goes last. *)
Fixpoint set (d : dict) (k : K) (v : V) : dict :=
  match d with
  | [] => [(k, v)]
  | (k', v') :: t => if eqb k' k then (k', v) :: t else (k', v') :: set t k v
  end.

(** A dictionary display or comprehension: the items are stored in order. *)
Definition of_items (items : list (K * V)) : dict :=
  fold_left (fun d kv => set d (fst kv) (snd kv)) items [].

(** [d[k]]. *)
Fixpoint get (d : dict) (k : K) : result V :=
  match d with
  | [] => Raise KeyError
  | (k', v) :: t => if eqb k' k then Ok v else get t k
  end.

(** [k in d]. *)
Definition mem (d : dict) (k : K) : bool :=
  existsb (fun kv => eqb (fst kv) k) d.

Definition keys (d : dict) : list K := map fst d.
Definition values (d : dict) : list V := map snd d.
End Dict.

Arguments dict : clear implicits.

End Py.

Module Np.

Definition vector : Type := list Q.
Definition matrix : Type := list vector.

(** [np.zeros(n)]. *)
Definition zeros (n : nat) : vector := repeat 0%Q n.

(** [v[k] = x] for a position [k] that is not negative. *)
Definition set_item (v : vector) (k : nat) (x : Q) : result vector :=
  if k <? List.length v
  then Ok (firstn k v ++ x :: skipn (S k) v)
  else Raise IndexError.

(** [np.linspace(start, stop, num)] for [num > 1]. *)
Definition linspace (start stop : Q) (num : nat) : vector :=
  let step := ((stop - start) / inject_Z (Z.of_nat (num - 1)))%Q in
  map (fun i => (start + inject_Z (Z.of_nat i) * step)%Q) (seq 0 num).

(** [a - b] on one-dimensional arrays, with numpy's broadcasting: equal
    lengths go component by component, an array of length one is stretched
    to the other, any other pair of lengths raises [ValueError]. *)
Definition sub (a b : vector) : result vector :=
  if List.length a =? List.length b
  then Ok (map (fun p => (fst p - snd p)%Q) (combine a b))
  else match a, b with
       | [x], _ => Ok (map (fun y => (x - y)%Q) b)
       | _, [y] => Ok (map (fun x => (x - y)%Q) a)
       | _, _ => Raise ValueError
       end.

(** [v ** 2]. *)
Definition square (v : vector) : vector := map (fun x => (x * x)%Q) v.

(** [np.sum(v)]. *)
Definition sum (v : vector) : Q := fold_left Qplus v 0%Q.

(** [np.argmin(l)]: the first position that holds the least value; the
    scan keeps the best position seen and replaces it only by a strictly
    smaller value.  An empty sequence raises [ValueError]. *)
Fixpoint argmin_from (best : nat) (least : Q) (i : nat) (l : list Q) : nat :=
  match l with
  | [] => best
  | x :: t =>
      if Qle_bool least x
      then argmin_from best least (S i) t
      else argmin_from i x (S i) t
  end.

Definition argmin (l : list Q) : result nat :=
  match l with
  | [] => Raise ValueError
  | x :: t => Ok (argmin_from 0 x 1 t)
  end.

(** *** Arrays of binary64 numbers *)

Definition fvector : Type := list float.
Definition fmatrix : Type := list fvector.

(** [np.zeros(n)]. *)
Definition fzeros (n : nat) : fvector := repeat zero n.

(** [v[k] = x] for a position [k] that is not negative. *)
Definition fset_item (v : fvector) (k : nat) (x : float) : result fvector :=
  if k <? List.length v
  then Ok (firstn k v ++ x :: skipn (S k) v)
  else Raise IndexError.

(** [a - b] on one-dimensional arrays, with numpy's broadcasting. *)
Definition fsub (a b : fvector) : result fvector :=
  if List.length a =? List.length b
  then Ok (map (fun p => (fst p - snd p)%float) (combine a b))
  else match a, b with
       | [x], _ => Ok (map (fun y => (x - y)%float) b)
       | _, [y] => Ok (map (fun x => (x - y)%float) a)
       | _, _ => Raise ValueError
       end.

(** [v ** 2]: numpy squares with one multiplication. *)
Definition fsquare (v : fvector) : fvector := map (fun x => (x * x)%float) v.

(** What [np.sum] may return for an array of binary64 numbers.  numpy adds
    the elements in an order and a grouping of its own (pairwise, in blocks),
    starting from a zero: the result is the value of some tree of binary64
    additions over the elements, each taken once.  The sum of no element is
    0.0. *)
Inductive summation : fvector -> float -> Prop :=
| sum_empty : summation [] zero
| sum_one (x : float) : summation [x] x
| sum_add (l1 l2 l : fvector) (v1 v2 : float) :
    summation l1 v1 -> summation l2 v2 -> Permutation l (l1 ++ l2) ->
    summation l (v1 + v2)%float.

(** [np.argmin(l)] on binary64 numbers.  The scan starts with the first
    item as the least; an item replaces it when [item >= least] does not
    hold, and the scan ends as soon as the least is a nan: the answer is the
    first nan if there is one, the first position of the least value
    otherwise.  An empty sequence raises [ValueError]. *)
Fixpoint fargmin_from (best : nat) (least : float) (i : nat) (l : fvector) : nat :=
  match l with
  | [] => best
  | x :: t =>
      if is_nan least then best
      else if (least <=? x)%float
           then fargmin_from best least (S i) t
           else fargmin_from i x (S i) t
  end.

Definition fargmin (l : fvector) : result nat :=
  match l with
  | [] => Raise ValueError
  | x :: t => Ok (fargmin_from 0 x 1 t)
  end.

End Np.


(** ** 1-procesamientovoz.py *)

Module ProcesamientoVoz.

(** The last step of [codificar_senal], from the number of bits and the
    integer codes it has computed (none of them negative):
    [[format(codigo, f'0{bits}b') for codigo in codigos]]. *)
Definition codigos_binarios (bits : nat) (codigos : list N) : list string :=
  map (Py.format_b bits) codigos.

End ProcesamientoVoz.


(** ** 2_modulador.py *)

Module Modulador.

(** Constellation point reported next to the one-hot matrix: a frequency in
    Hz (8FSK), an amplitude pair of the table (16QAM), or the point of phase
    [2*pi*k/8] on the unit circle (8PSK), kept as its phase index [k] because
    its coordinates are a cosine and a sine. *)
Inductive point : Type :=
| Frequency (f : Q)
| Amplitudes (i q : Z)
| Phase (k : N).

(** The dictionary [modulate] returns.  [gray_symbols] is absent from the
    result of 16QAM. *)
Record modulation_result : Type := {
  modulated_signal : Np.matrix;
  symbol_values : list point;
  gray_symbols : option (list N);
  padding : nat;
  modulation_type : string;
  constellation_size : nat
}.

(** [BaseModulator] with its subclasses: the attributes set by [__init__] and
    the abstract method. *)
Record Modulator : Type := {
  name : string;
  bits_per_symbol : nat;
  get_constellation_size : nat;
  modulate : list N -> result modulation_result
}.

(** [BaseModulator.apply_padding].  The Python method extends the list it is
    given in place and returns that same list; the embedding returns the
    extended value. *)
Definition apply_padding (bits_per_symbol : nat) (bits : list N)
  : result (list N * nat) :=
  if bits_per_symbol =? 0 then Raise ZeroDivisionError
  else
    let remainder := List.length bits mod bits_per_symbol in
    if negb (remainder =? 0)
    then
      let padding := bits_per_symbol - remainder in
      Ok (bits ++ repeat 0%N padding, padding)
    else Ok (bits, 0).

(** The loop of [BaseModulator.read_bits_from_file] over the code lines of a
    file in the format of [1-senal_codificada.txt], each line taken without
    the white space around it and the line that gives the bits per character
    left out: [bits.extend(list(map(int, line)))]. *)
Fixpoint read_code_lines (lines : list string) : result (list N) :=
  match lines with
  | [] => Ok []
  | line :: rest =>
      ints <- mapM Py.int_of_char (list_ascii_of_string line) ;;
      more <- read_code_lines rest ;;
      Ok (ints ++ more)
  end.

(** [int(''.join(map(str, bit_group)), 2)]. *)
Definition decimal_value (bit_group : list N) : result N :=
  Py.int_base2 (Py.join (map Py.str bit_group)).

(** The one-hot matrix: [np.zeros((len(symbols), size))], then row [i]
    receives the one assignment [one_hot_matrix[i, symbol] = 1]. *)
Definition one_hot_matrix (size : nat) (symbols : list N) : result Np.matrix :=
  mapM (fun symbol => Np.set_item (Np.zeros size) (N.to_nat symbol) 1%Q) symbols.

(** *** FSK8Modulator *)

Definition frequencies : Np.vector := Np.linspace 1000%Q 8000%Q 8.

Definition binary_to_gray (n : N) : N := N.lxor n (N.shiftr n 1).

Definition FSK8_modulate (bits : list N) : result modulation_result :=
  '(bits, padding) <- apply_padding 3 bits ;;
  symbols <- mapM decimal_value (Py.chunks 3 bits) ;;
  let gray_symbols := map binary_to_gray symbols in
  modulated_values <-
    mapM (fun gray_sym => Py.index frequencies (N.to_nat gray_sym)) gray_symbols ;;
  one_hot <- one_hot_matrix 8 gray_symbols ;;
  Ok {| modulated_signal := one_hot;
        symbol_values := map Frequency modulated_values;
        gray_symbols := Some gray_symbols;
        padding := padding;
        modulation_type := "8FSK";
        constellation_size := 8 |}.

Definition FSK8Modulator : Modulator :=
  {| name := "8FSK"; bits_per_symbol := 3; get_constellation_size := 8;
     modulate := FSK8_modulate |}.

(** *** QAM16Modulator *)

Definition gray_symbol_map : Py.dict string (Z * Z) :=
  Py.of_items String.eqb
    [ ("0100", (-3, 3)%Z); ("0110", (-1, 3)%Z); ("1110", (1, 3)%Z); ("1100", (3, 3)%Z);
      ("0101", (-3, 1)%Z); ("0111", (-1, 1)%Z); ("1111", (1, 1)%Z); ("1101", (3, 1)%Z);
      ("0001", (-3, -1)%Z); ("0011", (-1, -1)%Z); ("1011", (1, -1)%Z); ("1001", (3, -1)%Z);
      ("0000", (-3, -3)%Z); ("0010", (-1, -3)%Z); ("1010", (1, -3)%Z); ("1000", (3, -3)%Z) ]%string.

(** [{bits: i for i, bits in enumerate(self.gray_symbol_map.keys())}]. *)
Definition symbol_to_index : Py.dict string nat :=
  Py.of_items String.eqb
    (map (fun ib => (snd ib, fst ib)) (Py.enumerate (Py.keys gray_symbol_map))).

Definition QAM16_symbol (symbol : list N) : result ((Z * Z) * nat) :=
  let bit_string := Py.join (map Py.str symbol) in
  iq <- Py.get String.eqb gray_symbol_map bit_string ;;
  symbol_index <- Py.get String.eqb symbol_to_index bit_string ;;
  Ok (iq, symbol_index).

Definition QAM16_modulate (bits : list N) : result modulation_result :=
  '(bits, padding) <- apply_padding 4 bits ;;
  let symbols := Py.chunks 4 bits in
  rows <- mapM QAM16_symbol symbols ;;
  one_hot <- one_hot_matrix 16 (map (fun r => N.of_nat (snd r)) rows) ;;
  Ok {| modulated_signal := one_hot;
        symbol_values := map (fun r => Amplitudes (fst (fst r)) (snd (fst r))) rows;
        gray_symbols := None;
        padding := padding;
        modulation_type := "16QAM";
        constellation_size := 16 |}.

Definition QAM16Modulator : Modulator :=
  {| name := "16QAM"; bits_per_symbol := 4; get_constellation_size := 16;
     modulate := QAM16_modulate |}.

(** *** PSK8Modulator *)

Definition gray_map : list N := [0; 1; 3; 2; 6; 7; 5; 4]%N.

Definition PSK8_modulate (bits : list N) : result modulation_result :=
  '(bits, padding) <- apply_padding 3 bits ;;
  symbols <- mapM decimal_value (Py.chunks 3 bits) ;;
  gray_symbols <- mapM (fun sym => Py.index gray_map (N.to_nat sym)) symbols ;;
  phases <- mapM (fun symbol => Py.index (map N.of_nat (seq 0 8)) (N.to_nat symbol))
                 gray_symbols ;;
  one_hot <- one_hot_matrix 8 gray_symbols ;;
  Ok {| modulated_signal := one_hot;
        symbol_values := map Phase phases;
        gray_symbols := Some gray_symbols;
        padding := padding;
        modulation_type := "8PSK";
        constellation_size := 8 |}.

Definition PSK8Modulator : Modulator :=
  {| name := "8PSK"; bits_per_symbol := 3; get_constellation_size := 8;
     modulate := PSK8_modulate |}.

(** [ModulationSystem.modulators], keyed by the menu entry. *)
Definition modulators : Py.dict string Modulator :=
  Py.of_items String.eqb
    [ ("1", FSK8Modulator); ("2", QAM16Modulator); ("3", PSK8Modulator) ]%string.

End Modulador.


(** ** 4_demodulador.py *)

Module Demodulador.

(** [BaseDemodulator.gray_to_binary]:
    [b = 0; while n: b ^= n; n >>= 1; return b].
    The argument is a detected symbol, which is never negative.  Shifting a
    positive binary number right by one drops its last digit, so the loop is
    a recursion on the digits of [n]. *)
Fixpoint gray_to_binary_loop (b : N) (n : positive) : N :=
  let b := N.lxor b (Npos n) in
  match n with
  | xH => b
  | xO n' | xI n' => gray_to_binary_loop b n'
  end.

Definition gray_to_binary (n : N) : N :=
  match n with
  | N0 => 0%N
  | Npos p => gray_to_binary_loop 0%N p
  end.

(** What [get_symbol_info] returns, per scheme. *)
Inductive symbol_info : Type :=
| FSK8Info (frequencies : list Q) (binary_symbols : list N) (gray_symbols : list nat)
| QAM16Info (iq_values : list (Z * Z)) (bit_strings : list string)
            (detected_symbols : list nat)
| PSK8Info (phases : list N) (binary_symbols : list nat) (gray_symbols : list nat).

(** [BaseDemodulator] with its subclasses. *)
Record Demodulator : Type := {
  name : string;
  bits_per_symbol : nat;
  constellation_size : nat;
  demodulate_bayes : Np.matrix -> Q -> result (list nat);
  symbol_to_bits : nat -> result (list ascii);
  get_symbol_info : list nat -> result symbol_info
}.

(** The body the three [demodulate_bayes] methods share.  For the row [r]:
    [distances] collects, for every candidate [i], [np.sum((r - s_i) ** 2)]
    where [s_i] is [np.zeros(size)] with [s_i[i] = A].  These definitions
    carry the computation out on rationals, where it is exact; they are used
    for the chain without noise, on rows of 0 and 1 with the amplitude 1,
    where every binary64 operation of the source is exact too.  The same body
    on binary64 numbers is [distance64] .. [demodulate_bayes64] below. *)
Definition distance (size : nat) (A : Q) (r : Np.vector) (i : nat) : result Q :=
  s_i <- Np.set_item (Np.zeros size) i A ;;
  d <- Np.sub r s_i ;;
  Ok (Np.sum (Np.square d)).

Definition distances (size : nat) (A : Q) (r : Np.vector) : result (list Q) :=
  mapM (distance size A r) (seq 0 size).

Definition detect (size : nat) (A : Q) (r : Np.vector) : result nat :=
  ds <- distances size A r ;;
  Np.argmin ds.

Definition demodulate_bayes_of (size : nat) (received_matrix : Np.matrix) (A : Q)
  : result (list nat) :=
  mapM (detect size A) received_matrix.

(** The same body as the source runs it, on binary64 numbers.  [np_sum] is
    [np.sum] on an array of binary64 numbers; the order of its additions is
    numpy's affair. *)
Section Binary64.

Variable np_sum : Np.fvector -> float.

Definition distance64 (size : nat) (A : float) (r : Np.fvector) (i : nat)
  : result float :=
  s_i <- Np.fset_item (Np.fzeros size) i A ;;
  d <- Np.fsub r s_i ;;
  Ok (np_sum (Np.fsquare d)).

Definition distances64 (size : nat) (A : float) (r : Np.fvector)
  : result (list float) :=
  mapM (distance64 size A r) (seq 0 size).

Definition detect64 (size : nat) (A : float) (r : Np.fvector) : result nat :=
  ds <- distances64 size A r ;;
  Np.fargmin ds.

Definition demodulate_bayes64 (size : nat) (received_matrix : Np.fmatrix)
           (A : float) : result (list nat) :=
  mapM (detect64 size A) received_matrix.

End Binary64.

(** [list(bin(n)[2:].zfill(width))]. *)
Definition binary_digits (width : nat) (n : N) : list ascii :=
  list_ascii_of_string (Py.zfill width (Py.slice_from 2 (Py.bin n))).

(** *** FSK8Demodulator *)

Definition frequencies : Np.vector := Np.linspace 1000%Q 8000%Q 8.

Definition FSK8_symbol_to_bits (symbol : nat) : result (list ascii) :=
  let binary_symbol := gray_to_binary (N.of_nat symbol) in
  Ok (binary_digits 3 binary_symbol).

Definition FSK8_get_symbol_info (detected_symbols : list nat) : result symbol_info :=
  freqs <- mapM (Py.index frequencies) detected_symbols ;;
  let binary_symbols := map (fun sym => gray_to_binary (N.of_nat sym)) detected_symbols in
  Ok (FSK8Info freqs binary_symbols detected_symbols).

Definition FSK8Demodulator : Demodulator :=
  {| name := "8FSK"; bits_per_symbol := 3; constellation_size := 8;
     demodulate_bayes := demodulate_bayes_of 8;
     symbol_to_bits := FSK8_symbol_to_bits;
     get_symbol_info := FSK8_get_symbol_info |}.

(** *** QAM16Demodulator *)

Definition gray_symbol_map : Py.dict string (Z * Z) :=
  Py.of_items String.eqb
    [ ("0100", (-3, 3)%Z); ("0110", (-1, 3)%Z); ("1110", (1, 3)%Z); ("1100", (3, 3)%Z);
      ("0101", (-3, 1)%Z); ("0111", (-1, 1)%Z); ("1111", (1, 1)%Z); ("1101", (3, 1)%Z);
      ("0001", (-3, -1)%Z); ("0011", (-1, -1)%Z); ("1011", (1, -1)%Z); ("1001", (3, -1)%Z);
      ("0000", (-3, -3)%Z); ("0010", (-1, -3)%Z); ("1010", (1, -3)%Z); ("1000", (3, -3)%Z) ]%string.

(** [{i: bits for i, bits in enumerate(self.gray_symbol_map.keys())}]. *)
Definition index_to_bits : Py.dict nat string :=
  Py.of_items Nat.eqb (Py.enumerate (Py.keys gray_symbol_map)).

Definition QAM16_symbol_to_bits (symbol : nat) : result (list ascii) :=
  bit_string <- Py.get Nat.eqb index_to_bits symbol ;;
  Ok (list_ascii_of_string bit_string).

Definition QAM16_get_symbol_info (detected_symbols : list nat) : result symbol_info :=
  rows <- mapM (fun symbol =>
                  bit_string <- Py.get Nat.eqb index_to_bits symbol ;;
                  iq <- Py.get String.eqb gray_symbol_map bit_string ;;
                  Ok (iq, bit_string)) detected_symbols ;;
  Ok (QAM16Info (map fst rows) (map snd rows) detected_symbols).

Definition QAM16Demodulator : Demodulator :=
  {| name := "16QAM"; bits_per_symbol := 4; constellation_size := 16;
     demodulate_bayes := demodulate_bayes_of 16;
     symbol_to_bits := QAM16_symbol_to_bits;
     get_symbol_info := QAM16_get_symbol_info |}.

(** *** PSK8Demodulator *)

Definition gray_map : list N := [0; 1; 3; 2; 6; 7; 5; 4]%N.

(** [{v: k for k, v in enumerate(self.gray_map)}]. *)
Definition inverse_gray_map : Py.dict N nat :=
  Py.of_items N.eqb (map (fun kv => (snd kv, fst kv)) (Py.enumerate gray_map)).

Definition PSK8_symbol_to_bits (symbol : nat) : result (list ascii) :=
  binary_symbol <- Py.get N.eqb inverse_gray_map (N.of_nat symbol) ;;
  Ok (binary_digits 3 (N.of_nat binary_symbol)).

(** The phases are kept as the index [k] of [2*pi*k/8]; the I/Q pair of a
    symbol is the cosine and the sine of its phase. *)
Definition PSK8_get_symbol_info (detected_symbols : list nat) : result symbol_info :=
  phases <- mapM (Py.index (map N.of_nat (seq 0 8))) detected_symbols ;;
  binary_symbols <-
    mapM (fun symbol => Py.get N.eqb inverse_gray_map (N.of_nat symbol))
         detected_symbols ;;
  Ok (PSK8Info phases binary_symbols detected_symbols).

Definition PSK8Demodulator : Demodulator :=
  {| name := "8PSK"; bits_per_symbol := 3; constellation_size := 8;
     demodulate_bayes := demodulate_bayes_of 8;
     symbol_to_bits := PSK8_symbol_to_bits;
     get_symbol_info := PSK8_get_symbol_info |}.

(** *** DemodulationSystem *)

Definition demodulators : Py.dict string Demodulator :=
  Py.of_items String.eqb
    [ ("8FSK", FSK8Demodulator); ("16QAM", QAM16Demodulator);
      ("8PSK", PSK8Demodulator) ]%string.

(** The dictionary [demodulate_signal] returns, without the elapsed wall-clock
    time. *)
Record demodulation_result : Type := {
  demodulated_bits : list N;
  detected_symbols : list nat;
  info : symbol_info;
  demodulator : Demodulator
}.

(** The loop [for symbol in detected_symbols] of [demodulate_signal]: the bits
    of each symbol are converted with [int] and appended. *)
Fixpoint symbols_to_bits (d : Demodulator) (symbols : list nat) : result (list N) :=
  match symbols with
  | [] => Ok []
  | symbol :: rest =>
      bits <- symbol_to_bits d symbol ;;
      ints <- mapM Py.int_of_char bits ;;
      more <- symbols_to_bits d rest ;;
      Ok (ints ++ more)
  end.

Definition demodulate_signal (received_matrix : Np.matrix) (modulation_type : string)
           (A : Q) : result demodulation_result :=
  if negb (Py.mem String.eqb demodulators modulation_type) then Raise ValueError
  else
    demodulator <- Py.get String.eqb demodulators modulation_type ;;
    detected_symbols <- demodulate_bayes demodulator received_matrix A ;;
    demodulated_bits <- symbols_to_bits demodulator detected_symbols ;;
    symbol_info <- get_symbol_info demodulator detected_symbols ;;
    Ok {| demodulated_bits := demodulated_bits;
          detected_symbols := detected_symbols;
          info := symbol_info;
          demodulator := demodulator |}.

(** [remove_padding]: [bits[:-padding]] when [padding > 0]. *)
Definition remove_padding (bits : list N) (padding : nat) : list N :=
  if 0 <? padding then firstn (List.length bits - padding) bits else bits.

(** The lines of [4_demodulated_bits.txt]:
    [np.savetxt(bits_file, results['demodulated_bits'], fmt='%d')] writes one
    integer per line. *)
Definition save_bits (demodulated_bits : list N) : list string :=
  map Py.str demodulated_bits.

End Demodulador.


(** ** 3-canal.py *)

Module Canal.

(** The channel works on binary64 numbers. *)
Definition fvector : Type := list float.
Definition fmatrix : Type := list fvector.

(** The conversion numpy applies to an integer entry that meets a float:
    the nearest binary64 number.  The entries are those of an array of
    64-bit integers, -2^63 .. 2^63 - 1; the magnitude of a negative one goes
    through a 63-bit integer, except 2^63, which is a binary64 number
    itself. *)
Definition float_of_int (z : Z) : float :=
  match z with
  | Z0 => zero
  | Zpos _ => of_uint63 (Uint63.of_Z z)
  | Zneg _ =>
      if (z =? - 9223372036854775808)%Z then opp 9223372036854775808%float
      else opp (of_uint63 (Uint63.of_Z (- z)))
  end.

(** [np.random.normal(loc, scale, size=(rows, cols))].  The generator is the
    process-wide one; [draws k] is the [k]-th standard normal deviate it
    yields from its current state, and the array is filled row by row with
    [loc + scale * deviate].  A scale whose sign bit is set, and which is not
    nan, is rejected with [ValueError]. *)
Definition random_normal (draws : nat -> float) (loc scale : float)
           (size : nat * nat) : result fmatrix :=
  if get_sign scale then Raise ValueError
  else
    let '(rows, cols) := size in
    Ok (map (fun i =>
               map (fun j => let deviate := draws (i * cols + j) in
                             (loc + scale * deviate)%float) (seq 0 cols))
            (seq 0 rows)).

Definition shape {A : Type} (m : list (list A)) : nat * nat :=
  (List.length m, match m with [] => 0 | r :: _ => List.length r end).

(** [signal + noise], the signal being the integer matrix read with
    [np.loadtxt(..., dtype=int)]. *)
Definition add_noise (signal : list (list Z)) (noise : fmatrix) : fmatrix :=
  map (fun rs =>
         map (fun p => (float_of_int (fst p) + snd p)%float)
             (combine (fst rs) (snd rs)))
      (combine signal noise).

Definition add_awgn (draws : nat -> float) (signal : list (list Z)) (N0 : float)
  : result (fmatrix * fmatrix) :=
  let sigma := sqrt (N0 / 2) in
  noise <- random_normal draws zero sigma (shape signal) ;;
  let noisy_signal := add_noise signal noise in
  Ok (noisy_signal, noise).

(** The keys of the modulation metadata the channel reads. *)
Record metadata : Type := {
  modulation_type : string;
  constellation_size : N;
  total_symbols : nat;
  padding : nat
}.

Record snr_metrics : Type := {
  Eb : float;
  Es : float;
  Eb_N0_dB : float;
  Es_N0_dB : float
}.

Section Metrics.

(** [np.log10] on binary64 numbers; no property of it is used. *)
Variable np_log10 : float -> float.

(** [int(np.log2(M))]: the integer part of the binary logarithm of a positive
    size; [np.log2(0)] is minus infinity, which [int] refuses with
    [OverflowError]. *)
Definition int_log2 (M : N) : result N :=
  match M with
  | N0 => Raise OverflowError
  | Npos _ => Ok (N.log2 M)
  end.

(** Python's [x / y] on floats raises [ZeroDivisionError] for a zero divisor
    of either sign. *)
Definition py_div (x y : float) : result float :=
  if is_zero y then Raise ZeroDivisionError else Ok (x / y)%float.

Definition calculate_snr_metrics (md : metadata) (N0 : float) : result snr_metrics :=
  let M := constellation_size md in
  bits_per_symbol <- int_log2 M ;;
  let bps := float_of_int (Z.of_N bits_per_symbol) in
  Eb <- py_div one bps ;;
  let Es := (Eb * bps)%float in
  Eb_N0 <- py_div Eb N0 ;;
  Es_N0 <- py_div Es N0 ;;
  Ok {| Eb := Eb;
        Es := Es;
        Eb_N0_dB := (10 * np_log10 Eb_N0)%float;
        Es_N0_dB := (10 * np_log10 Es_N0)%float |}.

(** What [save_outputs] writes. *)
Record channel_output : Type := {
  channel_signal : fmatrix;
  channel_noise : fmatrix;
  channel_metadata : metadata;
  channel_N0 : float;
  channel_snr : snr_metrics
}.

(** The processing steps of [main], from the value of N0 the operator
    entered to the outputs that are saved. *)
Definition main (draws : nat -> float) (signal : list (list Z)) (md : metadata)
           (N0 : float) : result channel_output :=
  '(noisy_signal, noise) <- add_awgn draws signal N0 ;;
  snr <- calculate_snr_metrics md N0 ;;
  Ok {| channel_signal := noisy_signal;
        channel_noise := noise;
        channel_metadata := md;
        channel_N0 := N0;
        channel_snr := snr |}.

End Metrics.

End Canal.


(** ** 5_comparacion.py *)

Module Comparacion.

Record codigo_erroneo : Type := {
  posicion : nat;
  original : string;
  demodulado : string
}.

(** The dictionary [compare_bit_sequences] returns.  The ratios are
    rationals. *)
Record comparison : Type := {
  total_codigos : nat;
  total_bits : nat;
  errores_por_codigo : nat;
  errores_por_bit : nat;
  porcentaje_error_codigo : Q;
  porcentaje_error_bit : Q;
  relacion_error_bit : Q;
  probabilidad_error_simbolo : Q;
  porcentaje_error_simbolo : Q;
  codigos_erroneos : list codigo_erroneo
}.

(** The four variables the comparison loop updates. *)
Record counters : Type := {
  c_errores_por_codigo : nat;
  c_errores_por_bit : nat;
  c_total_bits : nat;
  c_codigos_erroneos : list codigo_erroneo
}.

(** [sum(1 for b1, b2 in zip(a, b) if b1 != b2)]. *)
Definition differing_bits (a b : string) : nat :=
  List.length
    (filter (fun p => negb (Ascii.eqb (fst p) (snd p)))
            (combine (list_ascii_of_string a) (list_ascii_of_string b))).

(** One iteration of [for i in range(min_length)]. *)
Definition compare_step (original_bits demodulated_bits : list string)
           (c : counters) (i : nat) : counters :=
  let codigo_original := nth i original_bits EmptyString in
  let codigo_demodulado := nth i demodulated_bits EmptyString in
  let differs := negb (String.eqb codigo_original codigo_demodulado) in
  {| c_errores_por_codigo :=
       if differs then c_errores_por_codigo c + 1 else c_errores_por_codigo c;
     c_errores_por_bit :=
       c_errores_por_bit c + differing_bits codigo_original codigo_demodulado;
     c_total_bits := c_total_bits c + String.length codigo_original;
     c_codigos_erroneos :=
       if differs
       then c_codigos_erroneos c ++
            [{| posicion := i; original := codigo_original;
                demodulado := codigo_demodulado |}]
       else c_codigos_erroneos c |}.

Definition ratio (a b : nat) : Q :=
  (inject_Z (Z.of_nat a) / inject_Z (Z.of_nat b))%Q.

(** [compare_bit_sequences].  No statement of the method raises: sequences
    of different lengths are reported on the console and compared over their
    common prefix, and each division is guarded by a test of its divisor. *)
Definition compare_bit_sequences (original_bits demodulated_bits : list string)
  : result comparison :=
  let min_length := Nat.min (List.length original_bits) (List.length demodulated_bits) in
  let c :=
    fold_left (compare_step original_bits demodulated_bits) (seq 0 min_length)
              {| c_errores_por_codigo := 0; c_errores_por_bit := 0;
                 c_total_bits := 0; c_codigos_erroneos := [] |} in
  let porcentaje_error_codigo :=
    if 0 <? min_length
    then (ratio (c_errores_por_codigo c) min_length * 100)%Q else 0%Q in
  let porcentaje_error_bit :=
    if 0 <? c_total_bits c
    then (ratio (c_errores_por_bit c) (c_total_bits c) * 100)%Q else 0%Q in
  let relacion_error_bit :=
    if 0 <? c_total_bits c
    then ratio (c_errores_por_bit c) (c_total_bits c) else 0%Q in
  let bits_por_simbolo := 3%positive in
  let Ps :=
    if 0 <? c_total_bits c
    then (1 - Qpower_positive (1 - relacion_error_bit) bits_por_simbolo)%Q
    else 0%Q in
  Ok {| total_codigos := min_length;
        total_bits := c_total_bits c;
        errores_por_codigo := c_errores_por_codigo c;
        errores_por_bit := c_errores_por_bit c;
        porcentaje_error_codigo := porcentaje_error_codigo;
        porcentaje_error_bit := porcentaje_error_bit;
        relacion_error_bit := relacion_error_bit;
        probabilidad_error_simbolo := Ps;
        porcentaje_error_simbolo := (Ps * 100)%Q;
        codigos_erroneos := firstn 10 (c_codigos_erroneos c) |}.

(** The loop of [reconstruct_voice_format] over the groups
    [demodulated_bits[i:i+bits_per_character]]: a complete group is joined
    and appended, the first incomplete group ends the loop. *)
Fixpoint join_complete (bits_per_character : nat) (groups : list (list string))
  : list string :=
  match groups with
  | [] => []
  | group :: rest =>
      if List.length group =? bits_per_character
      then Py.join group :: join_complete bits_per_character rest
      else []
  end.

(** [reconstruct_voice_format].  [bits_per_character] is [None] or a count
    that is not negative; [None] and 0 are refused with [ValueError]. *)
Definition reconstruct_voice_format (demodulated_bits : list string)
           (bits_per_character : option nat) : result (list string) :=
  match bits_per_character with
  | None | Some 0 => Raise ValueError
  | Some n => Ok (join_complete n (Py.chunks n demodulated_bits))
  end.

(** [read_demodulated_bits] on the lines of the file, each taken without the
    white space around it: the lines that are 0 or 1 are kept. *)
Definition read_demodulated_bits (lines : list string) : list string :=
  filter (fun bit => String.eqb bit "0" || String.eqb bit "1")%bool lines.

(** [run_comparison] from the files read to the comparison: the bits are
    grouped again when [bits_per_character] is known and not zero and some
    bit was read, and compared as they are otherwise.  An exception ends
    the method with a message on the console. *)
Definition run_comparison (original_bits : list string)
           (bits_per_character : option nat) (demodulated_lines : list string)
  : result comparison :=
  let demodulated_bits := read_demodulated_bits demodulated_lines in
  let known := match bits_per_character with
               | None | Some 0 => false
               | Some _ => true
               end in
  reconstructed_bits <-
    (if known && (0 <? List.length demodulated_bits)
     then reconstruct_voice_format demodulated_bits bits_per_character
     else Ok demodulated_bits) ;;
  compare_bit_sequences original_bits reconstructed_bits.

End Comparacion.


(** ** modular_modulation_system.py *)

Module ModularModulation.

(** The file repeats [apply_padding], [binary_to_gray], the frequencies and
    the 16QAM table of [2_modulador.py] word for word; its modulators stop
    before the one-hot matrix. *)

(** The dictionary [FSK8Modulator.modulate] returns; [additional_info]
    repeats the symbols, the Gray symbols and the frequencies. *)
Record fsk8_result : Type := {
  modulated_values : list Q;
  fsk8_padding : nat;
  gray_symbols : list N;
  symbols : list N
}.

Definition FSK8_modulate (bits : list N) : result fsk8_result :=
  '(bits, padding) <- Modulador.apply_padding 3 bits ;;
  symbols <- mapM Modulador.decimal_value (Py.chunks 3 bits) ;;
  let gray_symbols := map Modulador.binary_to_gray symbols in
  modulated_values <-
    mapM (fun gray_sym => Py.index Modulador.frequencies (N.to_nat gray_sym))
         gray_symbols ;;
  Ok {| modulated_values := modulated_values;
        fsk8_padding := padding;
        gray_symbols := gray_symbols;
        symbols := symbols |}.

(** The dictionary [QAM16Modulator.modulate] returns. *)
Record qam16_result : Type := {
  iq_values : list (Z * Z);
  qam16_padding : nat
}.

Definition QAM16_modulate (bits : list N) : result qam16_result :=
  '(bits, padding) <- Modulador.apply_padding 4 bits ;;
  let symbols := Py.chunks 4 bits in
  iq_values <-
    mapM (fun symbol =>
            Py.get String.eqb Modulador.gray_symbol_map (Py.join (map Py.str symbol)))
         symbols ;;
  Ok {| iq_values := iq_values; qam16_padding := padding |}.

End ModularModulation.


(** ** The order of binary64 numbers *)

Module FloatOrder.

(** A number that is not a nan, placed in the order of the comparisons:
    its class (minus infinity, negative, zero, positive, plus infinity), then
    its exponent and its mantissa, both negated for a negative number. *)
Definition key (x : spec_float) : option (Z * Z * Z) :=
  match x with
  | S754_nan => None
  | S754_infinity true => Some (-2, 0, 0)%Z
  | S754_infinity false => Some (2, 0, 0)%Z
  | S754_zero _ => Some (0, 0, 0)%Z
  | S754_finite true m e => Some (-1, - e, Zneg m)%Z
  | S754_finite false m e => Some (1, e, Zpos m)%Z
  end.

Definition compare3 (a b : Z * Z * Z) : comparison :=
  let '(a1, a2, a3) := a in
  let '(b1, b2, b3) := b in
  match (a1 ?= b1)%Z with
  | Eq => match (a2 ?= b2)%Z with
          | Eq => (a3 ?= b3)%Z
          | c => c
          end
  | c => c
  end.

End FloatOrder.


(** ** The vocabulary of the specification *)

Module Spec.

(** The three modulation schemes, with the modulator of [2_modulador.py] and
    the demodulator of [4_demodulador.py] that implement each. *)
Inductive scheme : Set := FSK8 | QAM16 | PSK8.

Definition modulator (s : scheme) : Modulador.Modulator :=
  match s with
  | FSK8 => Modulador.FSK8Modulator
  | QAM16 => Modulador.QAM16Modulator
  | PSK8 => Modulador.PSK8Modulator
  end.

Definition demodulator (s : scheme) : Demodulador.Demodulator :=
  match s with
  | FSK8 => Demodulador.FSK8Demodulator
  | QAM16 => Demodulador.QAM16Demodulator
  | PSK8 => Demodulador.PSK8Demodulator
  end.

Definition bitsPerSymbol (s : scheme) : nat :=
  Demodulador.bits_per_symbol (demodulator s).

Definition constellationSize (s : scheme) : nat :=
  Demodulador.constellation_size (demodulator s).

(** A bit is one of the integers 0 and 1. *)
Definition is_bit (b : N) : Prop := b = 0%N \/ b = 1%N.

(** A bitstream is a sequence of bits. *)
Definition bitstream (bits : list N) : Prop := Forall is_bit bits.

(** A bit pattern of a scheme: [bitsPerSymbol] bits. *)
Definition pattern (s : scheme) (g : list N) : Prop :=
  List.length g = bitsPerSymbol s /\ bitstream g.

(** The ideal one-hot vector [s_i]: the value [A] at position [i], 0
    elsewhere. *)
Definition s_ (size i : nat) (A : Q) : Np.vector :=
  map (fun j => if j =? i then A else 0%Q) (seq 0 size).

(** [d_i], the sum over [j] of [(r_j - s_i_j)^2]. *)
Definition d_ (size : nat) (r : Np.vector) (A : Q) (i : nat) : Q :=
  fold_right Qplus 0%Q
    (map (fun j => let x := (nth j r 0 - nth j (s_ size i A) 0)%Q in (x * x)%Q)
         (seq 0 size)).

(** The ideal one-hot vector [s_i] in binary64: [A] at position [i], 0.0
    elsewhere. *)
Definition s64 (size i : nat) (A : float) : Np.fvector :=
  map (fun j => if j =? i then A else zero) (seq 0 size).

(** The squares [(r_j - s_i_j)^2] of a row of the width [size], each computed
    in binary64: the terms of the distance [d_i]. *)
Definition squares (size : nat) (r : Np.fvector) (A : float) (i : nat)
  : Np.fvector :=
  map (fun j => let x := (nth j r zero - nth j (s64 size i A) zero)%float in
                (x * x)%float)
      (seq 0 size).

(** [np.sum] adding from left to right, starting from 0.0. *)
Definition sum_left (v : Np.fvector) : float := fold_left PrimFloat.add v zero.

(** [bitsToIndex]: the symbol index the modulator of the scheme gives to one
    group of bits. *)
Definition bitsToIndex (s : scheme) (g : list N) : result nat :=
  match s with
  | FSK8 =>
      v <- Modulador.decimal_value g ;;
      Ok (N.to_nat (Modulador.binary_to_gray v))
  | QAM16 =>
      Py.get String.eqb Modulador.symbol_to_index (Py.join (map Py.str g))
  | PSK8 =>
      v <- Modulador.decimal_value g ;;
      k <- Py.index Modulador.gray_map (N.to_nat v) ;;
      Ok (N.to_nat k)
  end.

(** [indexToBits]: the bits the demodulator of the scheme gives back for a
    symbol index, as [demodulate_signal] converts them. *)
Definition indexToBits (s : scheme) (i : nat) : result (list N) :=
  bits <- Demodulador.symbol_to_bits (demodulator s) i ;;
  mapM Py.int_of_char bits.

(** The symbol index of a bit pattern; 0 stands for a group that the
    modulator refuses. *)
Definition symbolIndex (s : scheme) (g : list N) : nat :=
  match bitsToIndex s g with
  | Ok i => i
  | Raise _ => 0
  end.

(** The one-hot matrix of a sequence of bit patterns, with amplitude 1. *)
Definition oneHot (s : scheme) (groups : list (list N)) : Np.matrix :=
  map (fun g => s_ (constellationSize s) (symbolIndex s g) 1) groups.

(** The entry in row [i] and column [j] of a matrix, [d] outside of it. *)
Definition entry {A : Type} (d : A) (m : list (list A)) (i j : nat) : A :=
  nth j (nth i m []) d.

(** A binary64 number, seen through its specification, that is nan or has
    its sign bit clear. *)
Definition sf_nonneg (x : spec_float) : Prop :=
  match x with
  | S754_zero s | S754_infinity s | S754_finite s _ _ => s = false
  | S754_nan => True
  end.

(** Two matrices with the same entries. *)
Definition same_entries (a b : Np.matrix) : Prop := Forall2 (Forall2 Qeq) a b.

(** The sum of the squares of the first [size] components of a row. *)
Definition energy (size : nat) (r : Np.vector) : Q :=
  fold_right Qplus 0%Q (map (fun j => (nth j r 0 * nth j r 0)%Q) (seq 0 size)).

(** The side information [get_symbol_info] gives for a demodulated signal
    repeats what the modulator reported for the groups of bits it sent:
    the constellation points, the Gray symbols, and the value or the text
    of every group. *)
Definition side_info (r : Modulador.modulation_result) (groups : list (list N))
           (i : Demodulador.symbol_info) : Prop :=
  match i with
  | Demodulador.FSK8Info frequencies binary_symbols gray_symbols =>
      Modulador.symbol_values r = map Modulador.Frequency frequencies /\
      Modulador.gray_symbols r = Some (map N.of_nat gray_symbols) /\
      mapM Modulador.decimal_value groups = Ok binary_symbols
  | Demodulador.QAM16Info iq_values bit_strings detected_symbols =>
      Modulador.symbol_values r
      = map (fun iq => Modulador.Amplitudes (fst iq) (snd iq)) iq_values /\
      bit_strings = map (fun g => Py.join (map Py.str g)) groups
  | Demodulador.PSK8Info phases binary_symbols gray_symbols =>
      Modulador.symbol_values r = map Modulador.Phase phases /\
      Modulador.gray_symbols r = Some (map N.of_nat gray_symbols) /\
      mapM Modulador.decimal_value groups = Ok (map N.of_nat binary_symbols)
  end.

(** A code of [n] binary digits, one line of [1-senal_codificada.txt]. *)
Definition code (n : nat) (c : string) : Prop :=
  String.length c = n /\
  forallb Py.is_binary_digit (list_ascii_of_string c) = true.

(** Two points of the 16QAM grid next to each other on a row or on a
    column. *)
Definition neighbours (p q : Z * Z) : Prop :=
  (fst p = fst q /\ Z.abs (snd p - snd q) = 2)%Z \/
  (snd p = snd q /\ Z.abs (fst p - fst q) = 2)%Z.

End Spec.


(** * Properties *)

(** ** The exception monad *)

Lemma bind_ok {A B : Type} (c : result A) (k : A -> result B) (b : B) :
  bind c k = Ok b -> exists a, c = Ok a /\ k a = Ok b.
Proof.
  destruct c as [a|e]; simpl; intros H; [exists a; auto | discriminate].
Qed.

Lemma mapM_map {A B : Type} (f : A -> result B) (g : A -> B) (l : list A) :
  Forall (fun a => f a = Ok (g a)) l -> mapM f l = Ok (map g l).
Proof.
  induction 1 as [|a t Ha _ IH]; simpl; [reflexivity|].
  now rewrite Ha, IH.
Qed.

Lemma mapM_length {A B : Type} (f : A -> result B) (l : list A) (bs : list B) :
  mapM f l = Ok bs -> List.length bs = List.length l.
Proof.
  revert bs; induction l as [|a t IH]; simpl; intros bs H.
  - now inversion H.
  - destruct (f a) as [b|]; simpl in H; [|discriminate].
    destruct (mapM f t) as [bs'|]; simpl in H; [|discriminate].
    inversion H; subst; simpl. now rewrite (IH bs').
Qed.

Lemma mapM_Forall {A B : Type} (f : A -> result B) (P : B -> Prop) (l : list A) :
  Forall (fun a => exists b, f a = Ok b /\ P b) l ->
  exists bs, mapM f l = Ok bs /\ Forall P bs.
Proof.
  induction 1 as [|a t (b & Hb & Pb) _ (bs & Hbs & Pbs)]; simpl.
  - exists []; auto.
  - exists (b :: bs). rewrite Hb, Hbs. auto.
Qed.

(** ** Framing *)

Lemma length_mod_padded (L B : nat) :
  B <> 0 -> L mod B <> 0 -> (L + (B - L mod B)) mod B = 0.
Proof.
  intros HB Hr.
  pose proof (Nat.mod_upper_bound L B HB) as Hlt.
  pose proof (Nat.div_mod_eq L B) as Hdm.
  replace (L + (B - L mod B)) with ((L / B + 1) * B) by nia.
  apply Nat.Div0.mod_mul.
Qed.

Lemma apply_padding_spec (B : nat) (bits : list N) :
  B <> 0 ->
  exists p,
    Modulador.apply_padding B bits = Ok (bits ++ repeat 0%N p, p) /\
    p = (if List.length bits mod B =? 0 then 0 else B - List.length bits mod B) /\
    List.length (bits ++ repeat 0%N p) mod B = 0 /\
    p < B.
Proof.
  intros HB0.
  unfold Modulador.apply_padding.
  destruct (B =? 0) eqn:E0; [apply Nat.eqb_eq in E0; lia|].
  pose proof (Nat.mod_upper_bound (List.length bits) B HB0) as Hlt.
  destruct (List.length bits mod B =? 0) eqn:Er; simpl.
  - apply Nat.eqb_eq in Er.
    exists 0. simpl. rewrite app_nil_r. repeat split; try lia.
  - apply Nat.eqb_neq in Er.
    exists (B - List.length bits mod B).
    repeat split; try lia.
    rewrite length_app, repeat_length.
    now apply length_mod_padded.
Qed.

(** C4. For a bit list of length L and B bits per symbol, B being 3 or 4,
    [apply_padding] appends B - (L mod B) zero bits when L mod B is not 0 and
    nothing otherwise; the padded list has a length divisible by B and the
    padding count p satisfies 0 <= p < B. *)
Theorem apply_padding_postcondition (B : nat) (bits : list N) :
  B = 3 \/ B = 4 ->
  exists padded p,
    Modulador.apply_padding B bits = Ok (padded, p) /\
    p = (if List.length bits mod B =? 0 then 0 else B - List.length bits mod B) /\
    padded = bits ++ repeat 0%N p /\
    List.length padded mod B = 0 /\
    0 <= p < B.
Proof.
  intros HB.
  destruct (apply_padding_spec B bits) as (p & Hp & Hpv & Hmod & Hlt); [lia|].
  exists (bits ++ repeat 0%N p), p.
  repeat split; auto; lia.
Qed.

Lemma apply_padding_postcondition_witness :
  exists padded p,
    Modulador.apply_padding 3 [1; 0; 1; 1]%N = Ok (padded, p) /\
    p = 2 /\
    padded = [1; 0; 1; 1; 0; 0]%N /\
    List.length padded mod 3 = 0 /\
    0 <= p < 3.
Proof.
  destruct (apply_padding_postcondition 3 [1; 0; 1; 1]%N (or_introl eq_refl))
    as (padded & p & H1 & H2 & H3 & H4 & H5).
  exists padded, p. simpl in H2. subst p. simpl in H3. subst padded.
  repeat split; auto.
Defined.

Ltac bit_cases :=
  repeat match goal with
         | H : Spec.bitstream (_ :: _) |- _ => inversion H; clear H; subst
         | H : Forall Spec.is_bit (_ :: _) |- _ => inversion H; clear H; subst
         | H : Spec.is_bit _ |- _ => destruct H; subst
         end.

Ltac pattern_cases g H :=
  let Hlen := fresh "Hlen" in
  let Hbits := fresh "Hbits" in
  destruct H as [Hlen Hbits];
  do 5 (try (destruct g as [|? g]; try discriminate Hlen));
  bit_cases.

(** ** The symbol alphabets *)

Ltac index_cases i H :=
  repeat (destruct i as [|i]; [clear H|apply PeanoNat.lt_S_n in H]);
  [..|exfalso; inversion H].

Lemma pattern_intro (s : Spec.scheme) (g : list N) :
  List.length g = Spec.bitsPerSymbol s ->
  forallb (fun b => N.eqb b 0 || N.eqb b 1)%bool g = true ->
  Spec.pattern s g.
Proof.
  intros Hlen Hb. split; [exact Hlen|].
  apply Forall_forall. intros b Hin.
  rewrite forallb_forall in Hb. specialize (Hb b Hin).
  apply orb_true_iff in Hb. destruct Hb as [Hb|Hb]; apply N.eqb_eq in Hb.
  - now left.
  - now right.
Qed.

Lemma index_to_bits_to_index (s : Spec.scheme) (i : nat) :
  i < Spec.constellationSize s ->
  exists g, Spec.indexToBits s i = Ok g /\ Spec.pattern s g /\
            Spec.bitsToIndex s g = Ok i.
Proof.
  intros Hi. destruct s; unfold Spec.constellationSize in Hi; simpl in Hi;
    index_cases i Hi;
    (eexists; split; [vm_compute; reflexivity|];
     split; [apply pattern_intro; reflexivity | vm_compute; reflexivity]).
Qed.

Lemma bits_to_index_to_bits (s : Spec.scheme) (g : list N) :
  Spec.pattern s g ->
  exists i, Spec.bitsToIndex s g = Ok i /\ i < Spec.constellationSize s /\
            Spec.indexToBits s i = Ok g.
Proof.
  intros Hg. destruct s; pattern_cases g Hg;
    (eexists; split; [vm_compute; reflexivity|];
     split; [vm_compute; repeat constructor | vm_compute; reflexivity]).
Qed.

Lemma gray_inverse_below_8 (n : N) :
  (n < 8)%N ->
  Demodulador.gray_to_binary (Modulador.binary_to_gray n) = n /\
  Modulador.binary_to_gray (Demodulador.gray_to_binary n) = n.
Proof.
  intros Hn.
  assert (H : (n = 0 \/ n = 1 \/ n = 2 \/ n = 3 \/ n = 4 \/ n = 5 \/ n = 6 \/ n = 7)%N)
    by lia.
  repeat (destruct H as [H|H]; [subst n; split; reflexivity|]).
  subst n; split; reflexivity.
Qed.

Lemma psk8_gray_map_inverse :
  (forall k, k < 8 ->
     exists g, Py.index Modulador.gray_map k = Ok g /\ (g < 8)%N /\
               Py.get N.eqb Demodulador.inverse_gray_map g = Ok k) /\
  (forall g, (g < 8)%N ->
     exists k, Py.get N.eqb Demodulador.inverse_gray_map g = Ok k /\ k < 8 /\
               Py.index Modulador.gray_map k = Ok g).
Proof.
  split.
  - intros k Hk. index_cases k Hk;
      (eexists; split; [reflexivity|]; split; [reflexivity|reflexivity]).
  - intros g Hg.
    assert (H : (g = 0 \/ g = 1 \/ g = 2 \/ g = 3 \/ g = 4 \/ g = 5 \/ g = 6 \/ g = 7)%N)
      by lia.
    repeat (destruct H as [H|H];
            [subst g; eexists; split; [reflexivity|];
             split; [repeat constructor|reflexivity]|]).
    subst g; eexists; split; [reflexivity|]; split; [repeat constructor|reflexivity].
Qed.

(** C3. For every scheme the bits-to-index map of the modulator and the
    index-to-bits map of the demodulator are mutually inverse over the whole
    index range.  For 8FSK, [gray_to_binary (binary_to_gray n) = n] and
    [binary_to_gray (gray_to_binary g) = g] for n, g in 0..7; for 8PSK the
    table [gray_map] = 0,1,3,2,6,7,5,4 and [inverse_gray_map] are mutually
    inverse permutations of 0..7. *)
Theorem bijection_property :
  (forall s i,
      i < Spec.constellationSize s ->
      exists g, Spec.indexToBits s i = Ok g /\ Spec.pattern s g /\
                Spec.bitsToIndex s g = Ok i) /\
  (forall s g,
      Spec.pattern s g ->
      exists i, Spec.bitsToIndex s g = Ok i /\ i < Spec.constellationSize s /\
                Spec.indexToBits s i = Ok g) /\
  (forall n, (n < 8)%N ->
      Demodulador.gray_to_binary (Modulador.binary_to_gray n) = n /\
      Modulador.binary_to_gray (Demodulador.gray_to_binary n) = n) /\
  Modulador.gray_map = [0; 1; 3; 2; 6; 7; 5; 4]%N /\
  Demodulador.gray_map = Modulador.gray_map /\
  (forall k, k < 8 ->
     exists g, Py.index Modulador.gray_map k = Ok g /\ (g < 8)%N /\
               Py.get N.eqb Demodulador.inverse_gray_map g = Ok k) /\
  (forall g, (g < 8)%N ->
     exists k, Py.get N.eqb Demodulador.inverse_gray_map g = Ok k /\ k < 8 /\
               Py.index Modulador.gray_map k = Ok g).
Proof.
  split; [exact index_to_bits_to_index|].
  split; [exact bits_to_index_to_bits|].
  split; [exact gray_inverse_below_8|].
  split; [reflexivity|].
  split; [reflexivity|].
  exact psk8_gray_map_inverse.
Qed.

Lemma bijection_property_witness :
  (exists g, Spec.indexToBits Spec.FSK8 7 = Ok g /\ Spec.bitsToIndex Spec.FSK8 g = Ok 7) /\
  (exists i, Spec.bitsToIndex Spec.QAM16 [0; 1; 0; 0]%N = Ok i /\
             Spec.indexToBits Spec.QAM16 i = Ok [0; 1; 0; 0]%N) /\
  Demodulador.gray_to_binary (Modulador.binary_to_gray 5) = 5%N /\
  (exists g, Py.index Modulador.gray_map 2 = Ok g /\
             Py.get N.eqb Demodulador.inverse_gray_map g = Ok 2) /\
  (exists k, Py.get N.eqb Demodulador.inverse_gray_map 6%N = Ok k /\
             Py.index Modulador.gray_map k = Ok 6%N).
Proof.
  destruct bijection_property as (H1 & H2 & H3 & _ & _ & H4 & H5).
  split.
  { destruct (H1 Spec.FSK8 7) as (g & Hg & _ & Hi).
    - unfold Spec.constellationSize; simpl; lia.
    - exists g; auto. }
  split.
  { destruct (H2 Spec.QAM16 [0; 1; 0; 0]%N) as (i & Hi & _ & Hg).
    - apply pattern_intro; reflexivity.
    - exists i; auto. }
  split.
  { apply (H3 5%N). reflexivity. }
  split.
  { destruct (H4 2) as (g & Hg & _ & Hk); [lia|]. exists g; auto. }
  destruct (H5 6%N) as (k & Hk & _ & Hg); [reflexivity|]. exists k; auto.
Defined.

(** ** The minimum-distance detector *)

Lemma fold_left_Qplus (l : list Q) (a : Q) :
  (fold_left Qplus l a == a + fold_right Qplus 0 l)%Q.
Proof.
  revert a; induction l as [|x t IH]; intros a; simpl.
  - now rewrite Qplus_0_r.
  - rewrite IH. now rewrite Qplus_assoc.
Qed.

Lemma sum_fold_right (l : list Q) : (Np.sum l == fold_right Qplus 0 l)%Q.
Proof.
  unfold Np.sum. rewrite fold_left_Qplus. apply Qplus_0_l.
Qed.

Lemma map_seq_const {A : Type} (c : A) (f : nat -> A) (a n : nat) :
  (forall j, a <= j < a + n -> f j = c) -> map f (seq a n) = repeat c n.
Proof.
  revert a; induction n as [|n IH]; intros a H; simpl; [reflexivity|].
  rewrite H by lia. f_equal. apply IH. intros j Hj. apply H. lia.
Qed.

Lemma s_repeat (size i : nat) (A : Q) :
  i < size ->
  Spec.s_ size i A = repeat 0%Q i ++ A :: repeat 0%Q (size - S i).
Proof.
  intros Hi. unfold Spec.s_.
  replace size with (i + S (size - S i)) at 1 by lia.
  rewrite seq_app, map_app. simpl. f_equal.
  - apply map_seq_const. intros j Hj.
    destruct (Nat.eqb_spec j i); [lia|reflexivity].
  - rewrite Nat.eqb_refl. f_equal.
    apply map_seq_const. intros j Hj.
    destruct (Nat.eqb_spec j i); [lia|reflexivity].
Qed.

Lemma firstn_repeat_le {A : Type} (c : A) (i n : nat) :
  i <= n -> firstn i (repeat c n) = repeat c i.
Proof.
  revert n; induction i as [|i IH]; intros n H; [reflexivity|].
  destruct n as [|n]; [lia|]. simpl. f_equal. apply IH. lia.
Qed.

Lemma skipn_repeat_le {A : Type} (c : A) (i n : nat) :
  skipn i (repeat c n) = repeat c (n - i).
Proof.
  revert n; induction i as [|i IH]; intros n; simpl.
  - now rewrite Nat.sub_0_r.
  - destruct n as [|n]; [reflexivity|]. simpl. apply IH.
Qed.

(** The vector the detector builds for candidate [i] is the ideal one-hot
    vector of the specification. *)
Lemma set_item_zeros (size i : nat) (A : Q) :
  i < size -> Np.set_item (Np.zeros size) i A = Ok (Spec.s_ size i A).
Proof.
  intros Hi. unfold Np.set_item, Np.zeros.
  rewrite repeat_length.
  destruct (Nat.ltb_spec i size) as [_|]; [|lia].
  rewrite s_repeat by exact Hi.
  rewrite firstn_repeat_le by lia. now rewrite skipn_repeat_le.
Qed.

Lemma s_length (size i : nat) (A : Q) : List.length (Spec.s_ size i A) = size.
Proof. unfold Spec.s_. now rewrite length_map, length_seq. Qed.

Lemma combine_as_seq (f : Q -> Q -> Q) (a b : list Q) :
  List.length a = List.length b ->
  map (fun p => f (fst p) (snd p)) (combine a b)
  = map (fun j => f (nth j a 0%Q) (nth j b 0%Q)) (seq 0 (List.length a)).
Proof.
  revert b; induction a as [|x a IH]; intros [|y b] H; simpl in *;
    try discriminate; [reflexivity|].
  f_equal. rewrite IH by lia. rewrite <- seq_shift, map_map. reflexivity.
Qed.

Lemma distance_spec (size : nat) (A : Q) (r : Np.vector) (i : nat) :
  List.length r = size -> i < size ->
  exists q, Demodulador.distance size A r i = Ok q /\ (q == Spec.d_ size r A i)%Q.
Proof.
  intros Hr Hi. unfold Demodulador.distance.
  rewrite set_item_zeros by exact Hi. simpl.
  unfold Np.sub. rewrite s_length, Hr, Nat.eqb_refl. simpl.
  eexists; split; [reflexivity|].
  rewrite sum_fold_right. unfold Np.square, Spec.d_.
  rewrite (combine_as_seq Qminus) by now rewrite s_length.
  rewrite map_map, Hr. reflexivity.
Qed.

(** [np.argmin] returns a position of the least value, and the first one. *)
Lemma argmin_from_spec (t pre : list Q) (best : nat) (least : Q) :
  best < List.length pre ->
  nth best pre 0%Q = least ->
  (forall j, j < List.length pre -> (least <= nth j pre 0)%Q) ->
  (forall j, j < best -> (least < nth j pre 0)%Q) ->
  let k := Np.argmin_from best least (List.length pre) t in
  k < List.length (pre ++ t) /\
  (forall j, j < List.length (pre ++ t) ->
             (nth k (pre ++ t) 0 <= nth j (pre ++ t) 0)%Q) /\
  (forall j, j < k -> (nth k (pre ++ t) 0 < nth j (pre ++ t) 0)%Q).
Proof.
  revert pre best least.
  induction t as [|x t IH]; intros pre best least Hb Hn Hle Hlt; simpl.
  - rewrite app_nil_r. rewrite Hn. auto.
  - assert (Hlen : List.length (pre ++ [x]) = S (List.length pre))
      by (rewrite length_app; simpl; lia).
    assert (Hx : nth (List.length pre) (pre ++ [x]) 0%Q = x)
      by (rewrite app_nth2, Nat.sub_diag by lia; reflexivity).
    replace (pre ++ x :: t) with ((pre ++ [x]) ++ t)
      by (rewrite <- app_assoc; reflexivity).
    rewrite <- Hlen.
    destruct (Qle_bool least x) eqn:E.
    + apply Qle_bool_iff in E.
      apply IH.
      * lia.
      * rewrite app_nth1 by lia. exact Hn.
      * intros j Hj. rewrite Hlen in Hj.
        destruct (Nat.eq_dec j (List.length pre)) as [->|Hne].
        -- now rewrite Hx.
        -- rewrite app_nth1 by lia. apply Hle. lia.
      * intros j Hj. rewrite app_nth1 by lia. now apply Hlt.
    + assert (Hxl : (x < least)%Q).
      { apply Qnot_le_lt. intros Hc. apply Qle_bool_iff in Hc. congruence. }
      apply IH.
      * lia.
      * exact Hx.
      * intros j Hj. rewrite Hlen in Hj.
        destruct (Nat.eq_dec j (List.length pre)) as [->|Hne].
        -- rewrite Hx. apply Qle_refl.
        -- rewrite app_nth1 by lia. apply Qlt_le_weak.
           apply Qlt_le_trans with least; [exact Hxl|]. apply Hle. lia.
      * intros j Hj. rewrite app_nth1 by lia.
        apply Qlt_le_trans with least; [exact Hxl|]. apply Hle. lia.
Qed.

Lemma argmin_spec (l : list Q) :
  l <> [] ->
  exists k,
    Np.argmin l = Ok k /\ k < List.length l /\
    (forall j, j < List.length l -> (nth k l 0 <= nth j l 0)%Q) /\
    (forall j, j < k -> (nth k l 0 < nth j l 0)%Q).
Proof.
  destruct l as [|x t]; [congruence|]. intros _.
  eexists. split; [reflexivity|].
  apply (argmin_from_spec t [x] 0 x); simpl.
  - lia.
  - reflexivity.
  - intros j Hj. assert (j = 0) as -> by lia. apply Qle_refl.
  - intros j Hj. lia.
Qed.

Lemma mapM_seq_nth {B : Type} (f : nat -> result B) (P : nat -> B -> Prop)
      (d : B) (a n : nat) :
  (forall i, a <= i < a + n -> exists b, f i = Ok b /\ P i b) ->
  exists bs, mapM f (seq a n) = Ok bs /\ List.length bs = n /\
             forall i, i < n -> P (a + i) (nth i bs d).
Proof.
  revert a; induction n as [|n IH]; intros a H; simpl.
  - exists []. repeat split; auto. intros i Hi. lia.
  - destruct (H a) as (b & Hb & Pb); [lia|].
    destruct (IH (S a)) as (bs & Hbs & Hlen & Pbs).
    { intros i Hi. apply H. lia. }
    exists (b :: bs). rewrite Hb, Hbs. simpl.
    repeat split; [lia|].
    intros [|i] Hi; simpl.
    + now rewrite Nat.add_0_r.
    + replace (a + S i) with (S a + i) by lia. apply Pbs. lia.
Qed.

(** For a row of the width of the constellation the detector computes the
    distances [d_i] of the specification. *)
Lemma distances_spec (size : nat) (A : Q) (r : Np.vector) :
  List.length r = size ->
  exists ds,
    Demodulador.distances size A r = Ok ds /\ List.length ds = size /\
    forall i, i < size -> (nth i ds 0 == Spec.d_ size r A i)%Q.
Proof.
  intros Hr. unfold Demodulador.distances.
  apply (mapM_seq_nth (Demodulador.distance size A r)
                      (fun i q => (q == Spec.d_ size r A i)%Q) 0%Q 0 size).
  intros i Hi. apply distance_spec; [exact Hr|lia].
Qed.

Lemma detect_spec (size : nat) (A : Q) (r : Np.vector) :
  0 < size -> List.length r = size ->
  exists k,
    Demodulador.detect size A r = Ok k /\ k < size /\
    (forall i, i < size -> (Spec.d_ size r A k <= Spec.d_ size r A i)%Q) /\
    (forall i, i < k -> (Spec.d_ size r A k < Spec.d_ size r A i)%Q).
Proof.
  intros Hs Hr.
  destruct (distances_spec size A r Hr) as (ds & Hds & Hlen & Hd).
  destruct (argmin_spec ds) as (k & Hk & Hkl & Hmin & Hfirst).
  { intros ->. simpl in Hlen. lia. }
  exists k. unfold Demodulador.detect. rewrite Hds. simpl.
  rewrite Hlen in Hkl, Hmin.
  split; [exact Hk|]. split; [exact Hkl|]. split.
  - intros i Hi. rewrite <- (Hd k Hkl), <- (Hd i Hi). now apply Hmin.
  - intros i Hi. rewrite <- (Hd k Hkl), <- (Hd i) by lia. now apply Hfirst.
Qed.

Lemma scheme_size_pos (s : Spec.scheme) : 0 < Spec.constellationSize s.
Proof. destruct s; unfold Spec.constellationSize; simpl; lia. Qed.

Lemma demodulate_bayes_scheme (s : Spec.scheme) :
  Demodulador.demodulate_bayes (Spec.demodulator s)
  = Demodulador.demodulate_bayes_of (Spec.constellationSize s).
Proof. destruct s; reflexivity. Qed.

(** *** The detector on binary64 numbers *)

Lemma nth_map_seq {A : Type} (f : nat -> A) (d : A) (n i : nat) :
  i < n -> nth i (map f (seq 0 n)) d = f i.
Proof.
  intros Hi.
  rewrite (nth_indep _ d (f 0)) by (rewrite length_map, length_seq; exact Hi).
  rewrite map_nth, seq_nth by exact Hi. reflexivity.
Qed.

(** The comparisons of binary64 numbers, read on their keys. *)
Lemma SFcompare_key (x y : spec_float) :
  SFcompare x y
  = match FloatOrder.key x, FloatOrder.key y with
    | Some a, Some b => Some (FloatOrder.compare3 a b)
    | _, _ => None
    end.
Proof.
  destruct x as [sx|sx| |sx mx ex], y as [sy|sy| |sy my ey];
    try destruct sx; try destruct sy; try reflexivity;
    cbn [SFcompare FloatOrder.key FloatOrder.compare3 Z.compare].
  rewrite Z.compare_opp, (Z.compare_antisym ex ey).
  destruct (ex ?= ey)%Z; reflexivity.
Qed.

Lemma compare3_cases (a b : Z * Z * Z) :
  let '(a1, a2, a3) := a in
  let '(b1, b2, b3) := b in
  match FloatOrder.compare3 a b with
  | Lt => (a1 < b1 \/ (a1 = b1 /\ (a2 < b2 \/ (a2 = b2 /\ a3 < b3))))%Z
  | Eq => (a1 = b1 /\ a2 = b2 /\ a3 = b3)%Z
  | Gt => (b1 < a1 \/ (a1 = b1 /\ (b2 < a2 \/ (a2 = b2 /\ b3 < a3))))%Z
  end.
Proof.
  destruct a as [[a1 a2] a3], b as [[b1 b2] b3]. unfold FloatOrder.compare3.
  destruct (Z.compare_spec a1 b1); [|lia|lia].
  destruct (Z.compare_spec a2 b2); [|lia|lia].
  destruct (Z.compare_spec a3 b3); lia.
Qed.

Lemma nan_key (x : float) :
  is_nan x = true <-> FloatOrder.key (Prim2SF x) = None.
Proof.
  unfold is_nan. rewrite eqb_spec. unfold SFeqb. rewrite SFcompare_key.
  destruct (FloatOrder.key (Prim2SF x)) as [a|]; [|split; reflexivity].
  pose proof (compare3_cases a a) as H. destruct a as [[a1 a2] a3].
  destruct (FloatOrder.compare3 (a1, a2, a3) (a1, a2, a3));
    split; intros H'; try discriminate; lia.
Qed.

Ltac float_order :=
  rewrite ?ltb_spec, ?leb_spec in *; unfold SFltb, SFleb in *;
  rewrite ?SFcompare_key in *.

Lemma ltb_nan_r (x y : float) : is_nan y = true -> (x <? y)%float = false.
Proof.
  intros H. apply nan_key in H. float_order. rewrite H.
  now destruct (FloatOrder.key (Prim2SF x)).
Qed.

Lemma leb_nan_r (x y : float) : is_nan y = true -> (x <=? y)%float = false.
Proof.
  intros H. apply nan_key in H. float_order. rewrite H.
  now destruct (FloatOrder.key (Prim2SF x)).
Qed.

Lemma ltb_irrefl (x : float) : (x <? x)%float = false.
Proof.
  float_order. destruct (FloatOrder.key (Prim2SF x)) as [a|]; [|reflexivity].
  pose proof (compare3_cases a a) as H. destruct a as [[a1 a2] a3].
  destruct (FloatOrder.compare3 _ _); try reflexivity; lia.
Qed.

Lemma leb_not_ltb (l x : float) :
  (l <=? x)%float = true -> (x <? l)%float = false.
Proof.
  float_order.
  destruct (FloatOrder.key (Prim2SF l)) as [a|],
           (FloatOrder.key (Prim2SF x)) as [b|]; try discriminate.
  pose proof (compare3_cases a b) as H1. pose proof (compare3_cases b a) as H2.
  destruct a as [[a1 a2] a3], b as [[b1 b2] b3].
  destruct (FloatOrder.compare3 (a1, a2, a3) (b1, b2, b3)),
    (FloatOrder.compare3 (b1, b2, b3) (a1, a2, a3));
    intros H; try discriminate; try reflexivity; lia.
Qed.

(** Two numbers that are not nan are comparable. *)
Lemma not_ltb_leb (a b : float) :
  is_nan a = false -> is_nan b = false ->
  (a <? b)%float = false -> (b <=? a)%float = true.
Proof.
  intros Ha Hb.
  assert (Hka : FloatOrder.key (Prim2SF a) <> None)
    by (intros Hk; apply nan_key in Hk; congruence).
  assert (Hkb : FloatOrder.key (Prim2SF b) <> None)
    by (intros Hk; apply nan_key in Hk; congruence).
  float_order.
  destruct (FloatOrder.key (Prim2SF a)) as [ka|]; [|congruence].
  destruct (FloatOrder.key (Prim2SF b)) as [kb|]; [|congruence].
  pose proof (compare3_cases ka kb) as H1. pose proof (compare3_cases kb ka) as H2.
  destruct ka as [[a1 a2] a3], kb as [[b1 b2] b3].
  destruct (FloatOrder.compare3 (a1, a2, a3) (b1, b2, b3)),
    (FloatOrder.compare3 (b1, b2, b3) (a1, a2, a3));
    intros H; try discriminate; try reflexivity; lia.
Qed.

(** When [x] replaces the least [l] of the scan, whatever is at or below [x]
    is below [l]. *)
Lemma below_new_least (l x a : float) :
  is_nan l = false -> (l <=? x)%float = false ->
  ((a <? x)%float = true \/ (a <=? x)%float = true) ->
  (a <? l)%float = true.
Proof.
  intros Hl Hlx Ha.
  assert (Hk : FloatOrder.key (Prim2SF l) <> None)
    by (intros Hk; apply nan_key in Hk; congruence).
  float_order.
  destruct (FloatOrder.key (Prim2SF l)) as [kl|]; [|congruence].
  destruct (FloatOrder.key (Prim2SF x)) as [kx|];
    [|destruct (FloatOrder.key (Prim2SF a)); destruct Ha; discriminate].
  destruct (FloatOrder.key (Prim2SF a)) as [ka|]; [|destruct Ha; discriminate].
  pose proof (compare3_cases kl kx) as H1.
  pose proof (compare3_cases ka kx) as H2.
  pose proof (compare3_cases ka kl) as H3.
  destruct kl as [[l1 l2] l3], kx as [[x1 x2] x3], ka as [[a1 a2] a3].
  destruct (FloatOrder.compare3 (l1, l2, l3) (x1, x2, x3)); try discriminate;
    destruct (FloatOrder.compare3 (a1, a2, a3) (x1, x2, x3));
    destruct (FloatOrder.compare3 (a1, a2, a3) (l1, l2, l3));
    try reflexivity; destruct Ha; try discriminate; lia.
Qed.

(** The scan of [np.argmin] on binary64 numbers: no item is below the one it
    answers, and no item before it is at or below it. *)
Lemma fargmin_from_spec (t pre : Np.fvector) (best : nat) (least : float) :
  best < List.length pre ->
  nth best pre zero = least ->
  (forall j, j < List.length pre -> (nth j pre zero <? least)%float = false) ->
  (forall j, j < best -> (nth j pre zero <=? least)%float = false) ->
  let k := Np.fargmin_from best least (List.length pre) t in
  k < List.length (pre ++ t) /\
  (forall j, j < List.length (pre ++ t) ->
             (nth j (pre ++ t) zero <? nth k (pre ++ t) zero)%float = false) /\
  (forall j, j < k ->
             (nth j (pre ++ t) zero <=? nth k (pre ++ t) zero)%float = false).
Proof.
  revert pre best least.
  induction t as [|x t IH]; intros pre best least Hb Hn Hlt Hle;
    cbn [Np.fargmin_from].
  - rewrite app_nil_r, Hn. auto.
  - assert (Hlen : List.length (pre ++ [x]) = S (List.length pre))
      by (rewrite length_app; simpl; lia).
    assert (Hx : nth (List.length pre) (pre ++ [x]) zero = x)
      by (rewrite app_nth2, Nat.sub_diag by lia; reflexivity).
    destruct (is_nan least) eqn:Enan.
    + cbv zeta. rewrite (app_nth1 pre (x :: t) zero Hb), Hn.
      split; [rewrite length_app; lia|]. split.
      * intros j _. now apply ltb_nan_r.
      * intros j _. now apply leb_nan_r.
    + replace (pre ++ x :: t) with ((pre ++ [x]) ++ t)
        by (rewrite <- app_assoc; reflexivity).
      rewrite <- Hlen.
      destruct (least <=? x)%float eqn:E.
      * apply IH.
        -- lia.
        -- rewrite app_nth1 by lia. exact Hn.
        -- intros j Hj. rewrite Hlen in Hj.
           destruct (Nat.eq_dec j (List.length pre)) as [->|Hne].
           ++ rewrite Hx. now apply leb_not_ltb.
           ++ rewrite app_nth1 by lia. apply Hlt. lia.
        -- intros j Hj. rewrite app_nth1 by lia. now apply Hle.
      * apply IH.
        -- lia.
        -- exact Hx.
        -- intros j Hj. rewrite Hlen in Hj.
           destruct (Nat.eq_dec j (List.length pre)) as [->|Hne].
           ++ rewrite Hx. apply ltb_irrefl.
           ++ rewrite app_nth1 by lia.
              destruct (nth j pre zero <? x)%float eqn:Ej; [|reflexivity].
              pose proof (below_new_least least x _ Enan E (or_introl Ej)) as Hc.
              rewrite (Hlt j ltac:(lia)) in Hc. discriminate Hc.
        -- intros j Hj. rewrite app_nth1 by lia.
           destruct (nth j pre zero <=? x)%float eqn:Ej; [|reflexivity].
           pose proof (below_new_least least x _ Enan E (or_intror Ej)) as Hc.
           rewrite (Hlt j Hj) in Hc. discriminate Hc.
Qed.

Lemma fargmin_spec (l : Np.fvector) :
  l <> [] ->
  exists k,
    Np.fargmin l = Ok k /\ k < List.length l /\
    (forall j, j < List.length l ->
               (nth j l zero <? nth k l zero)%float = false) /\
    (forall j, j < k -> (nth j l zero <=? nth k l zero)%float = false).
Proof.
  destruct l as [|x t]; [congruence|]. intros _.
  eexists. split; [reflexivity|].
  apply (fargmin_from_spec t [x] 0 x); simpl.
  - lia.
  - reflexivity.
  - intros j Hj. assert (j = 0) as -> by lia. apply ltb_irrefl.
  - intros j Hj. lia.
Qed.

Lemma s64_length (size i : nat) (A : float) :
  List.length (Spec.s64 size i A) = size.
Proof. unfold Spec.s64. now rewrite length_map, length_seq. Qed.

Lemma s64_repeat (size i : nat) (A : float) :
  i < size ->
  Spec.s64 size i A = repeat zero i ++ A :: repeat zero (size - S i).
Proof.
  intros Hi. unfold Spec.s64.
  replace size with (i + S (size - S i)) at 1 by lia.
  rewrite seq_app, map_app. simpl. f_equal.
  - apply map_seq_const. intros j Hj.
    destruct (Nat.eqb_spec j i); [lia|reflexivity].
  - rewrite Nat.eqb_refl. f_equal.
    apply map_seq_const. intros j Hj.
    destruct (Nat.eqb_spec j i); [lia|reflexivity].
Qed.

Lemma fset_item_zeros (size i : nat) (A : float) :
  i < size -> Np.fset_item (Np.fzeros size) i A = Ok (Spec.s64 size i A).
Proof.
  intros Hi. unfold Np.fset_item, Np.fzeros.
  rewrite repeat_length.
  destruct (Nat.ltb_spec i size) as [_|]; [|lia].
  rewrite s64_repeat by exact Hi.
  rewrite firstn_repeat_le by lia. now rewrite skipn_repeat_le.
Qed.

Lemma combine_map_seq {T U : Type} (f : T -> T -> U) (d : T) (a b : list T) :
  List.length a = List.length b ->
  map (fun p => f (fst p) (snd p)) (combine a b)
  = map (fun j => f (nth j a d) (nth j b d)) (seq 0 (List.length a)).
Proof.
  revert b; induction a as [|x a IH]; intros [|y b] H; simpl in *;
    try discriminate; [reflexivity|].
  f_equal. rewrite IH by lia. rewrite <- seq_shift, map_map. reflexivity.
Qed.

(** For a row of the width of the constellation the distance to the
    candidate [i] is [np.sum] of the squares [(r_j - s_i_j)^2]. *)
Lemma distance64_spec (np_sum : Np.fvector -> float) (size : nat) (A : float)
      (r : Np.fvector) (i : nat) :
  List.length r = size -> i < size ->
  Demodulador.distance64 np_sum size A r i
  = Ok (np_sum (Spec.squares size r A i)).
Proof.
  intros Hr Hi. unfold Demodulador.distance64.
  rewrite fset_item_zeros by exact Hi. cbn [bind].
  unfold Np.fsub. rewrite s64_length, Hr, Nat.eqb_refl. cbn [bind].
  do 2 f_equal. unfold Np.fsquare, Spec.squares. rewrite map_map.
  pose proof (combine_map_seq
                (fun a b => let x := (a - b)%float in (x * x)%float)
                zero r (Spec.s64 size i A)) as H.
  rewrite s64_length, Hr in H. exact (H eq_refl).
Qed.

Lemma distances64_spec (np_sum : Np.fvector -> float) (size : nat) (A : float)
      (r : Np.fvector) :
  List.length r = size ->
  Demodulador.distances64 np_sum size A r
  = Ok (map (fun i => np_sum (Spec.squares size r A i)) (seq 0 size)).
Proof.
  intros Hr. unfold Demodulador.distances64. apply mapM_map.
  apply Forall_forall. intros i Hi. apply in_seq in Hi.
  apply distance64_spec; [exact Hr|lia].
Qed.

(** Adding from left to right is one of the orders of [np.sum]. *)
Lemma sum_left_summation (v : Np.fvector) : Np.summation v (Spec.sum_left v).
Proof.
  unfold Spec.sum_left.
  assert (H : forall l pre acc,
             Np.summation pre acc ->
             Np.summation (pre ++ l) (fold_left PrimFloat.add l acc)).
  { induction l as [|x l IH]; intros pre acc Hacc; cbn [fold_left].
    - now rewrite app_nil_r.
    - replace (pre ++ x :: l) with ((pre ++ [x]) ++ l)
        by (rewrite <- app_assoc; reflexivity).
      apply IH. apply (Np.sum_add pre [x]); [exact Hacc|constructor|].
      apply Permutation_refl. }
  exact (H v [] zero Np.sum_empty).
Qed.

(** C2. For a received row [r] of the width of the constellation and a
    reference amplitude [A], both binary64 as in the source, the detector
    computes for each candidate [i] the squared Euclidean distance [d_i]:
    a binary64 sum of the squares [(r_j - s_i_j)^2].  It returns an index
    [k] whose distance is minimal, the lowest one among ties: no candidate
    has a distance below [d_k], no candidate before [k] has a distance below
    or equal to [d_k], and [d_k <= d_i] for every [i] when no distance is a
    nan. *)
Theorem minimum_distance_detection (np_sum : Np.fvector -> float)
        (s : Spec.scheme) (r : Np.fvector) (A : float) :
  (forall v, Np.summation v (np_sum v)) ->
  List.length r = Spec.constellationSize s ->
  exists ds k,
    Demodulador.distances64 np_sum (Spec.constellationSize s) A r = Ok ds /\
    List.length ds = Spec.constellationSize s /\
    (forall i, i < Spec.constellationSize s ->
               Np.summation (Spec.squares (Spec.constellationSize s) r A i)
                            (nth i ds zero)) /\
    Demodulador.demodulate_bayes64 np_sum (Spec.constellationSize s) [r] A
    = Ok [k] /\
    k < Spec.constellationSize s /\
    (forall i, i < Spec.constellationSize s ->
               (nth i ds zero <? nth k ds zero)%float = false) /\
    (forall i, i < k -> (nth i ds zero <=? nth k ds zero)%float = false) /\
    ((forall i, i < Spec.constellationSize s -> is_nan (nth i ds zero) = false) ->
     forall i, i < Spec.constellationSize s ->
               (nth k ds zero <=? nth i ds zero)%float = true).
Proof.
  intros Hsum Hr.
  set (size := Spec.constellationSize s) in *.
  set (ds := map (fun i => np_sum (Spec.squares size r A i)) (seq 0 size)).
  assert (Hlen : List.length ds = size)
    by (unfold ds; now rewrite length_map, length_seq).
  destruct (fargmin_spec ds) as (k & Hk & Hkl & Hmin & Hfirst).
  { intros E. rewrite E in Hlen. pose proof (scheme_size_pos s). simpl in Hlen.
    fold size in H. lia. }
  rewrite Hlen in Hkl, Hmin.
  exists ds, k.
  split; [now apply distances64_spec|]. split; [exact Hlen|]. split.
  { intros i Hi. unfold ds. rewrite (nth_map_seq _ zero size i Hi). apply Hsum. }
  split.
  { unfold Demodulador.demodulate_bayes64, Demodulador.detect64. cbn [mapM].
    rewrite (distances64_spec np_sum size A r Hr). fold ds. cbn [bind].
    now rewrite Hk. }
  split; [exact Hkl|]. split; [exact Hmin|]. split; [exact Hfirst|].
  intros Hnan i Hi.
  apply not_ltb_leb; [now apply Hnan|now apply Hnan|now apply Hmin].
Qed.

Lemma minimum_distance_detection_witness :
  exists ds k,
    Demodulador.distances64 Spec.sum_left 8 0.5
                            [0; 0.75; 0; 0.25; 0; 0.75; 0; 0]%float = Ok ds /\
    Demodulador.demodulate_bayes64 Spec.sum_left 8
                                   [[0; 0.75; 0; 0.25; 0; 0.75; 0; 0]%float] 0.5
    = Ok [k] /\
    k = 1.
Proof.
  destruct (minimum_distance_detection Spec.sum_left Spec.FSK8
              [0; 0.75; 0; 0.25; 0; 0.75; 0; 0]%float 0.5%float
              sum_left_summation eq_refl)
    as (ds & k & H1 & _ & _ & H2 & _).
  exists ds, k. split; [exact H1|]. split; [exact H2|].
  vm_compute in H2. now inversion H2.
Defined.

(** ** Totality of the detector *)

Lemma demodulate_bayes_total (size : nat) (m : Np.matrix) (A : Q) :
  0 < size ->
  Forall (fun r => List.length r = size) m ->
  exists syms,
    Demodulador.demodulate_bayes_of size m A = Ok syms /\
    List.length syms = List.length m /\
    Forall (fun i => i < size) syms.
Proof.
  intros Hs Hm.
  destruct (mapM_Forall (Demodulador.detect size A) (fun i => i < size) m)
    as (syms & Hsyms & Hlt).
  { eapply Forall_impl; [|exact Hm]. intros r Hr.
    destruct (detect_spec size A r Hs Hr) as (k & Hk & Hkl & _).
    exists k; auto. }
  exists syms. unfold Demodulador.demodulate_bayes_of.
  split; [exact Hsyms|]. split; [|exact Hlt].
  now apply mapM_length in Hsyms.
Qed.

Lemma symbol_to_bits_total (s : Spec.scheme) (i : nat) :
  i < Spec.constellationSize s ->
  exists bits g,
    Demodulador.symbol_to_bits (Spec.demodulator s) i = Ok bits /\
    List.length bits = Spec.bitsPerSymbol s /\
    mapM Py.int_of_char bits = Ok g /\
    List.length g = Spec.bitsPerSymbol s.
Proof.
  intros Hi. destruct s; unfold Spec.constellationSize in Hi; simpl in Hi;
    index_cases i Hi;
    (eexists; eexists; split; [vm_compute; reflexivity|];
     split; [reflexivity|]; split; [vm_compute; reflexivity|reflexivity]).
Qed.

Lemma symbols_to_bits_total (s : Spec.scheme) (syms : list nat) :
  Forall (fun i => i < Spec.constellationSize s) syms ->
  exists bits,
    Demodulador.symbols_to_bits (Spec.demodulator s) syms = Ok bits /\
    List.length bits = List.length syms * Spec.bitsPerSymbol s.
Proof.
  induction 1 as [|i syms Hi _ (more & Hmore & Hlen)]; simpl.
  - exists []; auto.
  - destruct (symbol_to_bits_total s i Hi) as (bits & g & Hb & _ & Hg & Hgl).
    exists (g ++ more). rewrite Hb. simpl. rewrite Hg. simpl. rewrite Hmore. simpl.
    split; [reflexivity|]. rewrite length_app. lia.
Qed.

Lemma get_symbol_info_total (s : Spec.scheme) (syms : list nat) :
  Forall (fun i => i < Spec.constellationSize s) syms ->
  exists info, Demodulador.get_symbol_info (Spec.demodulator s) syms = Ok info.
Proof.
  intros H. destruct s; unfold Spec.constellationSize in H; simpl in H; simpl.
  - unfold Demodulador.FSK8_get_symbol_info.
    destruct (mapM_Forall (Py.index Demodulador.frequencies) (fun _ => True) syms)
      as (fs & Hfs & _).
    { eapply Forall_impl; [|exact H]. intros i Hi. cbv beta in Hi.
      index_cases i Hi; (eexists; split; [vm_compute; reflexivity|exact I]). }
    rewrite Hfs. simpl. eexists; reflexivity.
  - unfold Demodulador.QAM16_get_symbol_info.
    match goal with
    | |- context [mapM ?f syms] =>
        destruct (mapM_Forall f (fun _ => True) syms) as (rows & Hrows & _)
    end.
    { eapply Forall_impl; [|exact H]. intros i Hi. cbv beta in Hi.
      index_cases i Hi; (eexists; split; [vm_compute; reflexivity|exact I]). }
    rewrite Hrows. simpl. eexists; reflexivity.
  - unfold Demodulador.PSK8_get_symbol_info.
    destruct (mapM_Forall (Py.index (map N.of_nat (seq 0 8))) (fun _ => True) syms)
      as (ps & Hps & _).
    { eapply Forall_impl; [|exact H]. intros i Hi. cbv beta in Hi.
      index_cases i Hi; (eexists; split; [vm_compute; reflexivity|exact I]). }
    rewrite Hps. simpl.
    match goal with
    | |- context [mapM ?f syms] =>
        destruct (mapM_Forall f (fun _ => True) syms) as (bs & Hbs & _)
    end.
    { eapply Forall_impl; [|exact H]. intros i Hi. cbv beta in Hi.
      index_cases i Hi; (eexists; split; [vm_compute; reflexivity|exact I]). }
    rewrite Hbs. simpl. eexists; reflexivity.
Qed.

Lemma demodulators_lookup (s : Spec.scheme) :
  Py.mem String.eqb Demodulador.demodulators
         (Demodulador.name (Spec.demodulator s)) = true /\
  Py.get String.eqb Demodulador.demodulators
         (Demodulador.name (Spec.demodulator s)) = Ok (Spec.demodulator s).
Proof. destruct s; split; reflexivity. Qed.

(** C10. For every scheme and every matrix whose rows have the width of the
    constellation, [demodulate_bayes] returns for each row an index i with
    0 <= i < constellationSize; every [symbol_to_bits] lookup that follows
    succeeds, and the demodulated bits, before the padding is removed, number
    numSymbols * bitsPerSymbol. *)
Theorem detector_totality (s : Spec.scheme) (m : Np.matrix) (A : Q) :
  Forall (fun r => List.length r = Spec.constellationSize s) m ->
  exists syms d,
    Demodulador.demodulate_bayes (Spec.demodulator s) m A = Ok syms /\
    List.length syms = List.length m /\
    Forall (fun i => 0 <= i < Spec.constellationSize s) syms /\
    Forall (fun i => exists bits,
                Demodulador.symbol_to_bits (Spec.demodulator s) i = Ok bits /\
                List.length bits = Spec.bitsPerSymbol s) syms /\
    Demodulador.demodulate_signal m (Demodulador.name (Spec.demodulator s)) A = Ok d /\
    Demodulador.detected_symbols d = syms /\
    List.length (Demodulador.demodulated_bits d)
    = List.length m * Spec.bitsPerSymbol s.
Proof.
  intros Hm.
  destruct (demodulate_bayes_total _ m A (scheme_size_pos s) Hm)
    as (syms & Hsyms & Hlen & Hlt).
  destruct (symbols_to_bits_total s syms Hlt) as (bits & Hbits & Hbl).
  destruct (get_symbol_info_total s syms Hlt) as (info & Hinfo).
  destruct (demodulators_lookup s) as (Hmem & Hget).
  rewrite <- demodulate_bayes_scheme in Hsyms.
  eexists syms, _.
  split; [exact Hsyms|]. split; [exact Hlen|].
  split; [eapply Forall_impl; [|exact Hlt]; intros i Hi; cbv beta in *; lia|].
  split.
  { eapply Forall_impl; [|exact Hlt]. intros i Hi.
    destruct (symbol_to_bits_total s i Hi) as (b & g & Hb & Hbl' & _).
    exists b; auto. }
  unfold Demodulador.demodulate_signal.
  rewrite Hmem, Hget. simpl. rewrite Hsyms. simpl. rewrite Hbits. simpl.
  rewrite Hinfo. simpl.
  split; [reflexivity|]. simpl. split; [reflexivity|].
  rewrite Hbl, Hlen. reflexivity.
Qed.

Lemma detector_totality_witness :
  exists syms d,
    Demodulador.demodulate_bayes Demodulador.QAM16Demodulator
      [repeat (1 # 3)%Q 16; map (fun i => inject_Z (Z.of_nat i)) (seq 0 16)]
      (5 # 2) = Ok syms /\
    Forall (fun i => 0 <= i < 16) syms /\
    Demodulador.demodulate_signal
      [repeat (1 # 3)%Q 16; map (fun i => inject_Z (Z.of_nat i)) (seq 0 16)]
      "16QAM" (5 # 2) = Ok d /\
    List.length (Demodulador.demodulated_bits d) = 2 * 4.
Proof.
  destruct (detector_totality Spec.QAM16
              [repeat (1 # 3)%Q 16; map (fun i => inject_Z (Z.of_nat i)) (seq 0 16)]
              (5 # 2))
    as (syms & d & H1 & _ & H2 & _ & H3 & _ & H4).
  - repeat constructor.
  - exists syms, d. auto.
Defined.

(** ** The noiseless chain *)

Lemma chunks_upto_spec {A : Type} (B n : nat) :
  0 < B ->
  forall (l : list A) (fuel : nat),
    List.length l = n * B -> List.length l <= fuel ->
    Forall (fun g => List.length g = B) (Py.chunks_upto fuel B l) /\
    List.concat (Py.chunks_upto fuel B l) = l.
Proof.
  intros HB. induction n as [|n IH]; intros l fuel Hlen Hfuel.
  - destruct l; [|discriminate]. destruct fuel; simpl; auto.
  - destruct fuel as [|fuel]; [simpl in Hlen; lia|].
    destruct l as [|a l]; [simpl in Hlen; lia|].
    cbn [Py.chunks_upto].
    remember (a :: l) as al eqn:Hal.
    assert (Hsk : List.length (skipn B al) = n * B)
      by (rewrite length_skipn; simpl in Hlen; lia).
    destruct (IH (skipn B al) fuel Hsk) as (Hf & Hc).
    { rewrite Hsk. simpl in Hlen. lia. }
    split.
    + constructor; [|exact Hf].
      rewrite length_firstn. simpl in Hlen. lia.
    + simpl. rewrite Hc. apply firstn_skipn.
Qed.

Lemma Forall_concat_inv {A : Type} (P : A -> Prop) (ls : list (list A)) :
  Forall P (List.concat ls) -> Forall (Forall P) ls.
Proof.
  induction ls as [|l ls IH]; simpl; intros H; [constructor|].
  apply Forall_app in H. destruct H as [H1 H2]. constructor; auto.
Qed.

(** The framed bitstream splits into whole bit patterns. *)
Lemma chunks_patterns (s : Spec.scheme) (bits : list N) :
  Spec.bitstream bits ->
  List.length bits mod Spec.bitsPerSymbol s = 0 ->
  Forall (Spec.pattern s) (Py.chunks (Spec.bitsPerSymbol s) bits) /\
  List.concat (Py.chunks (Spec.bitsPerSymbol s) bits) = bits.
Proof.
  intros Hb Hmod.
  assert (HB : 0 < Spec.bitsPerSymbol s)
    by (destruct s; unfold Spec.bitsPerSymbol; simpl; lia).
  assert (Hlen : List.length bits
                 = (List.length bits / Spec.bitsPerSymbol s) * Spec.bitsPerSymbol s).
  { pose proof (Nat.div_mod_eq (List.length bits) (Spec.bitsPerSymbol s)). lia. }
  destruct (chunks_upto_spec (Spec.bitsPerSymbol s) _ HB bits (List.length bits) Hlen
                             (le_n _)) as (Hf & Hc).
  unfold Py.chunks. split; [|exact Hc].
  rewrite <- Hc in Hb. apply Forall_concat_inv in Hb.
  apply Forall_forall. intros g Hg. split.
  - rewrite Forall_forall in Hf. now apply Hf.
  - rewrite Forall_forall in Hb. now apply Hb.
Qed.

Lemma symbolIndex_ok (s : Spec.scheme) (g : list N) :
  Spec.pattern s g ->
  Spec.bitsToIndex s g = Ok (Spec.symbolIndex s g) /\
  Spec.symbolIndex s g < Spec.constellationSize s /\
  Spec.indexToBits s (Spec.symbolIndex s g) = Ok g.
Proof.
  intros Hg. destruct (bits_to_index_to_bits s g Hg) as (i & Hi & Hlt & Hb).
  unfold Spec.symbolIndex. rewrite Hi. auto.
Qed.

(** What each modulator does with one bit pattern. *)
Lemma fsk8_group (g : list N) :
  Spec.pattern Spec.FSK8 g ->
  exists v f,
    Modulador.decimal_value g = Ok v /\
    Py.index Modulador.frequencies (N.to_nat (Modulador.binary_to_gray v)) = Ok f /\
    Np.set_item (Np.zeros 8) (N.to_nat (Modulador.binary_to_gray v)) 1
    = Ok (Spec.s_ 8 (Spec.symbolIndex Spec.FSK8 g) 1).
Proof.
  intros Hg. pattern_cases g Hg;
    (eexists; eexists; split; [vm_compute; reflexivity|];
     split; vm_compute; reflexivity).
Qed.

Lemma qam16_group (g : list N) :
  Spec.pattern Spec.QAM16 g ->
  exists iq,
    Modulador.QAM16_symbol g = Ok (iq, Spec.symbolIndex Spec.QAM16 g) /\
    Np.set_item (Np.zeros 16)
                (N.to_nat (N.of_nat (Spec.symbolIndex Spec.QAM16 g))) 1
    = Ok (Spec.s_ 16 (Spec.symbolIndex Spec.QAM16 g) 1).
Proof.
  intros Hg. pattern_cases g Hg;
    (eexists; split; vm_compute; reflexivity).
Qed.

Lemma psk8_group (g : list N) :
  Spec.pattern Spec.PSK8 g ->
  exists v k ph,
    Modulador.decimal_value g = Ok v /\
    Py.index Modulador.gray_map (N.to_nat v) = Ok k /\
    Py.index (map N.of_nat (seq 0 8)) (N.to_nat k) = Ok ph /\
    Np.set_item (Np.zeros 8) (N.to_nat k) 1
    = Ok (Spec.s_ 8 (Spec.symbolIndex Spec.PSK8 g) 1).
Proof.
  intros Hg. pattern_cases g Hg;
    (eexists; eexists; eexists; split; [vm_compute; reflexivity|];
     split; [vm_compute; reflexivity|]; split; vm_compute; reflexivity).
Qed.

Lemma fsk8_groups (groups : list (list N)) :
  Forall (Spec.pattern Spec.FSK8) groups ->
  exists vs fs,
    mapM Modulador.decimal_value groups = Ok vs /\
    mapM (fun gray_sym => Py.index Modulador.frequencies (N.to_nat gray_sym))
         (map Modulador.binary_to_gray vs) = Ok fs /\
    Modulador.one_hot_matrix 8 (map Modulador.binary_to_gray vs)
    = Ok (Spec.oneHot Spec.FSK8 groups).
Proof.
  unfold Modulador.one_hot_matrix.
  induction 1 as [|g groups Hg _ (vs & fs & H1 & H2 & H3)].
  - exists [], []. auto.
  - destruct (fsk8_group g Hg) as (v & f & Hv & Hf & Hs).
    exists (v :: vs), (f :: fs).
    cbn [mapM map]. rewrite Hv, H1. cbn [bind map mapM].
    rewrite Hf, H2, Hs, H3. auto.
Qed.

Lemma qam16_groups (groups : list (list N)) :
  Forall (Spec.pattern Spec.QAM16) groups ->
  exists rows,
    mapM Modulador.QAM16_symbol groups = Ok rows /\
    Modulador.one_hot_matrix 16 (map (fun r => N.of_nat (snd r)) rows)
    = Ok (Spec.oneHot Spec.QAM16 groups).
Proof.
  unfold Modulador.one_hot_matrix.
  induction 1 as [|g groups Hg _ (rows & H1 & H2)].
  - exists []. auto.
  - destruct (qam16_group g Hg) as (iq & Hq & Hs).
    exists ((iq, Spec.symbolIndex Spec.QAM16 g) :: rows).
    cbn [mapM map]. rewrite Hq, H1. cbn [bind map mapM snd].
    rewrite Hs, H2. auto.
Qed.

Lemma psk8_groups (groups : list (list N)) :
  Forall (Spec.pattern Spec.PSK8) groups ->
  exists vs ks phs,
    mapM Modulador.decimal_value groups = Ok vs /\
    mapM (fun sym => Py.index Modulador.gray_map (N.to_nat sym)) vs = Ok ks /\
    mapM (fun symbol => Py.index (map N.of_nat (seq 0 8)) (N.to_nat symbol)) ks
    = Ok phs /\
    Modulador.one_hot_matrix 8 ks = Ok (Spec.oneHot Spec.PSK8 groups).
Proof.
  unfold Modulador.one_hot_matrix.
  induction 1 as [|g groups Hg _ (vs & ks & phs & H1 & H2 & H3 & H4)].
  - exists [], [], []. auto.
  - destruct (psk8_group g Hg) as (v & k & ph & Hv & Hk & Hph & Hs).
    exists (v :: vs), (k :: ks), (ph :: phs).
    cbn [mapM]. rewrite Hv, H1, Hk, H2, Hph, H3, Hs, H4. auto.
Qed.

Lemma bitstream_padded (bits : list N) (p : nat) :
  Spec.bitstream bits -> Spec.bitstream (bits ++ repeat 0%N p).
Proof.
  intros H. apply Forall_app. split; [exact H|].
  apply Forall_forall. intros b Hb. apply repeat_spec in Hb. now left.
Qed.

(** The modulator of every scheme accepts every bitstream, and its one-hot
    matrix is that of the bit patterns of the framed bitstream. *)
Lemma modulate_spec (s : Spec.scheme) (bits : list N) :
  Spec.bitstream bits ->
  exists r p,
    Modulador.modulate (Spec.modulator s) bits = Ok r /\
    Modulador.padding r = p /\
    Modulador.modulation_type r = Demodulador.name (Spec.demodulator s) /\
    List.length (bits ++ repeat 0%N p) mod Spec.bitsPerSymbol s = 0 /\
    Modulador.modulated_signal r
    = Spec.oneHot s (Py.chunks (Spec.bitsPerSymbol s) (bits ++ repeat 0%N p)) /\
    p = (if List.length bits mod Spec.bitsPerSymbol s =? 0 then 0
         else Spec.bitsPerSymbol s - List.length bits mod Spec.bitsPerSymbol s).
Proof.
  intros Hb.
  destruct (apply_padding_spec (Spec.bitsPerSymbol s) bits)
    as (p & Hp & Hpv & Hmod & _).
  { destruct s; unfold Spec.bitsPerSymbol; simpl; lia. }
  destruct (chunks_patterns s _ (bitstream_padded bits p Hb) Hmod) as (Hpat & _).
  destruct s.
  - change (Spec.bitsPerSymbol Spec.FSK8) with 3 in *.
    change (Modulador.modulate (Spec.modulator Spec.FSK8) bits)
      with (Modulador.FSK8_modulate bits).
    destruct (fsk8_groups _ Hpat) as (vs & fs & H1 & H2 & H3).
    unfold Modulador.FSK8_modulate.
    rewrite Hp. cbn [bind]. rewrite H1. cbn [bind]. rewrite H2. cbn [bind].
    rewrite H3. cbn [bind].
    eexists; exists p. repeat split; auto.
  - change (Spec.bitsPerSymbol Spec.QAM16) with 4 in *.
    change (Modulador.modulate (Spec.modulator Spec.QAM16) bits)
      with (Modulador.QAM16_modulate bits).
    destruct (qam16_groups _ Hpat) as (rows & H1 & H2).
    unfold Modulador.QAM16_modulate.
    rewrite Hp. cbn [bind]. rewrite H1. cbn [bind]. rewrite H2. cbn [bind].
    eexists; exists p. repeat split; auto.
  - change (Spec.bitsPerSymbol Spec.PSK8) with 3 in *.
    change (Modulador.modulate (Spec.modulator Spec.PSK8) bits)
      with (Modulador.PSK8_modulate bits).
    destruct (psk8_groups _ Hpat) as (vs & ks & phs & H1 & H2 & H3 & H4).
    unfold Modulador.PSK8_modulate.
    rewrite Hp. cbn [bind]. rewrite H1. cbn [bind]. rewrite H2. cbn [bind].
    rewrite H3. cbn [bind]. rewrite H4. cbn [bind].
    eexists; exists p. repeat split; auto.
Qed.

Lemma Forall2_Qeq_nth (a b : list Q) (j : nat) :
  Forall2 Qeq a b -> (nth j a 0 == nth j b 0)%Q.
Proof.
  intros H. revert j. induction H as [|x y a b Hxy _ IH]; intros [|j]; simpl;
    auto; reflexivity.
Qed.

Lemma fold_right_Qplus_ext (f g : nat -> Q) (l : list nat) :
  (forall j, (f j == g j)%Q) ->
  (fold_right Qplus 0 (map f l) == fold_right Qplus 0 (map g l))%Q.
Proof.
  intros H. induction l as [|j l IH]; simpl; [reflexivity|].
  now rewrite IH, (H j).
Qed.

Lemma d_same_entries (size : nat) (r r' : Np.vector) (A : Q) (i : nat) :
  Forall2 Qeq r' r -> (Spec.d_ size r' A i == Spec.d_ size r A i)%Q.
Proof.
  intros H. unfold Spec.d_. apply fold_right_Qplus_ext. intros j. cbv zeta.
  now rewrite (Forall2_Qeq_nth r' r j H).
Qed.

(** The decision of the detector depends on the entries of the row only. *)
Lemma detect_same_entries (size : nat) (A : Q) (r r' : Np.vector) :
  0 < size -> List.length r = size -> Forall2 Qeq r' r ->
  Demodulador.detect size A r' = Demodulador.detect size A r.
Proof.
  intros Hs Hr Hrr.
  assert (Hr' : List.length r' = size)
    by (rewrite (Forall2_length Hrr); exact Hr).
  destruct (detect_spec size A r Hs Hr) as (k & Hk & Hkl & Hmin & Hfirst).
  destruct (detect_spec size A r' Hs Hr') as (k' & Hk' & Hkl' & Hmin' & Hfirst').
  rewrite Hk, Hk'. f_equal.
  destruct (Nat.lt_trichotomy k' k) as [Hlt|[Heq|Hgt]]; [|exact Heq|]; exfalso.
  - specialize (Hfirst k' Hlt). specialize (Hmin' k Hkl).
    rewrite !(d_same_entries size r r' A) in Hmin' by exact Hrr.
    exact (Qlt_irrefl _ (Qlt_le_trans _ _ _ Hfirst Hmin')).
  - specialize (Hfirst' k Hgt). specialize (Hmin k' Hkl').
    rewrite !(d_same_entries size r r' A) in Hfirst' by exact Hrr.
    exact (Qlt_irrefl _ (Qlt_le_trans _ _ _ Hfirst' Hmin)).
Qed.

(** Without noise the detector recovers the index of a one-hot vector. *)
Lemma detect_one_hot (s : Spec.scheme) (i : nat) :
  i < Spec.constellationSize s ->
  Demodulador.detect (Spec.constellationSize s) 1
                     (Spec.s_ (Spec.constellationSize s) i 1) = Ok i.
Proof.
  intros Hi. destruct s; unfold Spec.constellationSize in *; simpl in Hi |- *;
    index_cases i Hi; vm_compute; reflexivity.
Qed.

Lemma demodulate_one_hot (s : Spec.scheme) (groups : list (list N))
      (received : Np.matrix) :
  Forall (Spec.pattern s) groups ->
  Spec.same_entries received (Spec.oneHot s groups) ->
  Demodulador.demodulate_bayes (Spec.demodulator s) received 1
  = Ok (map (Spec.symbolIndex s) groups).
Proof.
  rewrite demodulate_bayes_scheme. unfold Demodulador.demodulate_bayes_of.
  intros Hg. revert received.
  induction Hg as [|g groups Hg _ IH]; intros received Hsame;
    inversion Hsame as [|r' r rest' rest Hr Hrest]; subst; simpl; [reflexivity|].
  destruct (symbolIndex_ok s g Hg) as (_ & Hlt & _).
  rewrite (detect_same_entries _ 1 (Spec.s_ (Spec.constellationSize s)
                                            (Spec.symbolIndex s g) 1) r').
  - rewrite (detect_one_hot s _ Hlt). simpl.
    rewrite (IH rest' Hrest). reflexivity.
  - apply scheme_size_pos.
  - apply s_length.
  - exact Hr.
Qed.

Lemma symbols_to_bits_groups (s : Spec.scheme) (groups : list (list N)) :
  Forall (Spec.pattern s) groups ->
  Demodulador.symbols_to_bits (Spec.demodulator s) (map (Spec.symbolIndex s) groups)
  = Ok (List.concat groups).
Proof.
  induction 1 as [|g groups Hg _ IH]; simpl; [reflexivity|].
  destruct (symbolIndex_ok s g Hg) as (_ & _ & Hb).
  unfold Spec.indexToBits in Hb. apply bind_ok in Hb.
  destruct Hb as (bits & Hbits & Hints).
  rewrite Hbits. simpl. rewrite Hints. simpl. rewrite IH. reflexivity.
Qed.

Lemma remove_padding_padded (bits : list N) (p : nat) :
  Demodulador.remove_padding (bits ++ repeat 0%N p) p = bits.
Proof.
  unfold Demodulador.remove_padding.
  destruct (Nat.ltb_spec 0 p) as [Hp|Hp].
  - rewrite length_app, repeat_length.
    replace (List.length bits + p - p) with (List.length bits + 0) by lia.
    rewrite firstn_app_2. simpl. apply app_nil_r.
  - assert (p = 0) as -> by lia. simpl. apply app_nil_r.
Qed.

Lemma same_entries_refl (m : Np.matrix) : Spec.same_entries m m.
Proof.
  induction m as [|r m IH]; constructor; [|exact IH].
  induction r as [|x r IHr]; constructor; [reflexivity|exact IHr].
Qed.

(** Assembling the result of [demodulate_signal] from its three steps. *)
Lemma demodulate_signal_steps (s : Spec.scheme) (m : Np.matrix) (A : Q)
      (syms : list nat) (bits : list N) (i : Demodulador.symbol_info) :
  Demodulador.demodulate_bayes (Spec.demodulator s) m A = Ok syms ->
  Demodulador.symbols_to_bits (Spec.demodulator s) syms = Ok bits ->
  Demodulador.get_symbol_info (Spec.demodulator s) syms = Ok i ->
  Demodulador.demodulate_signal m (Demodulador.name (Spec.demodulator s)) A
  = Ok {| Demodulador.demodulated_bits := bits;
          Demodulador.detected_symbols := syms;
          Demodulador.info := i;
          Demodulador.demodulator := Spec.demodulator s |}.
Proof.
  intros H1 H2 H3.
  destruct (demodulators_lookup s) as (Hmem & Hget).
  unfold Demodulador.demodulate_signal.
  rewrite Hmem, Hget. cbn [negb bind]. rewrite H1. cbn [bind].
  rewrite H2. cbn [bind]. rewrite H3. reflexivity.
Qed.

(** The chain without noise, stage by stage. *)
Lemma noiseless_chain (s : Spec.scheme) (bits : list N) :
  Spec.bitstream bits ->
  exists r p,
    Modulador.modulate (Spec.modulator s) bits = Ok r /\
    Modulador.padding r = p /\
    p = (if List.length bits mod Spec.bitsPerSymbol s =? 0 then 0
         else Spec.bitsPerSymbol s - List.length bits mod Spec.bitsPerSymbol s) /\
    Modulador.modulation_type r = Demodulador.name (Spec.demodulator s) /\
    Modulador.modulated_signal r
    = Spec.oneHot s (Py.chunks (Spec.bitsPerSymbol s) (bits ++ repeat 0%N p)) /\
    forall received,
      Spec.same_entries received (Modulador.modulated_signal r) ->
      exists d,
        Demodulador.demodulate_signal received
                                      (Demodulador.name (Spec.demodulator s)) 1
        = Ok d /\
        Demodulador.detected_symbols d
        = map (Spec.symbolIndex s)
              (Py.chunks (Spec.bitsPerSymbol s) (bits ++ repeat 0%N p)) /\
        Demodulador.demodulated_bits d = bits ++ repeat 0%N p /\
        Demodulador.remove_padding (Demodulador.demodulated_bits d) p = bits.
Proof.
  intros Hb.
  destruct (modulate_spec s bits Hb)
    as (r & p & Hr & Hp & Hty & Hmod & Hsig & Hpv).
  exists r, p.
  split; [exact Hr|]. split; [exact Hp|]. split; [exact Hpv|].
  split; [exact Hty|]. split; [exact Hsig|].
  intros received Hsame. rewrite Hsig in Hsame.
  destruct (chunks_patterns s _ (bitstream_padded bits p Hb) Hmod) as (Hpat & Hcat).
  pose proof (demodulate_one_hot s _ received Hpat Hsame) as Hdet.
  pose proof (symbols_to_bits_groups s _ Hpat) as Hbits.
  rewrite Hcat in Hbits.
  destruct (get_symbol_info_total s
              (map (Spec.symbolIndex s)
                   (Py.chunks (Spec.bitsPerSymbol s) (bits ++ repeat 0%N p))))
    as (info & Hinfo).
  { apply Forall_map. eapply Forall_impl; [|exact Hpat].
    intros g Hg. now destruct (symbolIndex_ok s g Hg) as (_ & Hlt & _). }
  eexists. split; [exact (demodulate_signal_steps s _ _ _ _ _ Hdet Hbits Hinfo)|].
  cbn [Demodulador.detected_symbols Demodulador.demodulated_bits].
  split; [reflexivity|]. split; [reflexivity|].
  apply remove_padding_padded.
Qed.

(** C1. For every scheme and every bitstream of 0/1 values: the modulator
    gives the one-hot matrix; the matrix received without noise (the
    channel left out, or any matrix with the same entries) is demodulated
    with reference amplitude 1; removing the recorded padding gives back
    exactly the original bits. *)
Theorem noiseless_round_trip (s : Spec.scheme) (bits : list N) :
  Spec.bitstream bits ->
  exists r,
    Modulador.modulate (Spec.modulator s) bits = Ok r /\
    forall received,
      Spec.same_entries received (Modulador.modulated_signal r) ->
      exists d,
        Demodulador.demodulate_signal received (Modulador.modulation_type r) 1
        = Ok d /\
        Demodulador.remove_padding (Demodulador.demodulated_bits d)
                                   (Modulador.padding r) = bits.
Proof.
  intros Hb.
  destruct (noiseless_chain s bits Hb) as (r & p & Hr & Hp & _ & Hty & _ & Hrx).
  exists r. split; [exact Hr|].
  intros received Hsame.
  destruct (Hrx received Hsame) as (d & Hd & _ & _ & Hrm).
  exists d. rewrite Hty, Hp. auto.
Qed.

Lemma noiseless_round_trip_witness :
  exists r d,
    Modulador.modulate Modulador.PSK8Modulator [1; 1; 0; 1]%N = Ok r /\
    Modulador.padding r = 2 /\
    Demodulador.demodulate_signal (Modulador.modulated_signal r) "8PSK" 1 = Ok d /\
    Demodulador.remove_padding (Demodulador.demodulated_bits d) 2 = [1; 1; 0; 1]%N.
Proof.
  destruct (noiseless_round_trip Spec.PSK8 [1; 1; 0; 1]%N) as (r & Hr & Hd).
  - repeat constructor; (left; reflexivity) || (right; reflexivity).
  - destruct (Hd (Modulador.modulated_signal r) (same_entries_refl _))
      as (d & Hd1 & Hd2).
    exists r, d.
    pose proof Hr as Hc. vm_compute in Hc. injection Hc as Hc. subst r.
    split; [exact Hr|]. split; [reflexivity|]. split; [exact Hd1|exact Hd2].
Defined.

(** ** The channel *)

Lemma positive_not_zero (x : float) : (0 <? x)%float = true -> is_zero x = false.
Proof.
  unfold is_zero. rewrite ltb_spec, eqb_spec.
  change (Prim2SF 0%float) with (S754_zero false).
  change (Prim2SF zero) with (S754_zero false).
  destruct (Prim2SF x) as [s|s| |s m e]; try destruct s; cbn; congruence.
Qed.

Lemma positive_sf (x : float) :
  (0 <? x)%float = true ->
  Prim2SF x = S754_infinity false \/ exists m e, Prim2SF x = S754_finite false m e.
Proof.
  rewrite ltb_spec. change (Prim2SF 0%float) with (S754_zero false).
  destruct (Prim2SF x) as [s|s| |s m e]; try destruct s; cbn; try congruence; eauto.
Qed.

Lemma binary_round_aux_nonneg (m e : Z) (l : location) :
  Spec.sf_nonneg (binary_round_aux prec emax false m e l).
Proof.
  unfold binary_round_aux.
  destruct (shr_fexp prec emax m e l) as [mrs' e'].
  match goal with
  | |- context [shr_fexp ?a ?b ?c ?d ?f] =>
      destruct (shr_fexp a b c d f) as [mrs'' e'']
  end.
  destruct (shr_m mrs''); simpl; auto;
    match goal with |- context [if ?c then _ else _] => destruct c end;
    reflexivity.
Qed.

Lemma div_two_nonneg (x : spec_float) :
  x = S754_infinity false \/ (exists m e, x = S754_finite false m e) ->
  Spec.sf_nonneg (SF64div x (Prim2SF 2%float)).
Proof.
  let v := eval vm_compute in (Prim2SF 2%float) in change (Prim2SF 2%float) with v.
  intros [->|(m & e & ->)]; unfold SF64div, SFdiv.
  - reflexivity.
  - cbn [xorb].
    match goal with |- context [SFdiv_core_binary ?a ?b ?c ?d ?e ?f] =>
      destruct (SFdiv_core_binary a b c d e f) as [[mz ez] lz] end.
    apply binary_round_aux_nonneg.
Qed.

Lemma sqrt_nonneg (x : spec_float) : Spec.sf_nonneg x -> Spec.sf_nonneg (SF64sqrt x).
Proof.
  unfold SF64sqrt, SFsqrt.
  destruct x as [s|s| |s m e]; intros H; cbn [Spec.sf_nonneg] in H; subst;
    try reflexivity; try exact I.
  match goal with |- context [SFsqrt_core_binary ?a ?b ?c ?d] =>
    destruct (SFsqrt_core_binary a b c d) as [[mz ez] lz] end.
  apply binary_round_aux_nonneg.
Qed.

Lemma get_sign_nonneg (x : float) : Spec.sf_nonneg (Prim2SF x) -> get_sign x = false.
Proof.
  intros H. unfold get_sign, is_zero.
  destruct (x =? zero)%float eqn:E.
  - rewrite eqb_spec in E. change (Prim2SF zero) with (S754_zero false) in E.
    assert (Hx : Prim2SF x = S754_zero false).
    { destruct (Prim2SF x) as [s|s| |s m e]; try destruct s; cbn in *; congruence. }
    rewrite <- (SF2Prim_Prim2SF x), Hx. reflexivity.
  - rewrite ltb_spec. change (Prim2SF zero) with (S754_zero false).
    destruct (Prim2SF x) as [s|s| |s m e]; cbn in *; subst; reflexivity.
Qed.

Lemma positive_scale (N0 : float) :
  (0 <? N0)%float = true -> get_sign (sqrt (N0 / 2)) = false.
Proof.
  intros H. apply get_sign_nonneg.
  rewrite sqrt_spec, div_spec. apply sqrt_nonneg, div_two_nonneg.
  now apply positive_sf.
Qed.

(** ** The concrete scenarios *)

Ltac qeq_list :=
  repeat (first [ apply Forall2_nil
                | apply Forall2_cons; [unfold Qeq; vm_compute; reflexivity|] ]).

(** C7. The 8FSK frequencies are 1000 + i * 1000 for i = 0..7.  The bit
    group 1,0,1 is read as 5, Gray-mapped to 5 XOR 2 = 7, sent as the one-hot
    vector with its last component set and as the frequency 8000 Hz; without
    noise the detector recovers the index 7 and the inverse Gray transform
    gives back the bits 1,0,1. *)
Theorem fsk8_concrete_scenario :
  Forall2 Qeq Modulador.frequencies
          (map (fun i => (1000 + inject_Z (Z.of_nat i) * 1000)%Q) (seq 0 8)) /\
  Modulador.decimal_value [1; 0; 1]%N = Ok 5%N /\
  Modulador.binary_to_gray 5 = N.lxor 5 2 /\
  N.lxor 5 2 = 7%N /\
  (exists r f,
      Modulador.FSK8_modulate [1; 0; 1]%N = Ok r /\
      Modulador.gray_symbols r = Some [7%N] /\
      Modulador.modulated_signal r = [[0; 0; 0; 0; 0; 0; 0; 1]%Q] /\
      Modulador.symbol_values r = [Modulador.Frequency f] /\
      (f == 8000)%Q /\
      Modulador.padding r = 0 /\
      exists d,
        Demodulador.demodulate_signal (Modulador.modulated_signal r)
                                      (Modulador.modulation_type r) 1%Q = Ok d /\
        Demodulador.detected_symbols d = [7] /\
        Demodulador.demodulated_bits d = [1; 0; 1]%N) /\
  Demodulador.gray_to_binary 7 = 5%N /\
  Demodulador.symbol_to_bits Demodulador.FSK8Demodulator 7
    = Ok ["1"; "0"; "1"]%char.
Proof.
  split; [vm_compute map; qeq_list|].
  split; [reflexivity|].
  split; [reflexivity|].
  split; [reflexivity|].
  split; [|split; reflexivity].
  eexists. eexists.
  split; [vm_compute; reflexivity|].
  split; [reflexivity|].
  split; [reflexivity|].
  split; [reflexivity|].
  split; [unfold Qeq; vm_compute; reflexivity|].
  split; [reflexivity|].
  eexists.
  split.
  - apply (demodulate_signal_steps Spec.FSK8); vm_compute; reflexivity.
  - split; reflexivity.
Qed.

Lemma chunks_single {A : Type} (B : nat) (g : list A) :
  0 < B -> List.length g = B -> Py.chunks B g = [g].
Proof.
  intros HB Hlen. unfold Py.chunks.
  destruct g as [|a g]; [simpl in Hlen; lia|].
  cbn [List.length Py.chunks_upto].
  rewrite <- Hlen at 1. rewrite firstn_all.
  rewrite <- Hlen. rewrite skipn_all.
  destruct (List.length g); reflexivity.
Qed.

Lemma qam16_tables_inverse (key : string) (i : nat) :
  Py.get String.eqb Modulador.symbol_to_index key = Ok i <->
  Py.get Nat.eqb Demodulador.index_to_bits i = Ok key.
Proof.
  split.
  - let v := eval vm_compute in Modulador.symbol_to_index in
    change Modulador.symbol_to_index with v.
    cbn [Py.get].
    repeat match goal with
           | |- context [String.eqb ?a key] =>
               destruct (String.eqb_spec a key);
               [subst key; intros H; inversion H; subst i; reflexivity|]
           end.
    discriminate.
  - let v := eval vm_compute in Demodulador.index_to_bits in
    change Demodulador.index_to_bits with v.
    do 16 (destruct i as [|i];
           [intros H; inversion H; subst key; reflexivity|]).
    discriminate.
Qed.

(** C6. In the 16QAM table the pattern 0100 has the point (-3, +3) and the
    first place, so its one-hot index is 0.  For each of the 16 four-bit
    patterns the demodulator's [index_to_bits] is the exact inverse of the
    modulator's [symbol_to_index], and without noise the detection gives back
    the same four bits. *)
Theorem qam16_canonical_table :
  Py.get String.eqb Modulador.gray_symbol_map "0100"%string = Ok (-3, 3)%Z /\
  nth_error (Py.keys Modulador.gray_symbol_map) 0 = Some "0100"%string /\
  Py.get String.eqb Modulador.symbol_to_index "0100"%string = Ok 0 /\
  List.length (Py.keys Modulador.gray_symbol_map) = 16 /\
  (forall key i,
      Py.get String.eqb Modulador.symbol_to_index key = Ok i <->
      Py.get Nat.eqb Demodulador.index_to_bits i = Ok key) /\
  (forall g,
      Spec.pattern Spec.QAM16 g ->
      exists r i d,
        Modulador.QAM16_modulate g = Ok r /\
        Py.get String.eqb Modulador.symbol_to_index (Py.join (map Py.str g)) = Ok i /\
        Py.get Nat.eqb Demodulador.index_to_bits i = Ok (Py.join (map Py.str g)) /\
        Modulador.modulated_signal r = [Spec.s_ 16 i 1] /\
        Modulador.padding r = 0 /\
        Demodulador.demodulate_signal (Modulador.modulated_signal r)
                                      (Modulador.modulation_type r) 1%Q = Ok d /\
        Demodulador.detected_symbols d = [i] /\
        Demodulador.demodulated_bits d = g).
Proof.
  split; [reflexivity|].
  split; [reflexivity|].
  split; [reflexivity|].
  split; [reflexivity|].
  split; [exact qam16_tables_inverse|].
  intros g Hg.
  pose proof Hg as [Hlen Hbits].
  change (Spec.bitsPerSymbol Spec.QAM16) with 4 in Hlen.
  destruct (noiseless_chain Spec.QAM16 g Hbits)
    as (r & p & Hr & Hp & Hpv & Hty & Hsig & Hrx).
  change (Spec.bitsPerSymbol Spec.QAM16) with 4 in *.
  rewrite Hlen in Hpv. cbn in Hpv. subst p.
  rewrite Hpv in Hrx, Hsig. cbn [repeat] in Hrx, Hsig.
  rewrite app_nil_r in Hrx, Hsig.
  rewrite (chunks_single 4 g) in Hrx, Hsig by (lia || exact Hlen).
  destruct (Hrx _ (same_entries_refl _)) as (d & Hd & Hdet & Hdb & _).
  destruct (symbolIndex_ok Spec.QAM16 g Hg) as (Hidx & _ & _).
  exists r, (Spec.symbolIndex Spec.QAM16 g), d.
  split; [exact Hr|].
  split; [exact Hidx|].
  split; [apply qam16_tables_inverse; exact Hidx|].
  split; [rewrite Hsig; reflexivity|].
  split; [exact Hpv|].
  split; [rewrite Hty; exact Hd|].
  split; [rewrite Hdet; reflexivity|exact Hdb].
Qed.

Lemma qam16_canonical_table_witness :
  Py.get Nat.eqb Demodulador.index_to_bits 0 = Ok "0100"%string /\
  exists r d,
    Modulador.QAM16_modulate [0; 1; 0; 0]%N = Ok r /\
    Modulador.modulated_signal r = [Spec.s_ 16 0 1] /\
    Demodulador.demodulate_signal (Modulador.modulated_signal r)
                                  (Modulador.modulation_type r) 1%Q = Ok d /\
    Demodulador.demodulated_bits d = [0; 1; 0; 0]%N.
Proof.
  destruct qam16_canonical_table as (_ & _ & H0 & _ & Hinv & Hrt).
  split.
  - apply (proj1 (Hinv "0100"%string 0)). exact H0.
  - assert (Hp : Spec.pattern Spec.QAM16 [0; 1; 0; 0]%N)
      by (apply pattern_intro; reflexivity).
    destruct (Hrt _ Hp) as (r & i & d & H1 & H2 & H3 & H4 & H5 & H6 & H7 & H8).
    exists r, d.
    assert (Hi : i = 0).
    { vm_compute in H2. now inversion H2. }
    subst i. auto.
Defined.

(** ** The channel: SNR figures and noise *)

(** C8. For a constellation of size M = 8 or M = 16 and every N0 > 0, the
    SNR computation of the channel gives Eb = 1 / bitsPerSymbol with
    bitsPerSymbol = log2 M, and Es = Eb * bitsPerSymbol is exactly 1.0, in
    binary64 arithmetic, whatever the scheme. *)
Theorem energy_normalization (np_log10 : float -> float) (md : Canal.metadata)
        (N0 : float) :
  (Canal.constellation_size md = 8 \/ Canal.constellation_size md = 16)%N ->
  (0 <? N0)%float = true ->
  exists bps m,
    Canal.int_log2 (Canal.constellation_size md) = Ok bps /\
    bps = N.log2 (Canal.constellation_size md) /\
    Canal.calculate_snr_metrics np_log10 md N0 = Ok m /\
    Canal.Eb m = (1 / Canal.float_of_int (Z.of_N bps))%float /\
    Canal.Es m = (Canal.Eb m * Canal.float_of_int (Z.of_N bps))%float /\
    Canal.Es m = 1%float.
Proof.
  intros HM HN0.
  pose proof (positive_not_zero N0 HN0) as Hz.
  unfold Canal.calculate_snr_metrics, Canal.py_div.
  destruct HM as [HM|HM]; rewrite HM.
  - change (Canal.int_log2 8) with (Ok 3%N). cbn [bind].
    change (Canal.float_of_int (Z.of_N 3)) with 3%float.
    change (is_zero 3%float) with false. cbv iota. cbn [bind].
    rewrite Hz. cbn [bind].
    eexists _, _. repeat split.
  - change (Canal.int_log2 16) with (Ok 4%N). cbn [bind].
    change (Canal.float_of_int (Z.of_N 4)) with 4%float.
    change (is_zero 4%float) with false. cbv iota. cbn [bind].
    rewrite Hz. cbn [bind].
    eexists _, _. repeat split.
Qed.

Lemma energy_normalization_witness :
  exists m,
    Canal.calculate_snr_metrics
      (fun x => x)
      {| Canal.modulation_type := "8FSK"; Canal.constellation_size := 8;
         Canal.total_symbols := 2; Canal.padding := 1 |}
      0.5%float = Ok m /\
    Canal.Eb m = (1 / 3)%float /\
    Canal.Es m = 1%float.
Proof.
  destruct (energy_normalization
              (fun x => x)
              {| Canal.modulation_type := "8FSK"; Canal.constellation_size := 8;
                 Canal.total_symbols := 2; Canal.padding := 1 |}
              0.5%float (or_introl eq_refl) eq_refl)
    as (bps & m & H1 & H2 & H3 & H4 & H5 & H6).
  exists m. split; [exact H3|]. split; [|exact H6].
  rewrite H4, H2. reflexivity.
Defined.

Lemma nth_map_combine {A B C : Type} (f : A * B -> C) (a : list A) (b : list B)
      (da : A) (db : B) (dc : C) (i : nat) :
  i < List.length a -> List.length a = List.length b ->
  nth i (map f (combine a b)) dc = f (nth i a da, nth i b db).
Proof.
  intros Hi Hlen.
  rewrite (nth_indep _ dc (f (da, db)))
    by (rewrite length_map, length_combine; lia).
  rewrite map_nth, combine_nth by exact Hlen. reflexivity.
Qed.

Lemma random_normal_entries (draws : nat -> float) (loc scale : float)
      (rows cols : nat) :
  get_sign scale = false ->
  exists noise,
    Canal.random_normal draws loc scale (rows, cols) = Ok noise /\
    List.length noise = rows /\
    forall i, i < rows ->
      List.length (nth i noise []) = cols /\
      forall j, j < cols ->
        Spec.entry nan noise i j = (loc + scale * draws (i * cols + j)%nat)%float.
Proof.
  intros Hs. unfold Canal.random_normal. rewrite Hs. cbv beta iota.
  eexists. split; [reflexivity|].
  split; [now rewrite length_map, length_seq|].
  intros i Hi. unfold Spec.entry, Canal.fvector.
  rewrite !(nth_map_seq _ [] rows i Hi).
  split; [now rewrite length_map, length_seq|].
  intros j Hj. now rewrite (nth_map_seq _ nan cols j Hj).
Qed.

Lemma add_noise_entries (signal : list (list Z)) (noise : Canal.fmatrix)
      (cols i j : nat) :
  List.length noise = List.length signal ->
  i < List.length signal ->
  List.length (nth i signal []) = cols ->
  List.length (nth i noise []) = cols ->
  j < cols ->
  Spec.entry nan (Canal.add_noise signal noise) i j
  = (Canal.float_of_int (Spec.entry 0%Z signal i j) + Spec.entry nan noise i j)%float.
Proof.
  intros Hlen Hi Hs Hn Hj. unfold Spec.entry, Canal.add_noise.
  rewrite (nth_map_combine _ signal noise [] [] [] i Hi) by lia.
  cbn [fst snd].
  rewrite (nth_map_combine _ _ _ 0%Z nan nan j) by lia.
  reflexivity.
Qed.

Lemma shape_rows {A : Type} (m : list (list A)) (i : nat) :
  Forall (fun row => List.length row = snd (Canal.shape m)) m ->
  i < fst (Canal.shape m) ->
  List.length (nth i m []) = snd (Canal.shape m).
Proof.
  intros H Hi. simpl in Hi.
  rewrite Forall_forall in H. apply H. now apply nth_In.
Qed.

(** C5, as the code has it.  The channel does not check N0.  Its only
    failure is the [ValueError] of the generator for a scale sqrt(N0/2)
    whose sign bit is set.  For every N0 > 0, and for every other N0 whose
    scale the generator accepts, it succeeds and adds to every component of
    every row the sample 0 + sqrt(N0/2) * deviate, that is a sample drawn
    with standard deviation sqrt(N0/2). *)
Theorem channel_adds_noise (draws : nat -> float) (signal : list (list Z))
        (N0 : float) :
  (get_sign (sqrt (N0 / 2)) = true ->
   Canal.add_awgn draws signal N0 = Raise ValueError) /\
  ((0 <? N0)%float = true \/ get_sign (sqrt (N0 / 2)) = false ->
   Forall (fun row => List.length row = snd (Canal.shape signal)) signal ->
   exists noisy noise,
     Canal.add_awgn draws signal N0 = Ok (noisy, noise) /\
     forall i j,
       i < fst (Canal.shape signal) -> j < snd (Canal.shape signal) ->
       Spec.entry nan noise i j
       = (zero + sqrt (N0 / 2) * draws (i * snd (Canal.shape signal) + j)%nat)%float /\
       Spec.entry nan noisy i j
       = (Canal.float_of_int (Spec.entry 0%Z signal i j)
          + Spec.entry nan noise i j)%float).
Proof.
  split.
  - intros Hs. unfold Canal.add_awgn, Canal.random_normal. now rewrite Hs.
  - intros HN0 Hrect.
    assert (Hs : get_sign (sqrt (N0 / 2)) = false).
    { destruct HN0 as [H|H]; [now apply positive_scale|exact H]. }
    destruct (random_normal_entries draws zero (sqrt (N0 / 2))
                (fst (Canal.shape signal)) (snd (Canal.shape signal)) Hs)
      as (noise & Hnoise & Hrows & Hent).
    exists (Canal.add_noise signal noise), noise.
    unfold Canal.add_awgn.
    rewrite (surjective_pairing (Canal.shape signal)), Hnoise. cbn [bind].
    split; [reflexivity|].
    intros i j Hi Hj.
    destruct (Hent i Hi) as (Hcols & Hval).
    split; [now apply Hval|].
    apply (add_noise_entries signal noise (snd (Canal.shape signal))).
    + exact Hrows.
    + exact Hi.
    + now apply shape_rows.
    + exact Hcols.
    + exact Hj.
Qed.

Lemma channel_adds_noise_witness :
  exists noisy noise,
    Canal.add_awgn (fun k => if Nat.even k then 0.5%float else (-0.25)%float)
                   [[0; 1]; [1; 0]]%Z 2%float = Ok (noisy, noise) /\
    Spec.entry nan noise 1 0 = 0.5%float /\
    Spec.entry nan noisy 1 0 = 1.5%float.
Proof.
  destruct (channel_adds_noise
              (fun k => if Nat.even k then 0.5%float else (-0.25)%float)
              [[0; 1]; [1; 0]]%Z 2%float) as (_ & H).
  destruct H as (noisy & noise & Hrun & Hent).
  - left. reflexivity.
  - repeat constructor.
  - exists noisy, noise. split; [exact Hrun|].
    destruct (Hent 1 0) as (Hn & Hy); [simpl; lia|simpl; lia|].
    split; [exact Hn|].
    rewrite Hy, Hn. reflexivity.
Defined.

(** The claim C5 fails for N0 = -1: the scale is nan, the generator accepts
    it, and the channel returns matrices of nan instead of failing. *)
Lemma channel_accepts_negative_N0 :
  ((-1) <=? 0)%float = true /\
  Canal.add_awgn (fun _ => 1%float) [[0; 1]]%Z (-1)%float
  = Ok ([[nan; nan]], [[nan; nan]]) /\
  ~ raises (Canal.add_awgn (fun _ => 1%float) [[0; 1]]%Z (-1)%float).
Proof.
  split; [reflexivity|]. split; [reflexivity|].
  intros (e & He). discriminate He.
Qed.

(** At N0 = 0 the noise is added first, and the SNR computation that
    follows divides by N0. *)
Lemma main_zero_N0 (np_log10 : float -> float) (draws : nat -> float)
      (signal : list (list Z)) (md : Canal.metadata) :
  Canal.constellation_size md = 8%N ->
  (exists out, Canal.add_awgn draws signal 0%float = Ok out) /\
  Canal.main np_log10 draws signal md 0%float = Raise ZeroDivisionError.
Proof.
  intros HM.
  assert (H : exists out, Canal.add_awgn draws signal 0%float = Ok out).
  { unfold Canal.add_awgn, Canal.random_normal.
    change (get_sign (sqrt (0 / 2))) with false. cbv iota.
    destruct (Canal.shape signal) as [rows cols]. cbn [bind]. eexists; reflexivity. }
  split; [exact H|].
  destruct H as ([noisy noise] & H).
  unfold Canal.main. rewrite H. cbn [bind].
  unfold Canal.calculate_snr_metrics, Canal.py_div. rewrite HM.
  reflexivity.
Qed.

(** ** Sequences and rows of unexpected length *)

Lemma fold_left_ext_in {A B : Type} (f g : A -> B -> A) (l : list B) (a : A) :
  (forall c i, In i l -> f c i = g c i) ->
  fold_left f l a = fold_left g l a.
Proof.
  revert a; induction l as [|i l IH]; intros a H; simpl; [reflexivity|].
  rewrite (H a i) by now left.
  apply IH. intros c j Hj. apply H. now right.
Qed.

Lemma nth_firstn_lt {A : Type} (l : list A) (d : A) (i m : nat) :
  i < m -> nth i (firstn m l) d = nth i l d.
Proof.
  revert i m; induction l as [|x l IH]; intros i m Hi.
  - now rewrite firstn_nil.
  - destruct m as [|m]; [lia|]. destruct i as [|i]; simpl; [reflexivity|].
    apply IH. lia.
Qed.

Lemma compare_step_firstn (o d : list string) (m : nat)
      (c : Comparacion.counters) (i : nat) :
  i < m ->
  Comparacion.compare_step o d c i
  = Comparacion.compare_step (firstn m o) (firstn m d) c i.
Proof.
  intros Hi. unfold Comparacion.compare_step.
  now rewrite !nth_firstn_lt by exact Hi.
Qed.

(** The comparison never fails; it looks at the common prefix only. *)
Lemma compare_common_prefix (o d : list string) :
  let m := Nat.min (List.length o) (List.length d) in
  exists c,
    Comparacion.compare_bit_sequences o d = Ok c /\
    Comparacion.total_codigos c = m /\
    Comparacion.compare_bit_sequences (firstn m o) (firstn m d) = Ok c.
Proof.
  intros m. eexists. split; [reflexivity|]. split; [reflexivity|].
  unfold Comparacion.compare_bit_sequences.
  rewrite !length_firstn.
  replace (Nat.min (Nat.min m (List.length o)) (Nat.min m (List.length d)))
    with m by (unfold m; lia).
  fold m.
  rewrite (fold_left_ext_in (Comparacion.compare_step (firstn m o) (firstn m d))
                            (Comparacion.compare_step o d)); [reflexivity|].
  intros c i Hi. apply in_seq in Hi. symmetry. apply compare_step_firstn. lia.
Qed.

(** A row that is neither as wide as the constellation nor of width one
    makes the array subtraction for the first candidate fail. *)
Lemma detect_wrong_width (s : Spec.scheme) (A : Q) (r : Np.vector) :
  List.length r <> Spec.constellationSize s ->
  List.length r <> 1 ->
  Demodulador.detect (Spec.constellationSize s) A r = Raise ValueError.
Proof.
  intros HM H1.
  unfold Demodulador.detect, Demodulador.distances.
  destruct s; unfold Spec.constellationSize in *; cbn in HM;
    cbn [Spec.demodulator Demodulador.constellation_size
         Demodulador.FSK8Demodulator Demodulador.QAM16Demodulator
         Demodulador.PSK8Demodulator seq mapM];
    unfold Demodulador.distance at 1;
    rewrite set_item_zeros by lia; cbn [bind];
    unfold Np.sub; rewrite s_length;
    match goal with
    | |- context [?a =? ?b] => destruct (Nat.eqb_spec a b) as [E|_]; [lia|]
    end;
    destruct r as [|x [|y r]]; try reflexivity; simpl in H1; lia.
Qed.

(** C9, as the code has it.  Two sequences of different lengths do not
    make the comparison fail: it compares the first min(len, len) codes and
    reports that number as [total_codigos].  A received matrix whose first
    row is neither as wide as the constellation nor of width one makes
    [demodulate_signal] fail with the [ValueError] of the array subtraction,
    and no bits are returned. *)
Theorem length_mismatch_handling :
  (forall original demodulated,
      exists c,
        Comparacion.compare_bit_sequences original demodulated = Ok c /\
        Comparacion.total_codigos c
        = Nat.min (List.length original) (List.length demodulated) /\
        Comparacion.compare_bit_sequences
          (firstn (Nat.min (List.length original) (List.length demodulated)) original)
          (firstn (Nat.min (List.length original) (List.length demodulated)) demodulated)
        = Ok c) /\
  (forall s r rest A,
      List.length r <> Spec.constellationSize s ->
      List.length r <> 1 ->
      Demodulador.demodulate_signal (r :: rest)
                                    (Demodulador.name (Spec.demodulator s)) A
      = Raise ValueError).
Proof.
  split.
  - intros o d. exact (compare_common_prefix o d).
  - intros s r rest A HM H1.
    destruct (demodulators_lookup s) as (Hmem & Hget).
    unfold Demodulador.demodulate_signal.
    rewrite Hmem, Hget. cbn [negb bind].
    rewrite demodulate_bayes_scheme. unfold Demodulador.demodulate_bayes_of.
    cbn [mapM]. rewrite (detect_wrong_width s A r HM H1). reflexivity.
Qed.

Lemma length_mismatch_handling_witness :
  (exists c,
      Comparacion.compare_bit_sequences ["101"; "110"; "000"]%string
                                        ["101"; "111"]%string = Ok c /\
      Comparacion.total_codigos c = 2) /\
  Demodulador.demodulate_signal [[1; 0; 0]%Q] "8FSK" 1 = Raise ValueError.
Proof.
  destruct length_mismatch_handling as (H1 & H2).
  split.
  - destruct (H1 ["101"; "110"; "000"]%string ["101"; "111"]%string)
      as (c & Hc & Ht & _).
    exists c. split; [exact Hc|exact Ht].
  - apply (H2 Spec.FSK8 [1; 0; 0]%Q [] 1%Q).
    + unfold Spec.constellationSize. simpl. lia.
    + simpl. lia.
Defined.

(** The claim C9 fails on sequences of different lengths: the comparison
    returns its report. *)
Lemma comparison_accepts_different_lengths :
  List.length ["101"]%string <> List.length ["101"; "000"]%string /\
  (exists c,
      Comparacion.compare_bit_sequences ["101"]%string ["101"; "000"]%string
      = Ok c /\
      Comparacion.total_codigos c = 1 /\
      Comparacion.errores_por_codigo c = 0) /\
  ~ raises (Comparacion.compare_bit_sequences ["101"]%string
                                              ["101"; "000"]%string).
Proof.
  split; [simpl; lia|].
  split; [eexists; split; [reflexivity|split; reflexivity]|].
  intros (e & He). discriminate He.
Qed.


(** * Further properties of the code *)

(** ** The Gray transforms on all integers *)

Lemma gray_loop_xor (p : positive) (b : N) :
  Demodulador.gray_to_binary_loop b p
  = N.lxor b (Demodulador.gray_to_binary_loop 0 p).
Proof.
  revert b; induction p as [q IH|q IH|]; intros b; cbn [Demodulador.gray_to_binary_loop].
  - rewrite IH. rewrite (IH (N.lxor 0 _)).
    now rewrite N.lxor_0_l, N.lxor_assoc.
  - rewrite IH. rewrite (IH (N.lxor 0 _)).
    now rewrite N.lxor_0_l, N.lxor_assoc.
  - now rewrite N.lxor_0_l.
Qed.

(** One turn of the loop of [gray_to_binary]. *)
Lemma gray_to_binary_unfold (n : N) :
  Demodulador.gray_to_binary n
  = N.lxor n (Demodulador.gray_to_binary (N.shiftr n 1)).
Proof.
  destruct n as [|[q|q|]]; try reflexivity;
    cbn [Demodulador.gray_to_binary Demodulador.gray_to_binary_loop];
    rewrite gray_loop_xor; now rewrite N.lxor_0_l.
Qed.

Lemma shiftr_1_lt (n : N) : n <> 0%N -> (N.shiftr n 1 < n)%N.
Proof.
  intros Hn. rewrite N.shiftr_div_pow2. change (2 ^ 1)%N with 2%N.
  apply N.div_lt; lia.
Qed.

Lemma gray_to_binary_shiftr (n : N) :
  N.shiftr (Demodulador.gray_to_binary n) 1
  = Demodulador.gray_to_binary (N.shiftr n 1).
Proof.
  induction n as [n IH] using (well_founded_induction N.lt_wf_0).
  destruct (N.eq_dec n 0) as [->|Hn]; [reflexivity|].
  rewrite (gray_to_binary_unfold n) at 1.
  rewrite N.shiftr_lxor, IH by now apply shiftr_1_lt.
  now rewrite <- gray_to_binary_unfold.
Qed.

Lemma gray_to_binary_lxor (a b : N) :
  Demodulador.gray_to_binary (N.lxor a b)
  = N.lxor (Demodulador.gray_to_binary a) (Demodulador.gray_to_binary b).
Proof.
  remember (a + b)%N as m eqn:Hm. revert a b Hm.
  induction m as [m IH] using (well_founded_induction N.lt_wf_0).
  intros a b Hm.
  destruct (N.eq_dec m 0) as [Hz|Hnz].
  - assert (a = 0%N) by lia. assert (b = 0%N) by lia. subst. reflexivity.
  - assert (Hlt : (N.shiftr a 1 + N.shiftr b 1 < m)%N).
    { subst m.
      assert (Ha : (N.shiftr a 1 <= a)%N)
        by (rewrite N.shiftr_div_pow2; apply N.Div0.div_le_upper_bound; lia).
      assert (Hb : (N.shiftr b 1 <= b)%N)
        by (rewrite N.shiftr_div_pow2; apply N.Div0.div_le_upper_bound; lia).
      destruct (N.eq_dec a 0) as [Ha0|Ha0].
      - assert (Hb0 : b <> 0%N) by lia. pose proof (shiftr_1_lt b Hb0). lia.
      - pose proof (shiftr_1_lt a Ha0). lia. }
    rewrite (gray_to_binary_unfold (N.lxor a b)), N.shiftr_lxor.
    rewrite (IH _ Hlt _ _ eq_refl).
    rewrite (gray_to_binary_unfold a), (gray_to_binary_unfold b).
    rewrite !N.lxor_assoc. f_equal.
    rewrite <- !N.lxor_assoc.
    rewrite (N.lxor_comm b (Demodulador.gray_to_binary (N.shiftr a 1))).
    reflexivity.
Qed.

(** X1. On every non-negative integer the Gray transform of the modulator
    and the loop of the demodulator are inverse of each other. *)
Theorem gray_transforms_inverse (n : N) :
  Demodulador.gray_to_binary (Modulador.binary_to_gray n) = n /\
  Modulador.binary_to_gray (Demodulador.gray_to_binary n) = n.
Proof.
  unfold Modulador.binary_to_gray. split.
  - rewrite gray_to_binary_lxor.
    rewrite (gray_to_binary_unfold n) at 1.
    now rewrite N.lxor_assoc, N.lxor_nilpotent, N.lxor_0_r.
  - rewrite gray_to_binary_shiftr.
    rewrite (gray_to_binary_unfold n) at 1.
    now rewrite N.lxor_assoc, N.lxor_nilpotent, N.lxor_0_r.
Qed.

(** ** The reference amplitude 0 *)

Lemma d_as_indicator (size : nat) (r : Np.vector) (A : Q) (i : nat) :
  Spec.d_ size r A i
  = fold_right Qplus 0%Q
      (map (fun j => let x := (nth j r 0 - (if j =? i then A else 0))%Q in (x * x)%Q)
           (seq 0 size)).
Proof.
  unfold Spec.d_. f_equal. apply map_ext_in. intros j Hj.
  apply in_seq in Hj. unfold Spec.s_.
  now rewrite (nth_map_seq _ 0%Q size j) by lia.
Qed.

Lemma sum_indicator (f : nat -> Q) (A : Q) (i a n : nat) :
  (fold_right Qplus 0
     (map (fun j => let x := f j - (if j =? i then A else 0) in x * x) (seq a n))
   == fold_right Qplus 0 (map (fun j => f j * f j) (seq a n))
      + (if (a <=? i) && (i <? a + n) then A * A - 2 * A * f i else 0))%Q.
Proof.
  revert a; induction n as [|n IH]; intros a.
  - simpl. replace (i <? a + 0) with (i <? a) by (f_equal; lia).
    destruct (Nat.leb_spec a i), (Nat.ltb_spec i a); simpl; try lia; ring.
  - cbn [seq map fold_right]. rewrite IH. cbv zeta.
    destruct (Nat.eqb_spec a i) as [->|Hne].
    + destruct (Nat.leb_spec (S i) i); [lia|].
      destruct (Nat.leb_spec i i); [|lia].
      destruct (Nat.ltb_spec i (i + S n)); [|lia].
      simpl. ring.
    + destruct (Nat.leb_spec (S a) i), (Nat.leb_spec a i),
               (Nat.ltb_spec i (S a + n)), (Nat.ltb_spec i (a + S n));
        simpl; try lia; ring.
Qed.

(** The distance to the candidate [i] is the energy of the row, plus the
    square of [A], minus twice [A] times the component [i]. *)
Lemma d_expand (size : nat) (r : Np.vector) (A : Q) (i : nat) :
  i < size ->
  (Spec.d_ size r A i == Spec.energy size r + (A * A - 2 * A * nth i r 0))%Q.
Proof.
  intros Hi. rewrite d_as_indicator.
  rewrite (sum_indicator (fun j => nth j r 0%Q) A i 0 size).
  destruct (Nat.leb_spec 0 i); [|lia].
  destruct (Nat.ltb_spec i (0 + size)); [|simpl in *; lia].
  reflexivity.
Qed.

Lemma detect_zero_amplitude (size : nat) (r : Np.vector) :
  0 < size -> List.length r = size -> Demodulador.detect size 0 r = Ok 0.
Proof.
  intros Hs Hr.
  destruct (detect_spec size 0 r Hs Hr) as (k & Hk & Hkl & _ & Hfirst).
  rewrite Hk. f_equal.
  destruct k as [|k]; [reflexivity|exfalso].
  assert (H0 : 0 < S k) by lia.
  specialize (Hfirst 0 H0).
  rewrite (d_expand size r 0 (S k) Hkl), (d_expand size r 0 0 Hs) in Hfirst.
  lra.
Qed.

(** X3. With the reference amplitude 0 every candidate is at the same
    distance of a row, and the detector answers the symbol 0 for every row
    of the width of the constellation, whatever was received. *)
Theorem detector_zero_amplitude (s : Spec.scheme) (m : Np.matrix) :
  Forall (fun r => List.length r = Spec.constellationSize s) m ->
  Demodulador.demodulate_bayes (Spec.demodulator s) m 0
  = Ok (repeat 0 (List.length m)).
Proof.
  rewrite demodulate_bayes_scheme. unfold Demodulador.demodulate_bayes_of.
  induction 1 as [|r m Hr _ IH]; [reflexivity|].
  cbn [mapM List.length repeat].
  rewrite (detect_zero_amplitude _ r (scheme_size_pos s) Hr). cbn [bind].
  now rewrite IH.
Qed.

Lemma detector_zero_amplitude_witness :
  Demodulador.demodulate_bayes Demodulador.FSK8Demodulator
    [[0; 0; 0; 0; 0; 0; 0; 1]%Q; [0; 0; 9; 0; 0; 0; 0; 0]%Q] 0 = Ok [0; 0].
Proof.
  apply (detector_zero_amplitude Spec.FSK8
           [[0; 0; 0; 0; 0; 0; 0; 1]%Q; [0; 0; 9; 0; 0; 0; 0; 0]%Q]).
  repeat constructor.
Defined.

(** ** What a modulator hands over *)

Lemma mapM_inv {A B : Type} (f : A -> result B) (l : list A) (bs : list B) :
  mapM f l = Ok bs -> Forall2 (fun a b => f a = Ok b) l bs.
Proof.
  revert bs; induction l as [|a t IH]; simpl; intros bs H.
  - inversion H. constructor.
  - destruct (f a) as [b|] eqn:Ea; simpl in H; [|discriminate].
    destruct (mapM f t) as [bs'|]; simpl in H; [|discriminate].
    inversion H; subst. constructor; auto.
Qed.

Lemma one_hot_matrix_rows (size : nat) (symbols : list N) (rows : Np.matrix) :
  Modulador.one_hot_matrix size symbols = Ok rows ->
  List.length rows = List.length symbols /\
  Forall (fun row => exists k, k < size /\ row = Spec.s_ size k 1) rows.
Proof.
  unfold Modulador.one_hot_matrix. intros H.
  split; [exact (mapM_length _ _ _ H)|].
  apply mapM_inv in H.
  induction H as [|symbol row symbols rows Hrow _ IH]; constructor; [|exact IH].
  exists (N.to_nat symbol).
  unfold Np.set_item, Np.zeros in Hrow. rewrite repeat_length in Hrow.
  destruct (Nat.ltb_spec (N.to_nat symbol) size) as [Hlt|]; [|discriminate].
  split; [exact Hlt|].
  pose proof (set_item_zeros size (N.to_nat symbol) 1 Hlt) as Hs.
  unfold Np.set_item, Np.zeros in Hs. rewrite repeat_length in Hs.
  destruct (Nat.ltb_spec (N.to_nat symbol) size); [|lia].
  congruence.
Qed.

Lemma length_concat_uniform {A : Type} (B : nat) (cs : list (list A)) :
  Forall (fun g => List.length g = B) cs ->
  List.length (List.concat cs) = List.length cs * B.
Proof.
  induction 1 as [|g cs Hg _ IH]; [reflexivity|].
  cbn [List.concat List.length]. rewrite length_app, IH, Hg. lia.
Qed.

Lemma chunks_count {A : Type} (B : nat) (l : list A) :
  0 < B -> List.length l mod B = 0 ->
  List.length (Py.chunks B l) * B = List.length l.
Proof.
  intros HB Hmod.
  assert (Hlen : List.length l = (List.length l / B) * B)
    by (pose proof (Nat.div_mod_eq (List.length l) B); lia).
  destruct (chunks_upto_spec B _ HB l (List.length l) Hlen (le_n _)) as (Hf & Hc).
  unfold Py.chunks.
  rewrite <- (length_concat_uniform B _ Hf). now rewrite Hc.
Qed.

Ltac invert_bind H :=
  repeat match type of H with
         | bind ?c _ = Ok _ =>
             let E := fresh "E" in
             destruct c eqn:E; cbn [bind] in H; [|discriminate H]
         end.

(** X5. Whatever list of non-negative integers a modulator accepts, its
    result can be handed to the demodulator: the tag it records selects the
    demodulator of the same scheme, the padding is smaller than a symbol,
    the matrix has one row per group of [bits_per_symbol] framed bits, and
    every row is a one-hot vector of the width of the constellation. *)
Theorem modulate_result_wellformed (s : Spec.scheme) (bits : list N)
        (r : Modulador.modulation_result) :
  Modulador.modulate (Spec.modulator s) bits = Ok r ->
  Py.get String.eqb Demodulador.demodulators (Modulador.modulation_type r)
  = Ok (Spec.demodulator s) /\
  Modulador.constellation_size r = Spec.constellationSize s /\
  Modulador.get_constellation_size (Spec.modulator s) = Spec.constellationSize s /\
  Modulador.bits_per_symbol (Spec.modulator s) = Spec.bitsPerSymbol s /\
  Modulador.padding r < Spec.bitsPerSymbol s /\
  List.length (Modulador.modulated_signal r) * Spec.bitsPerSymbol s
  = List.length bits + Modulador.padding r /\
  Forall (fun row => exists k, k < Spec.constellationSize s /\
                               row = Spec.s_ (Spec.constellationSize s) k 1)
         (Modulador.modulated_signal r).
Proof.
  intros H.
  destruct (apply_padding_spec (Spec.bitsPerSymbol s) bits)
    as (p & Hp & _ & Hmod & Hlt).
  { destruct s; unfold Spec.bitsPerSymbol; simpl; lia. }
  assert (Hcount := chunks_count (Spec.bitsPerSymbol s) (bits ++ repeat 0%N p)
                                 ltac:(destruct s; unfold Spec.bitsPerSymbol; simpl; lia)
                                 Hmod).
  rewrite length_app, repeat_length in Hcount.
  destruct s.
  - change (Spec.bitsPerSymbol Spec.FSK8) with 3 in *.
    change (Modulador.modulate (Spec.modulator Spec.FSK8) bits)
      with (Modulador.FSK8_modulate bits) in H.
    unfold Modulador.FSK8_modulate in H. rewrite Hp in H. cbn [bind] in H.
    invert_bind H. injection H as <-. cbn.
    destruct (one_hot_matrix_rows _ _ _ E1) as (Hrows & Hone).
    apply mapM_length in E. rewrite length_map in Hrows.
    repeat split; auto; lia.
  - change (Spec.bitsPerSymbol Spec.QAM16) with 4 in *.
    change (Modulador.modulate (Spec.modulator Spec.QAM16) bits)
      with (Modulador.QAM16_modulate bits) in H.
    unfold Modulador.QAM16_modulate in H. rewrite Hp in H. cbn [bind] in H.
    invert_bind H. injection H as <-. cbn.
    destruct (one_hot_matrix_rows _ _ _ E0) as (Hrows & Hone).
    apply mapM_length in E. rewrite length_map in Hrows.
    repeat split; auto; lia.
  - change (Spec.bitsPerSymbol Spec.PSK8) with 3 in *.
    change (Modulador.modulate (Spec.modulator Spec.PSK8) bits)
      with (Modulador.PSK8_modulate bits) in H.
    unfold Modulador.PSK8_modulate in H. rewrite Hp in H. cbn [bind] in H.
    invert_bind H. injection H as <-. cbn.
    destruct (one_hot_matrix_rows _ _ _ E2) as (Hrows & Hone).
    apply mapM_length in E. apply mapM_length in E0.
    repeat split; auto; lia.
Qed.

Lemma modulate_result_wellformed_witness :
  exists r,
    Modulador.modulate Modulador.FSK8Modulator [0; 0; 10; 1]%N = Ok r /\
    Modulador.padding r = 2 /\
    List.length (Modulador.modulated_signal r) * 3 = 4 + 2 /\
    Forall (fun row => exists k, k < 8 /\ row = Spec.s_ 8 k 1)
           (Modulador.modulated_signal r).
Proof.
  eexists. split; [vm_compute; reflexivity|].
  destruct (modulate_result_wellformed Spec.FSK8 [0; 0; 10; 1]%N _
              ltac:(vm_compute; reflexivity))
    as (_ & _ & _ & _ & _ & H6 & H7).
  split; [reflexivity|]. split; [exact H6|exact H7].
Defined.

(** ** Lists that are not bitstreams *)

Lemma list_ascii_of_string_app (a b : string) :
  list_ascii_of_string (a ++ b)
  = (list_ascii_of_string a ++ list_ascii_of_string b)%list.
Proof.
  induction a as [|c a IH]; simpl; [reflexivity|]. now rewrite IH.
Qed.

Lemma join_chars (g : list N) :
  list_ascii_of_string (Py.join (map Py.str g))
  = flat_map (fun b => list_ascii_of_string (Py.str b)) g.
Proof.
  induction g as [|b g IH]; [reflexivity|].
  cbn [map Py.join fold_right flat_map].
  rewrite list_ascii_of_string_app. f_equal. exact IH.
Qed.

Lemma forallb_flat_map_false {A B : Type} (p : B -> bool) (f : A -> list B)
      (l : list A) (a : A) :
  In a l -> forallb p (f a) = false -> forallb p (flat_map f l) = false.
Proof.
  intros Hin Hf. induction l as [|x l IH]; [contradiction|].
  cbn [flat_map]. rewrite forallb_app.
  destruct Hin as [->|Hin].
  - now rewrite Hf.
  - rewrite (IH Hin). apply andb_false_r.
Qed.

Lemma non_binary_digit (b : N) :
  (2 <= b <= 9)%N ->
  forallb Py.is_binary_digit (list_ascii_of_string (Py.str b)) = false.
Proof.
  intros Hb.
  assert (H : (b = 2 \/ b = 3 \/ b = 4 \/ b = 5 \/ b = 6 \/ b = 7 \/ b = 8 \/ b = 9)%N)
    by lia.
  repeat (destruct H as [H|H]; [subst b; reflexivity|]).
  subst b; reflexivity.
Qed.

Lemma non_binary_key (g : list N) (b : N) :
  In b g -> (2 <= b <= 9)%N ->
  forallb Py.is_binary_digit (list_ascii_of_string (Py.join (map Py.str g)))
  = false.
Proof.
  intros Hin Hb. rewrite join_chars.
  apply (forallb_flat_map_false _ _ g b Hin). now apply non_binary_digit.
Qed.

Lemma decimal_value_rejects (g : list N) (b : N) :
  In b g -> (2 <= b <= 9)%N -> Modulador.decimal_value g = Raise ValueError.
Proof.
  intros Hin Hb. unfold Modulador.decimal_value, Py.int_base2.
  rewrite (non_binary_key g b Hin Hb).
  now destruct (list_ascii_of_string _).
Qed.

Lemma decimal_value_error (g : list N) (e : pyerror) :
  Modulador.decimal_value g = Raise e -> e = ValueError.
Proof.
  unfold Modulador.decimal_value, Py.int_base2.
  destruct (list_ascii_of_string _); [congruence|].
  destruct (forallb _ _); congruence.
Qed.

Lemma get_error {K V : Type} (eqb : K -> K -> bool) (d : Py.dict K V) (k : K)
      (e : pyerror) :
  Py.get eqb d k = Raise e -> e = KeyError.
Proof.
  induction d as [|[k' v] d IH]; simpl; [congruence|].
  destruct (eqb k' k); [discriminate|exact IH].
Qed.

Lemma qam16_key_binary (key : string) (iq : Z * Z) :
  Py.get String.eqb Modulador.gray_symbol_map key = Ok iq ->
  forallb Py.is_binary_digit (list_ascii_of_string key) = true.
Proof.
  let v := eval vm_compute in Modulador.gray_symbol_map in
  change Modulador.gray_symbol_map with v.
  cbn [Py.get].
  repeat match goal with
         | |- context [String.eqb ?a key] =>
             destruct (String.eqb_spec a key); [subst key; reflexivity|]
         end.
  discriminate.
Qed.

Lemma qam16_symbol_rejects (g : list N) (b : N) :
  In b g -> (2 <= b <= 9)%N -> Modulador.QAM16_symbol g = Raise KeyError.
Proof.
  intros Hin Hb. unfold Modulador.QAM16_symbol.
  destruct (Py.get String.eqb Modulador.gray_symbol_map _) as [iq|e] eqn:E.
  - apply qam16_key_binary in E. rewrite (non_binary_key g b Hin Hb) in E.
    discriminate.
  - apply get_error in E. now subst e.
Qed.

Lemma qam16_symbol_error (g : list N) (e : pyerror) :
  Modulador.QAM16_symbol g = Raise e -> e = KeyError.
Proof.
  unfold Modulador.QAM16_symbol.
  destruct (Py.get String.eqb Modulador.gray_symbol_map _) as [iq|e1] eqn:E1;
    cbn [bind].
  - destruct (Py.get String.eqb Modulador.symbol_to_index _) as [i|e2] eqn:E2;
      cbn [bind]; [discriminate|].
    intros H. injection H as <-. now apply get_error in E2.
  - intros H. injection H as <-. now apply get_error in E1.
Qed.

(** A loop stops at its first exception: when every exception of the body is
    [e] and some item raises, the loop raises [e]. *)
Lemma mapM_raises {A B : Type} (f : A -> result B) (l : list A) (a : A)
      (e : pyerror) :
  (forall x e', f x = Raise e' -> e' = e) ->
  In a l -> f a = Raise e -> mapM f l = Raise e.
Proof.
  intros Hall Hin Ha. induction l as [|x l IH]; [contradiction|].
  cbn [mapM]. destruct (f x) as [y|e'] eqn:Ex; cbn [bind].
  - destruct Hin as [->|Hin]; [congruence|]. now rewrite (IH Hin).
  - now rewrite (Hall x e' Ex).
Qed.

Lemma in_padded_chunk (B : nat) (bits : list N) (p : nat) (b : N) :
  0 < B -> List.length (bits ++ repeat 0%N p) mod B = 0 -> In b bits ->
  exists g, In g (Py.chunks B (bits ++ repeat 0%N p)) /\ In b g.
Proof.
  intros HB Hmod Hin.
  assert (Hlen : List.length (bits ++ repeat 0%N p)
                 = (List.length (bits ++ repeat 0%N p) / B) * B)
    by (pose proof (Nat.div_mod_eq (List.length (bits ++ repeat 0%N p)) B); lia).
  destruct (chunks_upto_spec B _ HB _ _ Hlen (le_n _)) as (_ & Hc).
  assert (Hb : In b (List.concat (Py.chunks B (bits ++ repeat 0%N p)))).
  { unfold Py.chunks. rewrite Hc. apply in_or_app. now left. }
  apply in_concat in Hb. destruct Hb as (g & Hg & Hbg). exists g; auto.
Qed.

(** X6. A list of decimal digits (integers 0..9) that holds one of the
    digits 2..9 is refused by every modulator before any symbol is
    produced: 8FSK and 8PSK raise [ValueError] (the group is not a binary
    numeral), 16QAM raises [KeyError] (the group is not a key of the
    table). *)
Theorem malformed_bitstream_rejected (s : Spec.scheme) (bits : list N) (b : N) :
  Forall (fun d => (d <= 9)%N) bits ->
  In b bits -> (2 <= b <= 9)%N ->
  Modulador.modulate (Spec.modulator s) bits
  = Raise (match s with Spec.QAM16 => KeyError | _ => ValueError end).
Proof.
  intros _ Hin Hb.
  assert (HB : 0 < Spec.bitsPerSymbol s)
    by (destruct s; unfold Spec.bitsPerSymbol; simpl; lia).
  destruct (apply_padding_spec (Spec.bitsPerSymbol s) bits)
    as (p & Hp & _ & Hmod & _); [lia|].
  destruct (in_padded_chunk _ bits p b HB Hmod Hin) as (g & Hg & Hbg).
  destruct s.
  - change (Spec.bitsPerSymbol Spec.FSK8) with 3 in *.
    change (Modulador.modulate (Spec.modulator Spec.FSK8) bits)
      with (Modulador.FSK8_modulate bits).
    unfold Modulador.FSK8_modulate. rewrite Hp. cbn [bind].
    rewrite (mapM_raises Modulador.decimal_value _ g ValueError
                         decimal_value_error Hg
                         (decimal_value_rejects g b Hbg Hb)).
    reflexivity.
  - change (Spec.bitsPerSymbol Spec.QAM16) with 4 in *.
    change (Modulador.modulate (Spec.modulator Spec.QAM16) bits)
      with (Modulador.QAM16_modulate bits).
    unfold Modulador.QAM16_modulate. rewrite Hp. cbn [bind].
    rewrite (mapM_raises Modulador.QAM16_symbol _ g KeyError
                         qam16_symbol_error Hg
                         (qam16_symbol_rejects g b Hbg Hb)).
    reflexivity.
  - change (Spec.bitsPerSymbol Spec.PSK8) with 3 in *.
    change (Modulador.modulate (Spec.modulator Spec.PSK8) bits)
      with (Modulador.PSK8_modulate bits).
    unfold Modulador.PSK8_modulate. rewrite Hp. cbn [bind].
    rewrite (mapM_raises Modulador.decimal_value _ g ValueError
                         decimal_value_error Hg
                         (decimal_value_rejects g b Hbg Hb)).
    reflexivity.
Qed.

Lemma malformed_bitstream_rejected_witness :
  Modulador.modulate Modulador.QAM16Modulator [1; 0; 1; 1; 0; 7]%N
  = Raise KeyError /\
  Modulador.modulate Modulador.PSK8Modulator [1; 0; 1; 1; 0; 7]%N
  = Raise ValueError.
Proof.
  split.
  - apply (malformed_bitstream_rejected Spec.QAM16 [1; 0; 1; 1; 0; 7]%N 7%N).
    + repeat (constructor; [lia|]). constructor.
    + simpl; auto 10.
    + lia.
  - apply (malformed_bitstream_rejected Spec.PSK8 [1; 0; 1; 1; 0; 7]%N 7%N).
    + repeat (constructor; [lia|]). constructor.
    + simpl; auto 10.
    + lia.
Defined.

(** ** Framing and its removal *)

(** X7. For every list and every positive number of bits per symbol,
    [remove_padding] undoes [apply_padding]: the padded list cut by the
    recorded padding is the list that was given.  A number of bits per
    symbol of 0 makes [apply_padding] fail with [ZeroDivisionError]. *)
Theorem padding_round_trip (B : nat) (bits : list N) :
  (B = 0 -> Modulador.apply_padding B bits = Raise ZeroDivisionError) /\
  (0 < B ->
   exists padded p,
     Modulador.apply_padding B bits = Ok (padded, p) /\
     List.length padded = List.length bits + p /\
     Demodulador.remove_padding padded p = bits).
Proof.
  split.
  - intros ->. reflexivity.
  - intros HB.
    destruct (apply_padding_spec B bits) as (p & Hp & _ & _ & _); [lia|].
    exists (bits ++ repeat 0%N p), p.
    split; [exact Hp|]. split.
    + now rewrite length_app, repeat_length.
    + apply remove_padding_padded.
Qed.

Lemma padding_round_trip_witness :
  Modulador.apply_padding 0 [1; 1]%N = Raise ZeroDivisionError /\
  exists padded p,
    Modulador.apply_padding 5 [1; 1; 0; 7; 1; 0; 1]%N = Ok (padded, p) /\
    List.length padded = 7 + p /\
    Demodulador.remove_padding padded p = [1; 1; 0; 7; 1; 0; 1]%N.
Proof.
  split.
  - apply (proj1 (padding_round_trip 0 [1; 1]%N)). reflexivity.
  - apply (proj2 (padding_round_trip 5 [1; 1; 0; 7; 1; 0; 1]%N)). lia.
Defined.

(** ** The modulation tag *)

Lemma mem_keys {K V : Type} (eqb : K -> K -> bool) (d : Py.dict K V) (k : K) :
  Py.mem eqb d k = existsb (fun k' => eqb k' k) (Py.keys d).
Proof.
  unfold Py.mem, Py.keys. induction d as [|[k' v] d IH]; [reflexivity|].
  cbn [existsb map fst]. now rewrite IH.
Qed.

(** X8. [demodulate_signal] refuses every tag other than 8FSK, 16QAM and
    8PSK with [ValueError], before it looks at the received matrix. *)
Theorem unsupported_modulation_type (m : Np.matrix) (t : string) (A : Q) :
  t <> "8FSK"%string -> t <> "16QAM"%string -> t <> "8PSK"%string ->
  Demodulador.demodulate_signal m t A = Raise ValueError.
Proof.
  intros H1 H2 H3. unfold Demodulador.demodulate_signal.
  assert (Hmem : Py.mem String.eqb Demodulador.demodulators t = false).
  { rewrite mem_keys.
    change (Py.keys Demodulador.demodulators)
      with ["8FSK"; "16QAM"; "8PSK"]%string.
    cbn [existsb].
    destruct (String.eqb_spec "8FSK" t); [congruence|].
    destruct (String.eqb_spec "16QAM" t); [congruence|].
    destruct (String.eqb_spec "8PSK" t); [congruence|].
    reflexivity. }
  now rewrite Hmem.
Qed.

Lemma unsupported_modulation_type_witness :
  Demodulador.demodulate_signal [[1; 0; 0; 0; 0; 0; 0; 0]%Q] "8fsk" 1
  = Raise ValueError.
Proof.
  apply unsupported_modulation_type; discriminate.
Defined.

(** ** Regrouping the demodulated bits into codes *)

Lemma chunks_upto_nil {A : Type} (fuel n : nat) :
  Py.chunks_upto fuel n (@nil A) = [].
Proof. destruct fuel; reflexivity. Qed.

Lemma firstn_exact {A : Type} (g rest : list A) (n : nat) :
  List.length g = n -> firstn n (g ++ rest) = g.
Proof.
  intros <-. induction g as [|a g IH]; simpl; [reflexivity|now rewrite IH].
Qed.

Lemma skipn_exact {A : Type} (g rest : list A) (n : nat) :
  List.length g = n -> skipn n (g ++ rest) = rest.
Proof.
  intros <-. induction g as [|a g IH]; simpl; [reflexivity|exact IH].
Qed.

Lemma chunks_upto_app_tail {A : Type} (n : nat) (gs : list (list A))
      (tail : list A) (fuel : nat) :
  0 < n ->
  Forall (fun g => List.length g = n) gs ->
  List.length tail < n ->
  List.length (List.concat gs ++ tail) <= fuel ->
  Py.chunks_upto fuel n (List.concat gs ++ tail)
  = (gs ++ match tail with [] => [] | _ => [tail] end)%list.
Proof.
  intros Hn Hgs Htail. revert fuel.
  induction Hgs as [|g gs Hg _ IH]; intros fuel Hfuel.
  - cbn [List.concat app].
    destruct tail as [|a tail]; [apply chunks_upto_nil|].
    destruct fuel as [|fuel]; [simpl in Hfuel; lia|].
    cbn [Py.chunks_upto].
    rewrite firstn_all2 by lia. rewrite skipn_all2 by lia.
    now rewrite chunks_upto_nil.
  - cbn [List.concat] in *. rewrite <- app_assoc in *.
    rewrite length_app in Hfuel.
    destruct fuel as [|fuel]; [lia|].
    assert (Hne : exists a rest, (g ++ List.concat gs ++ tail)%list = a :: rest).
    { destruct g as [|a g]; [simpl in Hg; lia|]. simpl. eauto. }
    destruct Hne as (a & rest & Hne).
    cbn [Py.chunks_upto]. rewrite Hne. rewrite <- Hne.
    rewrite (firstn_exact g _ n Hg), (skipn_exact g _ n Hg).
    rewrite IH by lia. reflexivity.
Qed.

Lemma join_complete_groups (n : nat) (gs : list (list string)) (tail : list string) :
  Forall (fun g => List.length g = n) gs ->
  List.length tail < n ->
  Comparacion.join_complete n (gs ++ match tail with [] => [] | _ => [tail] end)
  = map Py.join gs.
Proof.
  intros Hgs Htail.
  induction Hgs as [|g gs Hg _ IH].
  - destruct tail as [|a tail]; [reflexivity|].
    cbn [app Comparacion.join_complete].
    destruct (Nat.eqb_spec (List.length (a :: tail)) n); [lia|reflexivity].
  - cbn [app Comparacion.join_complete map].
    rewrite Hg, Nat.eqb_refl. now rewrite IH.
Qed.

Lemma join_app (a b : list string) :
  Py.join (a ++ b) = (Py.join a ++ Py.join b)%string.
Proof.
  unfold Py.join. induction a as [|x a IH]; [reflexivity|].
  cbn [app fold_right]. rewrite IH.
  clear IH. induction x as [|c x IHx]; [reflexivity|].
  cbn [append]. now rewrite IHx.
Qed.

Lemma join_concat (gs : list (list string)) :
  Py.join (map Py.join gs) = Py.join (List.concat gs).
Proof.
  induction gs as [|g gs IH]; [reflexivity|].
  cbn [map List.concat]. rewrite join_app, <- IH. reflexivity.
Qed.

(** The groups of [reconstruct_voice_format], for a positive count. *)
Lemma reconstruct_groups (bits : list string) (n : nat) :
  0 < n ->
  exists gs,
    List.concat gs = firstn (n * (List.length bits / n)) bits /\
    Forall (fun g => List.length g = n) gs /\
    List.length gs = List.length bits / n /\
    Comparacion.reconstruct_voice_format bits (Some n) = Ok (map Py.join gs).
Proof.
  intros Hn.
  set (q := List.length bits / n).
  pose proof (Nat.div_mod_eq (List.length bits) n) as Hdm. fold q in Hdm.
  pose proof (Nat.mod_upper_bound (List.length bits) n ltac:(lia)) as Hr.
  set (body := firstn (n * q) bits).
  set (tail := skipn (n * q) bits).
  assert (Hbody : List.length body = q * n)
    by (unfold body; rewrite length_firstn; lia).
  assert (Htail : List.length tail < n)
    by (unfold tail; rewrite length_skipn; lia).
  destruct (chunks_upto_spec n q Hn body (List.length body) Hbody (le_n _))
    as (Hf & Hc).
  set (gs := Py.chunks_upto (List.length body) n body) in *.
  exists gs.
  split; [exact Hc|]. split; [exact Hf|]. split.
  - pose proof (length_concat_uniform n gs Hf) as Hl. rewrite Hc, Hbody in Hl. nia.
  - unfold Comparacion.reconstruct_voice_format.
    destruct n as [|n']; [lia|]. f_equal.
    unfold Py.chunks.
    rewrite <- (firstn_skipn (S n' * q) bits) at 2.
    fold body. fold tail. rewrite <- Hc.
    rewrite (chunks_upto_app_tail (S n') gs tail) by
        (try exact Hf; try exact Htail; try lia;
         rewrite Hc; unfold body, tail; rewrite firstn_skipn; lia).
    now apply join_complete_groups.
Qed.

Lemma join_chars_of (c : string) :
  Py.join (map (fun ch => String ch EmptyString) (list_ascii_of_string c)) = c.
Proof.
  induction c as [|ch c IH]; [reflexivity|].
  cbn [list_ascii_of_string map]. unfold Py.join in *. cbn [fold_right append].
  now rewrite IH.
Qed.

Lemma length_list_ascii (c : string) :
  List.length (list_ascii_of_string c) = String.length c.
Proof. induction c as [|ch c IH]; simpl; [reflexivity|now rewrite IH]. Qed.

(** X9. [reconstruct_voice_format] refuses a missing or zero count with
    [ValueError].  For a positive count n it returns len(bits) // n codes,
    whose concatenation is that of the first n * (len(bits) // n) bits: the
    incomplete last group is dropped.  It inverts the flattening of codes
    into one-character bits: codes that all have n characters come back
    unchanged. *)
Theorem reconstruct_voice_format_spec (bits : list string) (n : nat) :
  Comparacion.reconstruct_voice_format bits None = Raise ValueError /\
  Comparacion.reconstruct_voice_format bits (Some 0) = Raise ValueError /\
  (0 < n ->
   exists codes,
     Comparacion.reconstruct_voice_format bits (Some n) = Ok codes /\
     List.length codes = List.length bits / n /\
     Py.join codes = Py.join (firstn (n * (List.length bits / n)) bits)) /\
  (0 < n ->
   forall codes,
     Forall (fun c => String.length c = n) codes ->
     bits = flat_map (fun c => map (fun ch => String ch EmptyString)
                                   (list_ascii_of_string c)) codes ->
     Comparacion.reconstruct_voice_format bits (Some n) = Ok codes).
Proof.
  split; [reflexivity|]. split; [reflexivity|]. split.
  - intros Hn.
    destruct (reconstruct_groups bits n Hn) as (gs & Hc & Hf & Hl & Hrun).
    exists (map Py.join gs). split; [exact Hrun|]. split.
    + now rewrite length_map.
    + now rewrite join_concat, Hc.
  - intros Hn codes Hcodes ->.
    unfold Comparacion.reconstruct_voice_format.
    destruct n as [|n']; [lia|]. f_equal.
    unfold Py.chunks. rewrite flat_map_concat_map.
    set (gs := map (fun c => map (fun ch => String ch EmptyString)
                                 (list_ascii_of_string c)) codes).
    assert (Hgs : Forall (fun g => List.length g = S n') gs).
    { unfold gs. apply Forall_map. eapply Forall_impl; [|exact Hcodes].
      intros c Hc. cbv beta. now rewrite length_map, length_list_ascii. }
    rewrite <- (app_nil_r (List.concat gs)).
    rewrite (chunks_upto_app_tail (S n') gs []) by (simpl; auto; lia).
    rewrite (join_complete_groups (S n') gs []) by (simpl; auto; lia).
    unfold gs. rewrite map_map.
    rewrite <- (map_id codes) at 2. apply map_ext. intros c. apply join_chars_of.
Qed.

Lemma reconstruct_voice_format_spec_witness :
  Comparacion.reconstruct_voice_format
    ["1"; "0"; "1"; "1"; "1"; "0"; "0"]%string (Some 3)
  = Ok ["101"; "110"]%string /\
  exists codes,
    Comparacion.reconstruct_voice_format
      ["1"; "0"; "1"; "1"; "1"; "0"; "0"]%string (Some 2) = Ok codes /\
    List.length codes = 3.
Proof.
  split.
  - destruct (reconstruct_voice_format_spec
                ["1"; "0"; "1"; "1"; "1"; "0"; "0"]%string 3)
      as (_ & _ & H & _).
    destruct (H ltac:(lia)) as (codes & Hrun & _ & _).
    rewrite Hrun. vm_compute in Hrun. symmetry. exact Hrun.
  - destruct (reconstruct_voice_format_spec
                ["1"; "0"; "1"; "1"; "1"; "0"; "0"]%string 2)
      as (_ & _ & H & _).
    destruct (H ltac:(lia)) as (codes & Hrun & Hlen & _).
    exists codes. split; [exact Hrun|exact Hlen].
Defined.

(** ** The comparison of two sequences of codes *)

Lemma differing_bits_le (a b : string) :
  Comparacion.differing_bits a b <= String.length a.
Proof.
  unfold Comparacion.differing_bits.
  eapply Nat.le_trans; [apply filter_length_le|].
  rewrite length_combine, length_list_ascii. lia.
Qed.

Lemma differing_bits_same (a : string) : Comparacion.differing_bits a a = 0.
Proof.
  unfold Comparacion.differing_bits.
  induction (list_ascii_of_string a) as [|c l IH]; [reflexivity|].
  cbn [combine filter fst snd]. now rewrite Ascii.eqb_refl.
Qed.

Lemma compare_step_fields (o d : list string) (c0 : Comparacion.counters)
      (a : nat) :
  let differs := negb (String.eqb (nth a o EmptyString) (nth a d EmptyString)) in
  let c := Comparacion.compare_step o d c0 a in
  Comparacion.c_errores_por_codigo c
  = Comparacion.c_errores_por_codigo c0 + (if differs then 1 else 0) /\
  Comparacion.c_codigos_erroneos c
  = (Comparacion.c_codigos_erroneos c0
     ++ if differs
        then [{| Comparacion.posicion := a;
                 Comparacion.original := nth a o EmptyString;
                 Comparacion.demodulado := nth a d EmptyString |}]
        else [])%list /\
  Comparacion.c_total_bits c
  = Comparacion.c_total_bits c0 + String.length (nth a o EmptyString) /\
  Comparacion.c_errores_por_bit c
  = Comparacion.c_errores_por_bit c0
    + Comparacion.differing_bits (nth a o EmptyString) (nth a d EmptyString).
Proof.
  unfold Comparacion.compare_step. cbn.
  destruct (negb _); rewrite ?app_nil_r; repeat split; lia.
Qed.

(** The state of the comparison loop after the positions [a .. a+n-1]. *)
Lemma compare_loop (o d : list string) (n a : nat) (c0 : Comparacion.counters) :
  let differs i := negb (String.eqb (nth i o EmptyString) (nth i d EmptyString)) in
  let c := fold_left (Comparacion.compare_step o d) (seq a n) c0 in
  Comparacion.c_errores_por_codigo c
  = Comparacion.c_errores_por_codigo c0 + List.length (filter differs (seq a n)) /\
  Comparacion.c_codigos_erroneos c
  = (Comparacion.c_codigos_erroneos c0
     ++ map (fun i => {| Comparacion.posicion := i;
                         Comparacion.original := nth i o EmptyString;
                         Comparacion.demodulado := nth i d EmptyString |})
            (filter differs (seq a n)))%list /\
  Comparacion.c_total_bits c
  = Comparacion.c_total_bits c0
    + list_sum (map (fun i => String.length (nth i o EmptyString)) (seq a n)) /\
  Comparacion.c_errores_por_bit c + Comparacion.c_total_bits c0
  <= Comparacion.c_errores_por_bit c0 + Comparacion.c_total_bits c /\
  (filter differs (seq a n) = [] ->
   Comparacion.c_errores_por_bit c = Comparacion.c_errores_por_bit c0).
Proof.
  intros differs. revert a c0.
  induction n as [|n IH]; intros a c0; cbn [seq fold_left filter map list_sum].
  - cbn. rewrite app_nil_r. repeat split; lia.
  - specialize (IH (S a) (Comparacion.compare_step o d c0 a)).
    cbv zeta in IH. destruct IH as (H1 & H2 & H3 & H4 & H5).
    destruct (compare_step_fields o d c0 a) as (F1 & F2 & F3 & F4).
    cbv zeta in F1, F2, F3, F4. fold (differs a) in F1, F2.
    assert (Hb := differing_bits_le (nth a o EmptyString) (nth a d EmptyString)).
    cbv zeta. rewrite H1, H2, H3, F1, F2, F3. rewrite F4, F3 in H4.
    rewrite F4 in H5.
    unfold list_sum in *. cbn [fold_right].
    destruct (differs a) eqn:Ea; cbn [List.length map app].
    + repeat split; try lia; try (now rewrite <- app_assoc);
        try (intros Hnil; discriminate Hnil).
    + rewrite app_nil_r. repeat split; try lia.
      intros Hnil. rewrite (H5 Hnil).
      unfold differs in Ea. apply negb_false_iff, String.eqb_eq in Ea.
      rewrite Ea, differing_bits_same. lia.
Qed.

(** X10. What [compare_bit_sequences] counts, over the first n = min of the
    two lengths codes: [errores_por_codigo] is the number of positions whose
    codes differ, [total_bits] the total length of the original codes,
    [errores_por_bit] is at most [total_bits], and [codigos_erroneos] lists
    the first ten differing positions, in order, with both codes. *)
Theorem compare_bit_sequences_counts (o d : list string) :
  let n := Nat.min (List.length o) (List.length d) in
  let bad := filter (fun i => negb (String.eqb (nth i o EmptyString)
                                               (nth i d EmptyString)))
                    (seq 0 n) in
  exists c,
    Comparacion.compare_bit_sequences o d = Ok c /\
    Comparacion.total_codigos c = n /\
    Comparacion.errores_por_codigo c = List.length bad /\
    Comparacion.errores_por_codigo c <= Comparacion.total_codigos c /\
    Comparacion.total_bits c
    = list_sum (map (fun i => String.length (nth i o EmptyString)) (seq 0 n)) /\
    Comparacion.errores_por_bit c <= Comparacion.total_bits c /\
    Comparacion.codigos_erroneos c
    = map (fun i => {| Comparacion.posicion := i;
                       Comparacion.original := nth i o EmptyString;
                       Comparacion.demodulado := nth i d EmptyString |})
          (firstn 10 bad).
Proof.
  intros n bad.
  destruct (compare_loop o d n 0
              {| Comparacion.c_errores_por_codigo := 0;
                 Comparacion.c_errores_por_bit := 0;
                 Comparacion.c_total_bits := 0;
                 Comparacion.c_codigos_erroneos := [] |})
    as (H1 & H2 & H3 & H4 & _).
  cbn [Comparacion.c_errores_por_codigo Comparacion.c_errores_por_bit
       Comparacion.c_total_bits Comparacion.c_codigos_erroneos app plus] in *.
  eexists. split; [reflexivity|].
  cbn [Comparacion.total_codigos Comparacion.errores_por_codigo
       Comparacion.total_bits Comparacion.errores_por_bit
       Comparacion.codigos_erroneos].
  fold n. rewrite H1, H2, H3. fold bad.
  split; [reflexivity|]. split; [reflexivity|]. split.
  - unfold bad. eapply Nat.le_trans; [apply filter_length_le|].
    now rewrite length_seq.
  - split; [reflexivity|]. split; [rewrite <- H3; lia|].
    now rewrite firstn_map.
Qed.

Lemma filter_nil_iff {A : Type} (f : A -> bool) (l : list A) :
  filter f l = [] <-> forall x, In x l -> f x = false.
Proof.
  induction l as [|a l IH]; cbn [filter].
  - split; [intros _ x []|reflexivity].
  - destruct (f a) eqn:Ea.
    + split; [discriminate|]. intros H. specialize (H a (or_introl eq_refl)).
      congruence.
    + rewrite IH. split.
      * intros H x [<-|Hx]; [exact Ea|now apply H].
      * intros H x Hx. apply H. now right.
Qed.

(** X11. [compare_bit_sequences] reports no erroneous code exactly when the
    two sequences agree on their first min(len, len) codes; the bit errors,
    the list of erroneous codes, the percentages and the symbol error
    probability are then all zero.  In particular a sequence compared with
    itself gives no error. *)
Theorem compare_bit_sequences_no_error (o d : list string) :
  let n := Nat.min (List.length o) (List.length d) in
  exists c,
    Comparacion.compare_bit_sequences o d = Ok c /\
    (Comparacion.errores_por_codigo c = 0 <->
     forall i, i < n -> nth i o EmptyString = nth i d EmptyString) /\
    (Comparacion.errores_por_codigo c = 0 ->
     Comparacion.errores_por_bit c = 0 /\
     Comparacion.codigos_erroneos c = [] /\
     (Comparacion.porcentaje_error_codigo c == 0)%Q /\
     (Comparacion.porcentaje_error_bit c == 0)%Q /\
     (Comparacion.relacion_error_bit c == 0)%Q /\
     (Comparacion.probabilidad_error_simbolo c == 0)%Q /\
     (Comparacion.porcentaje_error_simbolo c == 0)%Q).
Proof.
  intros n.
  destruct (compare_loop o d n 0
              {| Comparacion.c_errores_por_codigo := 0;
                 Comparacion.c_errores_por_bit := 0;
                 Comparacion.c_total_bits := 0;
                 Comparacion.c_codigos_erroneos := [] |})
    as (H1 & H2 & _ & _ & H5).
  cbn [Comparacion.c_errores_por_codigo Comparacion.c_errores_por_bit
       Comparacion.c_total_bits Comparacion.c_codigos_erroneos app plus] in *.
  eexists. split; [reflexivity|].
  cbn [Comparacion.total_codigos Comparacion.errores_por_codigo
       Comparacion.total_bits Comparacion.errores_por_bit
       Comparacion.codigos_erroneos Comparacion.porcentaje_error_codigo
       Comparacion.porcentaje_error_bit Comparacion.relacion_error_bit
       Comparacion.probabilidad_error_simbolo
       Comparacion.porcentaje_error_simbolo].
  fold n. split.
  - rewrite H1, length_zero_iff_nil, filter_nil_iff. split.
    + intros H i Hi. specialize (H i ltac:(apply in_seq; lia)).
      now apply negb_false_iff, String.eqb_eq in H.
    + intros H i Hi. apply in_seq in Hi.
      apply negb_false_iff, String.eqb_eq, H. lia.
  - intros H0. rewrite H0. rewrite H1 in H0.
    apply length_zero_iff_nil in H0.
    rewrite (H5 H0), H2, H0. cbn [map firstn].
    split; [reflexivity|]. split; [reflexivity|].
    unfold Comparacion.ratio. cbn [Z.of_nat inject_Z].
    repeat split;
      repeat match goal with
             | |- context [0 <? ?x] => destruct (0 <? x)
             end;
      cbn [Qpower_positive pow_pos]; unfold Qdiv; ring.
Qed.

Lemma compare_bit_sequences_no_error_witness :
  exists c,
    Comparacion.compare_bit_sequences ["101"; "110"]%string
                                      ["101"; "110"; "000"]%string = Ok c /\
    Comparacion.errores_por_bit c = 0 /\
    Comparacion.codigos_erroneos c = [].
Proof.
  destruct (compare_bit_sequences_no_error ["101"; "110"]%string
                                           ["101"; "110"; "000"]%string)
    as (c & Hc & Hiff & Hz).
  exists c. split; [exact Hc|].
  destruct Hz as (Hb & Hl & _).
  - apply Hiff. intros i Hi. simpl in Hi.
    do 2 (destruct i as [|i]; [reflexivity|]). lia.
  - split; [exact Hb|exact Hl].
Defined.

(** ** The channel at N0 = 0, and the shape of its output *)

(** X12. For a constellation of 8 or 16 points and N0 = 0 (of either sign)
    [calculate_snr_metrics] raises [ZeroDivisionError], so [main] saves
    nothing; for N0 = +0.0 the noise has already been added when the
    exception is raised. *)
Theorem channel_zero_N0 (np_log10 : float -> float) (draws : nat -> float)
        (signal : list (list Z)) (md : Canal.metadata) (N0 : float) :
  (Canal.constellation_size md = 8 \/ Canal.constellation_size md = 16)%N ->
  is_zero N0 = true ->
  Canal.calculate_snr_metrics np_log10 md N0 = Raise ZeroDivisionError /\
  (forall out, Canal.main np_log10 draws signal md N0 <> Ok out) /\
  (N0 = 0%float ->
   (exists out, Canal.add_awgn draws signal N0 = Ok out) /\
   Canal.main np_log10 draws signal md N0 = Raise ZeroDivisionError).
Proof.
  intros HM Hz.
  assert (Hcalc : Canal.calculate_snr_metrics np_log10 md N0
                  = Raise ZeroDivisionError).
  { unfold Canal.calculate_snr_metrics, Canal.py_div.
    destruct HM as [HM|HM]; rewrite HM.
    - change (Canal.int_log2 8) with (Ok 3%N). cbn [bind].
      change (Canal.float_of_int (Z.of_N 3)) with 3%float.
      change (is_zero 3%float) with false. cbv iota. cbn [bind].
      now rewrite Hz.
    - change (Canal.int_log2 16) with (Ok 4%N). cbn [bind].
      change (Canal.float_of_int (Z.of_N 4)) with 4%float.
      change (is_zero 4%float) with false. cbv iota. cbn [bind].
      now rewrite Hz. }
  split; [exact Hcalc|]. split.
  - intros out. unfold Canal.main.
    destruct (Canal.add_awgn draws signal N0) as [[noisy noise]|e];
      cbn [bind]; [rewrite Hcalc|]; discriminate.
  - intros ->.
    assert (H : exists out, Canal.add_awgn draws signal 0%float = Ok out).
    { unfold Canal.add_awgn, Canal.random_normal.
      change (get_sign (sqrt (0 / 2))) with false. cbv iota.
      destruct (Canal.shape signal) as [rows cols]. cbn [bind].
      eexists; reflexivity. }
    split; [exact H|].
    destruct H as ([noisy noise] & H).
    unfold Canal.main. rewrite H. cbn [bind]. now rewrite Hcalc.
Qed.

Lemma channel_zero_N0_witness :
  Canal.calculate_snr_metrics
    (fun x => x)
    {| Canal.modulation_type := "16QAM"; Canal.constellation_size := 16;
       Canal.total_symbols := 1; Canal.padding := 0 |}
    (-0)%float = Raise ZeroDivisionError /\
  Canal.main (fun x => x) (fun _ => 1%float) [[1; 0]]%Z
    {| Canal.modulation_type := "16QAM"; Canal.constellation_size := 16;
       Canal.total_symbols := 1; Canal.padding := 0 |}
    0%float = Raise ZeroDivisionError.
Proof.
  split.
  - apply (channel_zero_N0 (fun x => x) (fun _ => 1%float) [[1; 0]]%Z).
    + right. reflexivity.
    + reflexivity.
  - apply (channel_zero_N0 (fun x => x) (fun _ => 1%float) [[1; 0]]%Z).
    + right. reflexivity.
    + reflexivity.
    + reflexivity.
Defined.

Lemma add_noise_shape (signal : list (list Z)) (noise : Canal.fmatrix)
      (cols i : nat) :
  List.length noise = List.length signal ->
  i < List.length signal ->
  List.length (nth i signal []) = cols ->
  List.length (nth i noise []) = cols ->
  List.length (Canal.add_noise signal noise) = List.length signal /\
  List.length (nth i (Canal.add_noise signal noise) []) = cols.
Proof.
  intros Hlen Hi Hs Hn. unfold Canal.add_noise. split.
  - rewrite length_map, length_combine. lia.
  - unfold Canal.fvector.
    rewrite (nth_map_combine _ signal noise [] [] [] i Hi)
      by (symmetry; exact Hlen).
    cbn [fst snd]. rewrite length_map, length_combine.
    unfold Canal.fvector in *. rewrite Hs, Hn. lia.
Qed.

(** X13. The channel keeps the shape of the signal: for a rectangular
    integer matrix and a scale the generator accepts (every N0 > 0), the
    noisy signal and the noise both have as many rows as the signal, each of
    the width of the signal. *)
Theorem channel_keeps_shape (draws : nat -> float) (signal : list (list Z))
        (N0 : float) :
  (0 <? N0)%float = true \/ get_sign (sqrt (N0 / 2)) = false ->
  Forall (fun row => List.length row = snd (Canal.shape signal)) signal ->
  exists noisy noise,
    Canal.add_awgn draws signal N0 = Ok (noisy, noise) /\
    List.length noisy = fst (Canal.shape signal) /\
    List.length noise = fst (Canal.shape signal) /\
    forall i, i < fst (Canal.shape signal) ->
      List.length (nth i noisy []) = snd (Canal.shape signal) /\
      List.length (nth i noise []) = snd (Canal.shape signal).
Proof.
  intros HN0 Hrect.
  assert (Hs : get_sign (sqrt (N0 / 2)) = false).
  { destruct HN0 as [H|H]; [now apply positive_scale|exact H]. }
  destruct (random_normal_entries draws zero (sqrt (N0 / 2))
              (fst (Canal.shape signal)) (snd (Canal.shape signal)) Hs)
    as (noise & Hnoise & Hrows & Hent).
  exists (Canal.add_noise signal noise), noise.
  unfold Canal.add_awgn.
  rewrite (surjective_pairing (Canal.shape signal)), Hnoise. cbn [bind].
  split; [reflexivity|].
  assert (Hlen : List.length (Canal.add_noise signal noise)
                 = fst (Canal.shape signal)).
  { unfold Canal.add_noise. rewrite length_map, length_combine.
    cbn [Canal.shape fst] in *. lia. }
  split; [exact Hlen|]. split; [exact Hrows|].
  intros i Hi. destruct (Hent i Hi) as (Hcols & _).
  split; [|exact Hcols].
  apply (add_noise_shape signal noise (snd (Canal.shape signal)) i);
    auto using shape_rows.
Qed.

Lemma channel_keeps_shape_witness :
  exists noisy noise,
    Canal.add_awgn (fun _ => 0.125%float) [[0; 1; 0]; [1; 0; 0]]%Z 0.5%float
    = Ok (noisy, noise) /\
    List.length noisy = 2 /\
    List.length (nth 1 noisy []) = 3.
Proof.
  destruct (channel_keeps_shape (fun _ => 0.125%float)
                                [[0; 1; 0]; [1; 0; 0]]%Z 0.5%float)
    as (noisy & noise & Hrun & Hl & _ & Hrows).
  - left. reflexivity.
  - repeat constructor.
  - exists noisy, noise. split; [exact Hrun|]. split; [exact Hl|].
    apply (Hrows 1). simpl. lia.
Defined.

(** ** The Gray code of consecutive integers *)

Lemma lxor_double_succ_double (a : N) :
  N.lxor (N.double a) (N.succ_double a) = 1%N.
Proof.
  destruct a as [|p]; [reflexivity|].
  change (N.lxor (N.double (Npos p)) (N.succ_double (Npos p)))
    with (N.succ_double (N.lxor (Npos p) (Npos p))).
  now rewrite N.lxor_nilpotent.
Qed.

Lemma lxor_succ_double_double (a b : N) :
  N.lxor (N.succ_double a) (N.double b) = N.succ_double (N.lxor a b).
Proof. destruct a, b; reflexivity. Qed.

Lemma ones_testbit (k i : N) : N.testbit (N.ones k) i = (i <? k)%N.
Proof.
  destruct (N.ltb_spec i k) as [H|H].
  - now apply N.ones_spec_low.
  - now apply N.ones_spec_high.
Qed.

Lemma succ_double_ones (k : N) : N.succ_double (N.ones k) = N.ones (N.succ k).
Proof.
  rewrite N.succ_double_spec, !N.ones_equiv, N.pow_succ_r'.
  assert (0 < 2 ^ k)%N by (apply N.neq_0_lt_0, N.pow_nonzero; discriminate).
  lia.
Qed.

(** A number and its successor differ in a block of low bits. *)
Lemma lxor_succ_ones (n : N) :
  exists k, N.lxor n (N.succ n) = N.ones (N.succ k).
Proof.
  induction n as [|m IH|m IH] using N.binary_ind.
  - exists 0%N. reflexivity.
  - exists 0%N.
    replace (N.succ (N.double m)) with (N.succ_double m)
      by (now destruct m).
    apply lxor_double_succ_double.
  - destruct IH as (k & Hk). exists (N.succ k).
    replace (N.succ (N.succ_double m)) with (N.double (N.succ m))
      by (now destruct m).
    now rewrite lxor_succ_double_double, Hk, succ_double_ones.
Qed.

Lemma gray_of_ones (k : N) :
  Modulador.binary_to_gray (N.ones (N.succ k)) = (2 ^ k)%N.
Proof.
  unfold Modulador.binary_to_gray. apply N.bits_inj. intros i.
  rewrite N.lxor_spec, N.shiftr_spec', !ones_testbit, N.pow2_bits_eqb.
  destruct (N.ltb_spec i (N.succ k)), (N.ltb_spec (i + 1) (N.succ k)),
    (N.eqb_spec k i); simpl; try reflexivity; lia.
Qed.

Lemma binary_to_gray_lxor (a b : N) :
  Modulador.binary_to_gray (N.lxor a b)
  = N.lxor (Modulador.binary_to_gray a) (Modulador.binary_to_gray b).
Proof.
  unfold Modulador.binary_to_gray. rewrite N.shiftr_lxor.
  apply N.bits_inj. intros i. rewrite !N.lxor_spec.
  now destruct (N.testbit a i), (N.testbit b i),
    (N.testbit (N.shiftr a 1) i), (N.testbit (N.shiftr b 1) i).
Qed.

(** X14. The Gray codes of two consecutive integers differ in exactly one
    binary digit: their exclusive or is a power of two. *)
Theorem binary_to_gray_adjacent (n : N) :
  exists k,
    N.lxor (Modulador.binary_to_gray n) (Modulador.binary_to_gray (n + 1))
    = (2 ^ k)%N.
Proof.
  destruct (lxor_succ_ones n) as (k & Hk). exists k.
  rewrite <- binary_to_gray_lxor, N.add_1_r, Hk. apply gray_of_ones.
Qed.

(** ** Modulators that share their work *)

Lemma mapM_alike {A B C : Type} (R : B -> C -> Prop) (f : A -> result B)
      (g : A -> result C) (l : list A) :
  (forall a, alike R (f a) (g a)) ->
  alike (Forall2 R) (mapM f l) (mapM g l).
Proof.
  intros H. induction l as [|a l IH]; cbn [mapM]; [constructor|].
  specialize (H a). unfold alike in H.
  destruct (f a) as [b|e], (g a) as [c|e']; try contradiction; cbn [bind];
    [|exact H].
  unfold alike in IH.
  destruct (mapM f l) as [bs|e], (mapM g l) as [cs|e']; try contradiction;
    cbn [bind alike]; [|exact IH].
  now constructor.
Qed.

Lemma index_lt {A : Type} (l : list A) (i : nat) (a : A) :
  Py.index l i = Ok a -> i < List.length l.
Proof.
  unfold Py.index. destruct (nth_error l i) eqn:E; [|discriminate].
  intros _. apply nth_error_Some. congruence.
Qed.

Lemma index_error {A : Type} (l : list A) (i : nat) (e : pyerror) :
  Py.index l i = Raise e -> e = IndexError.
Proof. unfold Py.index. destruct (nth_error l i); congruence. Qed.

Lemma one_hot_matrix_total (size : nat) (symbols : list N) :
  Forall (fun symbol => N.to_nat symbol < size) symbols ->
  Modulador.one_hot_matrix size symbols
  = Ok (map (fun symbol => Spec.s_ size (N.to_nat symbol) 1) symbols).
Proof.
  intros H. apply mapM_map. eapply Forall_impl; [|exact H].
  intros symbol Hlt. now apply set_item_zeros.
Qed.

Lemma mapM_index_lt {A : Type} (l : list A) (symbols : list N) (vs : list A) :
  mapM (fun symbol => Py.index l (N.to_nat symbol)) symbols = Ok vs ->
  Forall (fun symbol => N.to_nat symbol < List.length l) symbols.
Proof.
  intros H. apply mapM_inv in H.
  induction H as [|symbol v symbols vs Hv _ IH]; constructor; [|exact IH].
  exact (index_lt _ _ _ Hv).
Qed.

(** X15. The 8FSK modulator of [modular_modulation_system.py] and the one
    of [2_modulador.py] end alike on every list: they raise the same
    exception, or they return the same frequencies, Gray symbols and
    padding, the second with one row of the one-hot matrix per frequency. *)
Theorem fsk8_modulators_agree (bits : list N) :
  alike (fun r r' =>
           Modulador.symbol_values r
           = map Modulador.Frequency (ModularModulation.modulated_values r') /\
           Modulador.gray_symbols r = Some (ModularModulation.gray_symbols r') /\
           Modulador.padding r = ModularModulation.fsk8_padding r' /\
           Modulador.modulated_signal r
           = map (fun symbol => Spec.s_ 8 (N.to_nat symbol) 1)
                 (ModularModulation.gray_symbols r'))
        (Modulador.FSK8_modulate bits) (ModularModulation.FSK8_modulate bits).
Proof.
  unfold Modulador.FSK8_modulate, ModularModulation.FSK8_modulate.
  destruct (Modulador.apply_padding 3 bits) as [[padded p]|e]; cbn [bind alike];
    [|reflexivity].
  destruct (mapM Modulador.decimal_value _) as [symbols|e]; cbn [bind alike];
    [|reflexivity].
  destruct (mapM _ (map Modulador.binary_to_gray symbols)) as [values|e] eqn:E;
    cbn [bind alike]; [|reflexivity].
  rewrite (one_hot_matrix_total 8 _ (mapM_index_lt _ _ _ E)).
  cbn. auto.
Qed.

Lemma qam16_symbol_alike (symbol : list N) :
  alike (fun row iq => fst row = iq /\ snd row < 16)
        (Modulador.QAM16_symbol symbol)
        (Py.get String.eqb Modulador.gray_symbol_map
                (Py.join (map Py.str symbol))).
Proof.
  unfold Modulador.QAM16_symbol.
  generalize (Py.join (map Py.str symbol)). intros key.
  let v := eval vm_compute in Modulador.gray_symbol_map in
  change Modulador.gray_symbol_map with v.
  let v := eval vm_compute in Modulador.symbol_to_index in
  change Modulador.symbol_to_index with v.
  cbn [Py.get].
  repeat match goal with
         | |- context [String.eqb ?a key] =>
             destruct (String.eqb_spec a key);
             [cbn [bind alike fst snd]; split; [reflexivity|lia]|]
         end.
  reflexivity.
Qed.

(** X16. The 16QAM modulator of [modular_modulation_system.py] and the one
    of [2_modulador.py] end alike on every list: they raise the same
    exception, or they return the same amplitude pairs and padding. *)
Theorem qam16_modulators_agree (bits : list N) :
  alike (fun r r' =>
           Modulador.symbol_values r
           = map (fun iq => Modulador.Amplitudes (fst iq) (snd iq))
                 (ModularModulation.iq_values r') /\
           Modulador.padding r = ModularModulation.qam16_padding r' /\
           List.length (Modulador.modulated_signal r)
           = List.length (ModularModulation.iq_values r'))
        (Modulador.QAM16_modulate bits) (ModularModulation.QAM16_modulate bits).
Proof.
  unfold Modulador.QAM16_modulate, ModularModulation.QAM16_modulate.
  destruct (Modulador.apply_padding 4 bits) as [[padded p]|e]; cbn [bind alike];
    [|reflexivity].
  pose proof (mapM_alike _ _ _ (Py.chunks 4 padded) qam16_symbol_alike) as H.
  unfold alike in H.
  destruct (mapM Modulador.QAM16_symbol _) as [rows|e],
           (mapM _ (Py.chunks 4 padded)) as [iqs|e'];
    try contradiction; cbn [bind alike]; [|exact H].
  rewrite (one_hot_matrix_total 16 (map (fun r => N.of_nat (snd r)) rows)).
  - cbn. split; [|split; [reflexivity|]].
    + induction H as [|row iq rows iqs [Hiq _] _ IH]; [reflexivity|].
      cbn [map]. now rewrite IH, <- Hiq.
    + rewrite !length_map. exact (Forall2_length H).
  - apply Forall_map. clear -H.
    induction H as [|row iq rows iqs [_ Hlt] _ IH]; constructor; [|exact IH].
    now rewrite Nat2N.id.
Qed.

(** ** 8FSK and 8PSK on the channel *)

Lemma binary_to_gray_high (v : N) :
  (8 <= v)%N -> (8 <= Modulador.binary_to_gray v)%N.
Proof.
  intros Hv.
  destruct (N.lt_ge_cases (Modulador.binary_to_gray v) 8) as [Hlt|Hge];
    [exfalso|exact Hge].
  assert (Hlog : (3 <= N.log2 v)%N)
    by (change 3%N with (N.log2 8); now apply N.log2_le_mono).
  assert (Hbit : N.testbit (Modulador.binary_to_gray v) (N.log2 v) = true).
  { unfold Modulador.binary_to_gray.
    rewrite N.lxor_spec, N.shiftr_spec', N.bit_log2 by lia.
    rewrite N.bits_above_log2 by lia. reflexivity. }
  destruct (N.eq_dec (Modulador.binary_to_gray v) 0) as [Hz|Hnz].
  - rewrite Hz, N.bits_0 in Hbit. discriminate.
  - rewrite N.bits_above_log2 in Hbit; [discriminate|].
    assert (N.log2 (Modulador.binary_to_gray v) < 3)%N; [|lia].
    apply N.log2_lt_pow2; [lia|exact Hlt].
Qed.

Lemma below_8_cases (v : N) :
  (v < 8)%N ->
  (v = 0 \/ v = 1 \/ v = 2 \/ v = 3 \/ v = 4 \/ v = 5 \/ v = 6 \/ v = 7)%N.
Proof. lia. Qed.

(** The table of 8PSK is the Gray transform of 8FSK. *)
Lemma gray_map_is_binary_to_gray (v : N) :
  (v < 8)%N ->
  Py.index Modulador.gray_map (N.to_nat v) = Ok (Modulador.binary_to_gray v) /\
  (Modulador.binary_to_gray v < 8)%N.
Proof.
  intros Hv. apply below_8_cases in Hv.
  repeat (destruct Hv as [Hv|Hv]; [subst v; split; reflexivity|]).
  subst v; split; reflexivity.
Qed.

Lemma index_below {A : Type} (l : list A) (i : nat) :
  i < List.length l -> exists a, Py.index l i = Ok a.
Proof.
  intros Hi. unfold Py.index.
  destruct (nth_error l i) as [a|] eqn:E; [now exists a|].
  apply nth_error_None in E. lia.
Qed.

Lemma index_above {A : Type} (l : list A) (i : nat) :
  List.length l <= i -> Py.index l i = Raise IndexError.
Proof.
  intros Hi. unfold Py.index.
  now rewrite (proj2 (nth_error_None l i) Hi).
Qed.

Lemma mapM_index_total {A : Type} (l : list A) (symbols : list N) :
  Forall (fun symbol => N.to_nat symbol < List.length l) symbols ->
  exists vs, mapM (fun symbol => Py.index l (N.to_nat symbol)) symbols = Ok vs.
Proof.
  intros H.
  destruct (mapM_Forall (fun symbol => Py.index l (N.to_nat symbol))
                        (fun _ => True) symbols) as (vs & Hvs & _).
  - eapply Forall_impl; [|exact H]. intros symbol Hlt.
    destruct (index_below l _ Hlt) as (a & Ha). now exists a.
  - now exists vs.
Qed.

Lemma mapM_index_raises {A : Type} (l : list A) (symbols : list N) :
  Exists (fun symbol => List.length l <= N.to_nat symbol) symbols ->
  mapM (fun symbol => Py.index l (N.to_nat symbol)) symbols = Raise IndexError.
Proof.
  intros H. apply Exists_exists in H. destruct H as (symbol & Hin & Hge).
  apply (mapM_raises _ _ symbol IndexError).
  - intros x e. apply index_error.
  - exact Hin.
  - now apply index_above.
Qed.

Lemma all_below_or_some_above (symbols : list N) :
  Forall (fun v => (v < 8)%N) symbols \/ Exists (fun v => (8 <= v)%N) symbols.
Proof.
  induction symbols as [|v symbols [IH|IH]].
  - left. constructor.
  - destruct (N.lt_ge_cases v 8) as [Hlt|Hge].
    + left. now constructor.
    + right. now constructor.
  - right. now constructor 2.
Qed.

(** X17. On every list the modulators of 8FSK and 8PSK end alike: they
    raise the same exception, or they return the same one-hot matrix, the
    same Gray symbols and the same padding.  The table [gray_map] of 8PSK
    holds the values of [binary_to_gray] on 0..7. *)
Theorem fsk8_psk8_same_signal (bits : list N) :
  alike (fun r r' =>
           Modulador.modulated_signal r = Modulador.modulated_signal r' /\
           Modulador.gray_symbols r = Modulador.gray_symbols r' /\
           Modulador.padding r = Modulador.padding r' /\
           Modulador.constellation_size r = Modulador.constellation_size r')
        (Modulador.FSK8_modulate bits) (Modulador.PSK8_modulate bits) /\
  (forall v, (v < 8)%N ->
             Py.index Modulador.gray_map (N.to_nat v)
             = Ok (Modulador.binary_to_gray v)).
Proof.
  split; [|intros v Hv; now destruct (gray_map_is_binary_to_gray v Hv)].
  unfold Modulador.FSK8_modulate, Modulador.PSK8_modulate.
  destruct (Modulador.apply_padding 3 bits) as [[padded p]|e]; cbn [bind alike];
    [|reflexivity].
  destruct (mapM Modulador.decimal_value _) as [symbols|e]; cbn [bind alike];
    [|reflexivity].
  destruct (all_below_or_some_above symbols) as [Hall|Hex].
  - assert (Hgray : Forall (fun g => N.to_nat g < 8)
                           (map Modulador.binary_to_gray symbols)).
    { apply Forall_map. eapply Forall_impl; [|exact Hall].
      intros v Hv. destruct (gray_map_is_binary_to_gray v Hv) as [_ Hlt].
      cbv beta. lia. }
    destruct (mapM_index_total Modulador.frequencies _ Hgray) as (fs & Hfs).
    destruct (mapM_index_total (map N.of_nat (seq 0 8)) _ Hgray) as (phs & Hphs).
    rewrite Hfs.
    rewrite (mapM_map (fun sym => Py.index Modulador.gray_map (N.to_nat sym))
                      Modulador.binary_to_gray symbols).
    + cbn [bind]. rewrite Hphs. cbn [bind].
      rewrite (one_hot_matrix_total 8 _ Hgray). cbn. auto.
    + eapply Forall_impl; [|exact Hall].
      intros v Hv. now destruct (gray_map_is_binary_to_gray v Hv).
  - rewrite (mapM_index_raises Modulador.frequencies).
    + rewrite (mapM_index_raises Modulador.gray_map); [reflexivity|].
      eapply Exists_impl; [|exact Hex].
      intros v Hv. change (List.length Modulador.gray_map) with 8.
      cbv beta in Hv. lia.
    + apply Exists_map. eapply Exists_impl; [|exact Hex].
      intros v Hv. apply binary_to_gray_high in Hv.
      change (List.length Modulador.frequencies) with 8. cbv beta. lia.
Qed.

Lemma fsk8_psk8_same_signal_witness :
  Py.index Modulador.gray_map 5 = Ok (Modulador.binary_to_gray 5) /\
  alike (fun r r' =>
           Modulador.modulated_signal r = Modulador.modulated_signal r' /\
           Modulador.gray_symbols r = Modulador.gray_symbols r' /\
           Modulador.padding r = Modulador.padding r' /\
           Modulador.constellation_size r = Modulador.constellation_size r')
        (Modulador.FSK8_modulate [1; 0; 1; 1]%N)
        (Modulador.PSK8_modulate [1; 0; 1; 1]%N).
Proof.
  destruct (fsk8_psk8_same_signal [1; 0; 1; 1]%N) as [H1 H2].
  split; [apply (H2 5%N); reflexivity|exact H1].
Defined.

Lemma argmin_lt (l : list Q) (k : nat) :
  Np.argmin l = Ok k -> k < List.length l.
Proof.
  intros H. destruct l as [|x t] eqn:El; [discriminate|].
  destruct (argmin_spec (x :: t)) as (k' & Hk' & Hlt & _); [discriminate|].
  congruence.
Qed.

Lemma detect_lt (size : nat) (A : Q) (r : Np.vector) (k : nat) :
  Demodulador.detect size A r = Ok k -> k < size.
Proof.
  unfold Demodulador.detect. intros H. apply bind_ok in H.
  destruct H as (ds & Hds & Hk).
  apply mapM_length in Hds. rewrite length_seq in Hds.
  apply argmin_lt in Hk. lia.
Qed.

Lemma demodulate_bayes_lt (size : nat) (m : Np.matrix) (A : Q) (syms : list nat) :
  Demodulador.demodulate_bayes_of size m A = Ok syms ->
  Forall (fun k => k < size) syms.
Proof.
  unfold Demodulador.demodulate_bayes_of. intros H. apply mapM_inv in H.
  induction H as [|r k m syms Hk _ IH]; constructor; [|exact IH].
  exact (detect_lt _ _ _ _ Hk).
Qed.

Lemma fsk8_psk8_symbol_to_bits (k : nat) :
  k < 8 -> Demodulador.FSK8_symbol_to_bits k = Demodulador.PSK8_symbol_to_bits k.
Proof. intros Hk. index_cases k Hk; reflexivity. Qed.

Lemma fsk8_psk8_symbols_to_bits (syms : list nat) :
  Forall (fun k => k < 8) syms ->
  Demodulador.symbols_to_bits Demodulador.FSK8Demodulator syms
  = Demodulador.symbols_to_bits Demodulador.PSK8Demodulator syms.
Proof.
  induction 1 as [|k syms Hk _ IH]; [reflexivity|].
  cbn [Demodulador.symbols_to_bits]. rewrite IH.
  change (Demodulador.symbol_to_bits Demodulador.FSK8Demodulator k)
    with (Demodulador.FSK8_symbol_to_bits k).
  change (Demodulador.symbol_to_bits Demodulador.PSK8Demodulator k)
    with (Demodulador.PSK8_symbol_to_bits k).
  now rewrite (fsk8_psk8_symbol_to_bits k Hk).
Qed.

(** X18. On every received matrix and with every reference amplitude the
    demodulation of 8FSK and that of 8PSK end alike: they raise the same
    exception, or they return the same detected symbols and the same
    bits. *)
Theorem fsk8_psk8_same_bits (m : Np.matrix) (A : Q) :
  alike (fun d d' =>
           Demodulador.detected_symbols d = Demodulador.detected_symbols d' /\
           Demodulador.demodulated_bits d = Demodulador.demodulated_bits d')
        (Demodulador.demodulate_signal m "8FSK" A)
        (Demodulador.demodulate_signal m "8PSK" A).
Proof.
  destruct (Demodulador.demodulate_bayes_of 8 m A) as [syms|e] eqn:E.
  - pose proof (demodulate_bayes_lt 8 m A syms E) as Hlt.
    destruct (symbols_to_bits_total Spec.FSK8 syms Hlt) as (bits & Hbits & _).
    destruct (get_symbol_info_total Spec.FSK8 syms Hlt) as (i1 & Hi1).
    destruct (get_symbol_info_total Spec.PSK8 syms Hlt) as (i2 & Hi2).
    pose proof (demodulate_signal_steps Spec.FSK8 m A syms bits i1 E Hbits Hi1)
      as H1.
    change (Spec.demodulator Spec.FSK8) with Demodulador.FSK8Demodulator in Hbits.
    rewrite (fsk8_psk8_symbols_to_bits syms Hlt) in Hbits.
    pose proof (demodulate_signal_steps Spec.PSK8 m A syms bits i2 E Hbits Hi2)
      as H2.
    change (Demodulador.name (Spec.demodulator Spec.FSK8)) with "8FSK"%string in H1.
    change (Demodulador.name (Spec.demodulator Spec.PSK8)) with "8PSK"%string in H2.
    rewrite H1, H2. cbn [alike Demodulador.detected_symbols
                           Demodulador.demodulated_bits]. auto.
  - destruct (demodulators_lookup Spec.FSK8) as (Hm1 & Hg1).
    destruct (demodulators_lookup Spec.PSK8) as (Hm2 & Hg2).
    change (Demodulador.name (Spec.demodulator Spec.FSK8)) with "8FSK"%string
      in Hm1, Hg1.
    change (Demodulador.name (Spec.demodulator Spec.PSK8)) with "8PSK"%string
      in Hm2, Hg2.
    unfold Demodulador.demodulate_signal.
    rewrite Hm1, Hg1, Hm2, Hg2. cbn [negb bind].
    change (Demodulador.demodulate_bayes (Spec.demodulator Spec.FSK8) m A)
      with (Demodulador.demodulate_bayes_of 8 m A).
    change (Demodulador.demodulate_bayes (Spec.demodulator Spec.PSK8) m A)
      with (Demodulador.demodulate_bayes_of 8 m A).
    rewrite E. reflexivity.
Qed.

(** ** The labels of the 16QAM grid *)

Lemma get_in {V : Type} (d : Py.dict string V) (key : string) (v : V) :
  Py.get String.eqb d key = Ok v -> In (key, v) d.
Proof.
  induction d as [|[k' v'] d IH]; cbn [Py.get]; [discriminate|].
  destruct (String.eqb_spec k' key) as [->|_].
  - intros H. injection H as ->. now left.
  - intros H. right. now apply IH.
Qed.

(** X19. The table of 16QAM is a Gray labelling of the grid: the bit
    patterns of two points next to each other on a row or on a column differ
    in exactly one bit, counted as [compare_bit_sequences] counts bit
    errors. *)
Theorem qam16_gray_labelling (key key' : string) (p q : Z * Z) :
  Py.get String.eqb Modulador.gray_symbol_map key = Ok p ->
  Py.get String.eqb Modulador.gray_symbol_map key' = Ok q ->
  Spec.neighbours p q ->
  Comparacion.differing_bits key key' = 1.
Proof.
  intros Hp Hq Hn. apply get_in in Hp. apply get_in in Hq.
  set (next := fun a b : Z * Z =>
                 ((fst a =? fst b)%Z && (Z.abs (snd a - snd b) =? 2)%Z
                  || (snd a =? snd b)%Z && (Z.abs (fst a - fst b) =? 2)%Z)%bool).
  assert (Hall : forallb
                   (fun a => forallb
                      (fun b => implb (next (snd a) (snd b))
                                      (Comparacion.differing_bits (fst a) (fst b) =? 1))
                      Modulador.gray_symbol_map)
                   Modulador.gray_symbol_map = true)
    by (vm_compute; reflexivity).
  rewrite forallb_forall in Hall. specialize (Hall _ Hp).
  rewrite forallb_forall in Hall. specialize (Hall _ Hq).
  cbn [fst snd] in Hall.
  assert (Hnext : next p q = true).
  { unfold next. apply orb_true_iff.
    destruct Hn as [[H1 H2]|[H1 H2]]; [left|right];
      apply andb_true_iff; split; now apply Z.eqb_eq. }
  rewrite Hnext in Hall. now apply Nat.eqb_eq in Hall.
Qed.

Lemma qam16_gray_labelling_witness :
  Comparacion.differing_bits "0110" "1110" = 1.
Proof.
  apply (qam16_gray_labelling "0110" "1110" (-1, 3)%Z (1, 3)%Z).
  - reflexivity.
  - reflexivity.
  - right. split; reflexivity.
Defined.

(** ** From the codes of the voice to the report of the comparison *)

Lemma binary_digit_cases (ch : ascii) :
  Py.is_binary_digit ch = true -> ch = "0"%char \/ ch = "1"%char.
Proof.
  unfold Py.is_binary_digit. intros H. apply orb_true_iff in H.
  destruct H as [H|H]; apply Ascii.eqb_eq in H; auto.
Qed.

(** The bits of a sequence of codes and the lines they are saved as. *)
Lemma read_code_lines_binary (codes : list string) :
  Forall (fun c => forallb Py.is_binary_digit (list_ascii_of_string c) = true)
         codes ->
  exists bits,
    Modulador.read_code_lines codes = Ok bits /\
    Spec.bitstream bits /\
    Demodulador.save_bits bits
    = flat_map (fun c => map (fun ch => String ch EmptyString)
                             (list_ascii_of_string c)) codes.
Proof.
  unfold Demodulador.save_bits.
  induction 1 as [|c codes Hc _ (more & Hmore & Hbits & Hsave)].
  - exists []. repeat split. constructor.
  - assert (Hline : exists ints,
               mapM Py.int_of_char (list_ascii_of_string c) = Ok ints /\
               Spec.bitstream ints /\
               map Py.str ints
               = map (fun ch => String ch EmptyString) (list_ascii_of_string c)).
    { induction (list_ascii_of_string c) as [|ch l IH].
      - exists []. repeat split. constructor.
      - cbn [forallb] in Hc. apply andb_true_iff in Hc. destruct Hc as [Hch Hl].
        destruct (IH Hl) as (ints & Hints & Hb & Hs).
        destruct (binary_digit_cases ch Hch) as [->| ->].
        + exists (0%N :: ints). cbn [mapM]. rewrite Hints.
          split; [reflexivity|]. split; [constructor; [now left|exact Hb]|].
          cbn [map]. now rewrite Hs.
        + exists (1%N :: ints). cbn [mapM]. rewrite Hints.
          split; [reflexivity|]. split; [constructor; [now right|exact Hb]|].
          cbn [map]. now rewrite Hs. }
    destruct Hline as (ints & Hints & Hb & Hs).
    exists (ints ++ more)%list. cbn [Modulador.read_code_lines flat_map].
    rewrite Hints, Hmore. cbn [bind].
    split; [reflexivity|]. split; [now apply Forall_app|].
    now rewrite map_app, Hs, Hsave.
Qed.

Lemma filter_all {A : Type} (f : A -> bool) (l : list A) :
  (forall x, In x l -> f x = true) -> filter f l = l.
Proof.
  induction l as [|a l IH]; intros H; cbn [filter]; [reflexivity|].
  rewrite (H a (or_introl eq_refl)). f_equal. apply IH.
  intros x Hx. apply H. now right.
Qed.

Lemma read_saved_bits (codes : list string) :
  Forall (fun c => forallb Py.is_binary_digit (list_ascii_of_string c) = true)
         codes ->
  let lines := flat_map (fun c => map (fun ch => String ch EmptyString)
                                      (list_ascii_of_string c)) codes in
  Comparacion.read_demodulated_bits lines = lines.
Proof.
  intros H lines. apply filter_all. intros x Hx.
  apply in_flat_map in Hx. destruct Hx as (c & Hc & Hx).
  apply in_map_iff in Hx. destruct Hx as (ch & <- & Hch).
  rewrite Forall_forall in H. specialize (H c Hc).
  rewrite forallb_forall in H.
  destruct (binary_digit_cases ch (H ch Hch)) as [->| ->]; reflexivity.
Qed.

(** Codes of [n] characters, flattened into one-character bits, are grouped
    back by [reconstruct_voice_format]. *)
Lemma reconstruct_flattened (n : nat) (codes : list string) :
  0 < n ->
  Forall (fun c => String.length c = n) codes ->
  Comparacion.reconstruct_voice_format
    (flat_map (fun c => map (fun ch => String ch EmptyString)
                            (list_ascii_of_string c)) codes) (Some n)
  = Ok codes.
Proof.
  intros Hn Hcodes.
  unfold Comparacion.reconstruct_voice_format.
  destruct n as [|n']; [lia|]. f_equal.
  unfold Py.chunks. rewrite flat_map_concat_map.
  set (gs := map (fun c => map (fun ch => String ch EmptyString)
                               (list_ascii_of_string c)) codes).
  assert (Hgs : Forall (fun g => List.length g = S n') gs).
  { unfold gs. apply Forall_map. eapply Forall_impl; [|exact Hcodes].
    intros c Hc. cbv beta. now rewrite length_map, length_list_ascii. }
  rewrite <- (app_nil_r (List.concat gs)).
  rewrite (chunks_upto_app_tail (S n') gs []) by (simpl; auto; lia).
  rewrite (join_complete_groups (S n') gs []) by (simpl; auto; lia).
  unfold gs. rewrite map_map.
  rewrite <- (map_id codes) at 2. apply map_ext. intros c. apply join_chars_of.
Qed.

Lemma list_sum_lengths (n : nat) (codes : list string) (a : nat) :
  Forall (fun c => String.length c = n) codes ->
  list_sum (map (fun i => String.length (nth (i - a) codes EmptyString))
                (seq a (List.length codes)))
  = n * List.length codes.
Proof.
  intros H. revert a. induction H as [|c codes Hc _ IH]; intros a.
  - cbn. lia.
  - cbn [List.length seq map list_sum fold_right].
    rewrite Nat.sub_diag. cbn [nth]. rewrite Hc.
    fold (list_sum (map (fun i => String.length (nth (i - a) (c :: codes) EmptyString))
                        (seq (S a) (List.length codes)))).
    rewrite (map_ext_in _ (fun i => String.length (nth (i - S a) codes EmptyString))).
    + rewrite IH. lia.
    + intros i Hi. apply in_seq in Hi.
      replace (i - a) with (S (i - S a)) by lia. reflexivity.
Qed.

(** A sequence of codes compared with itself. *)
Lemma compare_same (n : nat) (codes : list string) :
  Forall (fun c => String.length c = n) codes ->
  exists c,
    Comparacion.compare_bit_sequences codes codes = Ok c /\
    Comparacion.total_codigos c = List.length codes /\
    Comparacion.total_bits c = n * List.length codes /\
    Comparacion.errores_por_codigo c = 0 /\
    Comparacion.errores_por_bit c = 0 /\
    Comparacion.codigos_erroneos c = [].
Proof.
  intros Hlen.
  destruct (compare_loop codes codes (Nat.min (List.length codes) (List.length codes)) 0
              {| Comparacion.c_errores_por_codigo := 0;
                 Comparacion.c_errores_por_bit := 0;
                 Comparacion.c_total_bits := 0;
                 Comparacion.c_codigos_erroneos := [] |})
    as (H1 & H2 & H3 & _ & H5).
  cbn [Comparacion.c_errores_por_codigo Comparacion.c_errores_por_bit
       Comparacion.c_total_bits Comparacion.c_codigos_erroneos app plus] in *.
  assert (Hnil : filter (fun i => negb (String.eqb (nth i codes EmptyString)
                                                   (nth i codes EmptyString)))
                        (seq 0 (Nat.min (List.length codes) (List.length codes)))
                 = []).
  { apply filter_nil_iff. intros i _. now rewrite String.eqb_refl. }
  eexists. split; [reflexivity|].
  cbn [Comparacion.total_codigos Comparacion.errores_por_codigo
       Comparacion.total_bits Comparacion.errores_por_bit
       Comparacion.codigos_erroneos].
  rewrite H1, H2, H3, (H5 Hnil), Hnil, Nat.min_id.
  split; [reflexivity|]. split; [|repeat split].
  rewrite <- (list_sum_lengths n codes 0 Hlen).
  f_equal. apply map_ext. intros i. now rewrite Nat.sub_0_r.
Qed.

(** X20. Without noise the system reports no error.  For every scheme and
    every sequence of codes of n > 0 binary digits: the bits read from the
    codes are modulated, the one-hot matrix is demodulated with reference
    amplitude 1, the padding is removed and the bits are saved one per
    line; [run_comparison] groups them back into the codes and counts no
    erroneous code and no erroneous bit among all of them. *)
Theorem noiseless_system_reports_no_error (s : Spec.scheme) (n : nat)
        (codes : list string) :
  0 < n ->
  Forall (Spec.code n) codes ->
  exists bits r d c,
    Modulador.read_code_lines codes = Ok bits /\
    Modulador.modulate (Spec.modulator s) bits = Ok r /\
    Demodulador.demodulate_signal (Modulador.modulated_signal r)
                                  (Modulador.modulation_type r) 1 = Ok d /\
    Comparacion.run_comparison
      codes (Some n)
      (Demodulador.save_bits
         (Demodulador.remove_padding (Demodulador.demodulated_bits d)
                                     (Modulador.padding r))) = Ok c /\
    Comparacion.total_codigos c = List.length codes /\
    Comparacion.total_bits c = n * List.length codes /\
    Comparacion.errores_por_codigo c = 0 /\
    Comparacion.errores_por_bit c = 0.
Proof.
  intros Hn Hcodes.
  assert (Hlen : Forall (fun c => String.length c = n) codes)
    by (eapply Forall_impl; [|exact Hcodes]; now intros c [Hc _]).
  assert (Hbin : Forall (fun c => forallb Py.is_binary_digit
                                          (list_ascii_of_string c) = true) codes)
    by (eapply Forall_impl; [|exact Hcodes]; now intros c [_ Hc]).
  destruct (read_code_lines_binary codes Hbin) as (bits & Hread & Hbits & Hsave).
  destruct (noiseless_chain s bits Hbits) as (r & p & Hr & Hp & _ & Hty & _ & Hrx).
  destruct (Hrx _ (same_entries_refl _)) as (d & Hd & _ & _ & Hrm).
  destruct (compare_same n codes Hlen) as (c & Hc & Ht & Hb & He & Heb & _).
  exists bits, r, d, c.
  split; [exact Hread|]. split; [exact Hr|].
  split; [now rewrite Hty|].
  split; [|auto].
  rewrite Hp, Hrm, Hsave. unfold Comparacion.run_comparison.
  rewrite (read_saved_bits codes Hbin).
  destruct n as [|n']; [lia|]. cbn [andb].
  destruct (0 <? _) eqn:E.
  - rewrite (reconstruct_flattened (S n') codes Hn Hlen). exact Hc.
  - cbn [bind]. apply Nat.ltb_ge in E.
    destruct codes as [|c0 codes]; [exact Hc|exfalso].
    cbn [flat_map] in E. rewrite length_app, length_map, length_list_ascii in E.
    inversion Hlen; subst. lia.
Qed.

Lemma noiseless_system_reports_no_error_witness :
  exists bits r d c,
    Modulador.read_code_lines ["1011"; "0010"]%string = Ok bits /\
    Modulador.modulate Modulador.FSK8Modulator bits = Ok r /\
    Demodulador.demodulate_signal (Modulador.modulated_signal r)
                                  (Modulador.modulation_type r) 1 = Ok d /\
    Comparacion.run_comparison
      ["1011"; "0010"]%string (Some 4)
      (Demodulador.save_bits
         (Demodulador.remove_padding (Demodulador.demodulated_bits d)
                                     (Modulador.padding r))) = Ok c /\
    Comparacion.total_codigos c = 2 /\
    Comparacion.total_bits c = 8 /\
    Comparacion.errores_por_codigo c = 0 /\
    Comparacion.errores_por_bit c = 0.
Proof.
  apply (noiseless_system_reports_no_error Spec.FSK8 4 ["1011"; "0010"]%string).
  - lia.
  - repeat constructor.
Defined.

(** ** The codes of the quantised voice *)

Lemma raw_of_pos_digits (p : positive) (rest : string) :
  exists ds,
    list_ascii_of_string (BinaryString.Raw.of_pos p rest)
    = (ds ++ list_ascii_of_string rest)%list /\
    forallb Py.is_binary_digit ds = true /\
    (Npos p < 2 ^ N.of_nat (List.length ds))%N /\
    (2 ^ N.of_nat (List.length ds) <= 2 * Npos p)%N /\
    forall acc,
      fold_left (fun acc c => (2 * acc + Py.binary_digit_value c)%N) ds acc
      = (acc * 2 ^ N.of_nat (List.length ds) + Npos p)%N.
Proof.
  revert rest. induction p as [p IH|p IH|]; intros rest;
    cbn [BinaryString.Raw.of_pos].
  - destruct (IH (String "1" rest)) as (ds & Hds & Hb & Hlt & Hge & Hv).
    exists (ds ++ ["1"%char])%list.
    rewrite Hds, <- app_assoc, forallb_app, Hb, length_app, Nat.add_1_r,
      Nat2N.inj_succ, N.pow_succ_r'.
    split; [reflexivity|]. split; [reflexivity|].
    split; [lia|]. split; [lia|].
    intros acc. rewrite fold_left_app, Hv. cbn [fold_left].
    change (Py.binary_digit_value "1") with 1%N. lia.
  - destruct (IH (String "0" rest)) as (ds & Hds & Hb & Hlt & Hge & Hv).
    exists (ds ++ ["0"%char])%list.
    rewrite Hds, <- app_assoc, forallb_app, Hb, length_app, Nat.add_1_r,
      Nat2N.inj_succ, N.pow_succ_r'.
    split; [reflexivity|]. split; [reflexivity|].
    split; [lia|]. split; [lia|].
    intros acc. rewrite fold_left_app, Hv. cbn [fold_left].
    change (Py.binary_digit_value "0") with 0%N. lia.
  - exists ["1"%char]. cbn [List.length app forallb].
    change (N.of_nat 1) with 1%N. rewrite N.pow_1_r.
    split; [reflexivity|]. split; [reflexivity|].
    split; [lia|]. split; [lia|].
    intros acc. cbn [fold_left].
    change (Py.binary_digit_value "1") with 1%N. lia.
Qed.

(** The digits of [format(n, '0wb')]: zeros up to the width, then the
    binary numeral of [n]. *)
Lemma format_b_digits (w : nat) (n : N) :
  exists ds,
    list_ascii_of_string (Py.format_b w n)
    = (repeat "0"%char (w - List.length ds) ++ ds)%list /\
    0 < List.length ds /\
    forallb Py.is_binary_digit ds = true /\
    (n < 2 ^ N.of_nat (List.length ds))%N /\
    (2 ^ N.of_nat (List.length ds) <= 2 * N.max n 1)%N /\
    fold_left (fun acc c => (2 * acc + Py.binary_digit_value c)%N) ds 0%N = n.
Proof.
  assert (Hz : forall s,
             list_ascii_of_string (Py.zfill w s)
             = (repeat "0"%char (w - List.length (list_ascii_of_string s))
                ++ list_ascii_of_string s)%list).
  { intros s. unfold Py.zfill.
    now rewrite list_ascii_of_string_app, list_ascii_of_string_of_list_ascii,
      length_list_ascii. }
  unfold Py.format_b. rewrite Hz.
  destruct n as [|p].
  - exists ["0"%char]. repeat split; cbn; lia.
  - destruct (raw_of_pos_digits p EmptyString) as (ds & Hds & Hb & Hlt & Hge & Hv).
    cbn [list_ascii_of_string] in Hds. rewrite app_nil_r in Hds.
    exists ds.
    assert (Hs : list_ascii_of_string (Py.slice_from 2 (Py.bin (Npos p))) = ds).
    { unfold Py.slice_from, Py.bin, BinaryString.of_N, BinaryString.of_pos.
      cbn [list_ascii_of_string skipn].
      now rewrite list_ascii_of_string_of_list_ascii. }
    rewrite Hs.
    split; [reflexivity|]. split.
    { destruct ds; [cbn in Hlt; lia|cbn; lia]. }
    split; [exact Hb|]. split; [exact Hlt|]. split; [lia|].
    rewrite Hv. lia.
Qed.

Lemma fold_left_zeros (k : nat) :
  fold_left (fun acc c => (2 * acc + Py.binary_digit_value c)%N)
            (repeat "0"%char k) 0%N = 0%N.
Proof. induction k as [|k IH]; [reflexivity|exact IH]. Qed.

Lemma forallb_repeat {A : Type} (f : A -> bool) (a : A) (k : nat) :
  f a = true -> forallb f (repeat a k) = true.
Proof. intros H. induction k as [|k IH]; cbn; [reflexivity|now rewrite H]. Qed.

Lemma format_b_code (w : nat) (n : N) :
  0 < w -> (n < 2 ^ N.of_nat w)%N ->
  Spec.code w (Py.format_b w n) /\ Py.int_base2 (Py.format_b w n) = Ok n.
Proof.
  intros Hw Hn.
  destruct (format_b_digits w n) as (ds & Hds & Hpos & Hb & Hlt & Hge & Hv).
  assert (Hlen : List.length ds <= w).
  { destruct (Nat.le_gt_cases (List.length ds) w) as [H|H]; [exact H|exfalso].
    assert (2 ^ N.of_nat (S w) <= 2 ^ N.of_nat (List.length ds))%N
      by (apply N.pow_le_mono_r; lia).
    assert (H1 : (2 ^ 1 <= 2 ^ N.of_nat w)%N) by (apply N.pow_le_mono_r; lia).
    rewrite N.pow_1_r in H1.
    rewrite Nat2N.inj_succ, N.pow_succ_r' in H0. lia. }
  assert (Hall : forallb Py.is_binary_digit
                         (list_ascii_of_string (Py.format_b w n)) = true).
  { rewrite Hds, forallb_app, Hb, forallb_repeat; reflexivity. }
  split; [split|].
  - rewrite <- length_list_ascii, Hds, length_app, repeat_length. lia.
  - exact Hall.
  - unfold Py.int_base2. rewrite Hall.
    destruct (list_ascii_of_string (Py.format_b w n)) as [|c cs] eqn:E.
    + apply (f_equal (@List.length ascii)) in Hds.
      rewrite length_app in Hds. cbn in Hds. lia.
    + f_equal. rewrite Hds, fold_left_app, fold_left_zeros. exact Hv.
Qed.

(** X22. The codes that [codificar_senal] writes for integer codes below
    2^bits, with bits > 0, are what the rest of the system reads: every code
    has exactly [bits] characters, all of them 0 or 1, there is one code per
    integer, and read in base two each code gives its integer back. *)
Theorem codigos_binarios_wellformed (bits : nat) (codigos : list N) :
  0 < bits ->
  Forall (fun codigo => (codigo < 2 ^ N.of_nat bits)%N) codigos ->
  Forall (Spec.code bits) (ProcesamientoVoz.codigos_binarios bits codigos) /\
  List.length (ProcesamientoVoz.codigos_binarios bits codigos)
  = List.length codigos /\
  mapM Py.int_base2 (ProcesamientoVoz.codigos_binarios bits codigos) = Ok codigos.
Proof.
  intros Hbits Hall. unfold ProcesamientoVoz.codigos_binarios.
  split; [|split; [apply length_map|]].
  - apply Forall_map. eapply Forall_impl; [|exact Hall].
    intros codigo Hc. now destruct (format_b_code bits codigo Hbits Hc).
  - induction Hall as [|codigo codigos Hc _ IH]; [reflexivity|].
    cbn [map mapM].
    destruct (format_b_code bits codigo Hbits Hc) as [_ ->]. cbn [bind].
    now rewrite IH.
Qed.

Lemma codigos_binarios_wellformed_witness :
  Forall (Spec.code 4) (ProcesamientoVoz.codigos_binarios 4 [0; 5; 15; 8]%N) /\
  mapM Py.int_base2 (ProcesamientoVoz.codigos_binarios 4 [0; 5; 15; 8]%N)
  = Ok [0; 5; 15; 8]%N.
Proof.
  destruct (codigos_binarios_wellformed 4 [0; 5; 15; 8]%N) as (H1 & _ & H2).
  - lia.
  - repeat constructor.
  - split; [exact H1|exact H2].
Defined.

(** ** The side information of the demodulator *)

Lemma fsk8_group_info (g : list N) :
  Spec.pattern Spec.FSK8 g ->
  exists v f,
    Modulador.decimal_value g = Ok v /\
    Py.index Modulador.frequencies (N.to_nat (Modulador.binary_to_gray v)) = Ok f /\
    Np.set_item (Np.zeros 8) (N.to_nat (Modulador.binary_to_gray v)) 1
    = Ok (Spec.s_ 8 (Spec.symbolIndex Spec.FSK8 g) 1) /\
    Py.index Demodulador.frequencies (Spec.symbolIndex Spec.FSK8 g) = Ok f /\
    Demodulador.gray_to_binary (N.of_nat (Spec.symbolIndex Spec.FSK8 g)) = v /\
    N.of_nat (Spec.symbolIndex Spec.FSK8 g) = Modulador.binary_to_gray v.
Proof.
  intros Hg. pattern_cases g Hg;
    (eexists; eexists; split; [vm_compute; reflexivity|];
     split; [vm_compute; reflexivity|];
     split; [vm_compute; reflexivity|];
     split; [vm_compute; reflexivity|];
     split; vm_compute; reflexivity).
Qed.

Lemma fsk8_groups_info (groups : list (list N)) :
  Forall (Spec.pattern Spec.FSK8) groups ->
  exists vs fs,
    mapM Modulador.decimal_value groups = Ok vs /\
    mapM (fun gray_sym => Py.index Modulador.frequencies (N.to_nat gray_sym))
         (map Modulador.binary_to_gray vs) = Ok fs /\
    Modulador.one_hot_matrix 8 (map Modulador.binary_to_gray vs)
    = Ok (Spec.oneHot Spec.FSK8 groups) /\
    Demodulador.FSK8_get_symbol_info (map (Spec.symbolIndex Spec.FSK8) groups)
    = Ok (Demodulador.FSK8Info fs vs (map (Spec.symbolIndex Spec.FSK8) groups)) /\
    map N.of_nat (map (Spec.symbolIndex Spec.FSK8) groups)
    = map Modulador.binary_to_gray vs.
Proof.
  unfold Modulador.one_hot_matrix, Demodulador.FSK8_get_symbol_info.
  induction 1 as [|g groups Hg _ (vs & fs & H1 & H2 & H3 & H4 & H5)].
  - exists [], []. repeat split.
  - destruct (fsk8_group_info g Hg) as (v & f & Hv & Hf & Hs & Hf' & Hb & Hgr).
    exists (v :: vs), (f :: fs).
    apply bind_ok in H4. destruct H4 as (fs' & Hfs' & Hinfo).
    injection Hinfo as Hfs Hvs.
    cbn [mapM map]. rewrite Hv, H1. cbn [bind map mapM].
    rewrite Hf, H2, Hs, H3, Hf', Hfs', Hb, Hgr, H5. cbn [bind].
    repeat split. now rewrite Hfs, Hvs.
Qed.

Lemma qam16_group_info (g : list N) :
  Spec.pattern Spec.QAM16 g ->
  exists iq,
    Modulador.QAM16_symbol g = Ok (iq, Spec.symbolIndex Spec.QAM16 g) /\
    Np.set_item (Np.zeros 16)
                (N.to_nat (N.of_nat (Spec.symbolIndex Spec.QAM16 g))) 1
    = Ok (Spec.s_ 16 (Spec.symbolIndex Spec.QAM16 g) 1) /\
    Py.get Nat.eqb Demodulador.index_to_bits (Spec.symbolIndex Spec.QAM16 g)
    = Ok (Py.join (map Py.str g)) /\
    Py.get String.eqb Demodulador.gray_symbol_map (Py.join (map Py.str g)) = Ok iq.
Proof.
  intros Hg. pattern_cases g Hg;
    (eexists; split; [vm_compute; reflexivity|];
     split; [vm_compute; reflexivity|];
     split; vm_compute; reflexivity).
Qed.

Lemma qam16_groups_info (groups : list (list N)) :
  Forall (Spec.pattern Spec.QAM16) groups ->
  exists rows,
    mapM Modulador.QAM16_symbol groups = Ok rows /\
    Modulador.one_hot_matrix 16 (map (fun r => N.of_nat (snd r)) rows)
    = Ok (Spec.oneHot Spec.QAM16 groups) /\
    Demodulador.QAM16_get_symbol_info (map (Spec.symbolIndex Spec.QAM16) groups)
    = Ok (Demodulador.QAM16Info
            (map fst rows)
            (map (fun g => Py.join (map Py.str g)) groups)
            (map (Spec.symbolIndex Spec.QAM16) groups)).
Proof.
  unfold Modulador.one_hot_matrix, Demodulador.QAM16_get_symbol_info.
  induction 1 as [|g groups Hg _ (rows & H1 & H2 & H3)].
  - exists []. repeat split.
  - destruct (qam16_group_info g Hg) as (iq & Hq & Hs & Hb & Hiq).
    exists ((iq, Spec.symbolIndex Spec.QAM16 g) :: rows).
    apply bind_ok in H3. destruct H3 as (rows' & Hrows' & Hinfo).
    injection Hinfo as Hfst Hsnd.
    cbn [mapM map]. rewrite Hq, H1. cbn [bind map mapM snd fst].
    rewrite Hs, H2, Hb. cbn [bind]. rewrite Hiq. cbn [bind].
    rewrite Hrows'. cbn [bind map fst snd].
    repeat split. now rewrite Hfst, Hsnd.
Qed.

Lemma psk8_group_info (g : list N) :
  Spec.pattern Spec.PSK8 g ->
  exists v k ph b,
    Modulador.decimal_value g = Ok v /\
    Py.index Modulador.gray_map (N.to_nat v) = Ok k /\
    Py.index (map N.of_nat (seq 0 8)) (N.to_nat k) = Ok ph /\
    Np.set_item (Np.zeros 8) (N.to_nat k) 1
    = Ok (Spec.s_ 8 (Spec.symbolIndex Spec.PSK8 g) 1) /\
    Py.index (map N.of_nat (seq 0 8)) (Spec.symbolIndex Spec.PSK8 g) = Ok ph /\
    Py.get N.eqb Demodulador.inverse_gray_map
           (N.of_nat (Spec.symbolIndex Spec.PSK8 g)) = Ok b /\
    N.of_nat b = v /\
    N.of_nat (Spec.symbolIndex Spec.PSK8 g) = k.
Proof.
  intros Hg. pattern_cases g Hg;
    (eexists; eexists; eexists; eexists;
     split; [vm_compute; reflexivity|];
     split; [vm_compute; reflexivity|];
     split; [vm_compute; reflexivity|];
     split; [vm_compute; reflexivity|];
     split; [vm_compute; reflexivity|];
     split; [vm_compute; reflexivity|];
     split; vm_compute; reflexivity).
Qed.

Lemma psk8_groups_info (groups : list (list N)) :
  Forall (Spec.pattern Spec.PSK8) groups ->
  exists vs ks phs bs,
    mapM Modulador.decimal_value groups = Ok vs /\
    mapM (fun sym => Py.index Modulador.gray_map (N.to_nat sym)) vs = Ok ks /\
    mapM (fun symbol => Py.index (map N.of_nat (seq 0 8)) (N.to_nat symbol)) ks
    = Ok phs /\
    Modulador.one_hot_matrix 8 ks = Ok (Spec.oneHot Spec.PSK8 groups) /\
    Demodulador.PSK8_get_symbol_info (map (Spec.symbolIndex Spec.PSK8) groups)
    = Ok (Demodulador.PSK8Info phs bs (map (Spec.symbolIndex Spec.PSK8) groups)) /\
    map N.of_nat bs = vs /\
    map N.of_nat (map (Spec.symbolIndex Spec.PSK8) groups) = ks.
Proof.
  unfold Modulador.one_hot_matrix, Demodulador.PSK8_get_symbol_info.
  induction 1 as [|g groups Hg _
                      (vs & ks & phs & bs & H1 & H2 & H3 & H4 & H5 & H6 & H7)].
  - exists [], [], [], []. repeat split.
  - destruct (psk8_group_info g Hg)
      as (v & k & ph & b & Hv & Hk & Hph & Hs & Hph' & Hb & Hbv & Hik).
    exists (v :: vs), (k :: ks), (ph :: phs), (b :: bs).
    apply bind_ok in H5. destruct H5 as (phs' & Hphs' & H5).
    apply bind_ok in H5. destruct H5 as (bs' & Hbs' & Hinfo).
    injection Hinfo as Hp Hbs.
    cbn [mapM map]. rewrite Hv, H1, Hk, H2, Hph, H3, Hs, H4, Hph', Hphs'.
    cbn [bind]. rewrite Hb, Hbs'. cbn [bind].
    rewrite Hbv, Hik, H6, H7, Hp, Hbs. repeat split.
Qed.

(** X23. Without noise the side information of the demodulator repeats that
    of the modulator, for every scheme and every bitstream: the
    frequencies, amplitude pairs or phases are those the modulator reported
    as its symbol values, the Gray symbols are the same, and the binary
    symbols or bit strings are the values or the texts of the groups of the
    framed bitstream. *)
Theorem side_information_round_trip (s : Spec.scheme) (bits : list N) :
  Spec.bitstream bits ->
  exists r d,
    Modulador.modulate (Spec.modulator s) bits = Ok r /\
    Demodulador.demodulate_signal (Modulador.modulated_signal r)
                                  (Modulador.modulation_type r) 1 = Ok d /\
    Spec.side_info r
                   (Py.chunks (Spec.bitsPerSymbol s)
                              (bits ++ repeat 0%N (Modulador.padding r)))
                   (Demodulador.info d).
Proof.
  intros Hb.
  destruct (apply_padding_spec (Spec.bitsPerSymbol s) bits)
    as (p & Hp & _ & Hmod & _).
  { destruct s; unfold Spec.bitsPerSymbol; simpl; lia. }
  destruct (chunks_patterns s _ (bitstream_padded bits p Hb) Hmod) as (Hpat & Hcat).
  pose proof (demodulate_one_hot s _ _ Hpat (same_entries_refl _)) as Hdet.
  pose proof (symbols_to_bits_groups s _ Hpat) as Hbits.
  destruct s.
  - change (Spec.bitsPerSymbol Spec.FSK8) with 3 in *.
    change (Modulador.modulate (Spec.modulator Spec.FSK8) bits)
      with (Modulador.FSK8_modulate bits).
    destruct (fsk8_groups_info _ Hpat) as (vs & fs & H1 & H2 & H3 & H4 & H5).
    unfold Modulador.FSK8_modulate.
    rewrite Hp. cbn [bind]. rewrite H1. cbn [bind]. rewrite H2. cbn [bind].
    rewrite H3. cbn [bind].
    eexists. eexists. split; [reflexivity|].
    cbn [Modulador.modulated_signal Modulador.modulation_type Modulador.padding].
    split; [exact (demodulate_signal_steps Spec.FSK8 _ _ _ _ _ Hdet Hbits H4)|].
    cbn [Demodulador.info Spec.side_info Modulador.symbol_values
         Modulador.gray_symbols].
    split; [reflexivity|]. split; [now rewrite H5|exact H1].
  - change (Spec.bitsPerSymbol Spec.QAM16) with 4 in *.
    change (Modulador.modulate (Spec.modulator Spec.QAM16) bits)
      with (Modulador.QAM16_modulate bits).
    destruct (qam16_groups_info _ Hpat) as (rows & H1 & H2 & H3).
    unfold Modulador.QAM16_modulate.
    rewrite Hp. cbn [bind]. rewrite H1. cbn [bind]. rewrite H2. cbn [bind].
    eexists. eexists. split; [reflexivity|].
    cbn [Modulador.modulated_signal Modulador.modulation_type Modulador.padding].
    split; [exact (demodulate_signal_steps Spec.QAM16 _ _ _ _ _ Hdet Hbits H3)|].
    cbn [Demodulador.info Spec.side_info Modulador.symbol_values].
    split; [|reflexivity].
    rewrite map_map. apply map_ext. now intros [[i q] k].
  - change (Spec.bitsPerSymbol Spec.PSK8) with 3 in *.
    change (Modulador.modulate (Spec.modulator Spec.PSK8) bits)
      with (Modulador.PSK8_modulate bits).
    destruct (psk8_groups_info _ Hpat)
      as (vs & ks & phs & bs & H1 & H2 & H3 & H4 & H5 & H6 & H7).
    unfold Modulador.PSK8_modulate.
    rewrite Hp. cbn [bind]. rewrite H1. cbn [bind]. rewrite H2. cbn [bind].
    rewrite H3. cbn [bind]. rewrite H4. cbn [bind].
    eexists. eexists. split; [reflexivity|].
    cbn [Modulador.modulated_signal Modulador.modulation_type Modulador.padding].
    split; [exact (demodulate_signal_steps Spec.PSK8 _ _ _ _ _ Hdet Hbits H5)|].
    cbn [Demodulador.info Spec.side_info Modulador.symbol_values
         Modulador.gray_symbols].
    split; [reflexivity|]. split; [now rewrite H7|now rewrite H6].
Qed.

Lemma side_information_round_trip_witness :
  exists r d,
    Modulador.modulate Modulador.QAM16Modulator [0; 1; 0; 0; 1; 1]%N = Ok r /\
    Demodulador.demodulate_signal (Modulador.modulated_signal r)
                                  (Modulador.modulation_type r) 1 = Ok d /\
    Spec.side_info r
                   (Py.chunks 4 ([0; 1; 0; 0; 1; 1]%N
                                 ++ repeat 0%N (Modulador.padding r)))
                   (Demodulador.info d).
Proof.
  apply (side_information_round_trip Spec.QAM16 [0; 1; 0; 0; 1; 1]%N).
  repeat constructor; (left; reflexivity) || (right; reflexivity).
Defined.

(** ** The rates of the comparison *)

Lemma ratio_bounds (a b : nat) :
  a <= b -> 0 < b -> (0 <= Comparacion.ratio a b /\ Comparacion.ratio a b <= 1)%Q.
Proof.
  intros Hab Hb. unfold Comparacion.ratio.
  assert (H0 : (0 <= inject_Z (Z.of_nat a))%Q)
    by (change 0%Q with (inject_Z 0); rewrite <- Zle_Qle; lia).
  assert (H1 : (0 < inject_Z (Z.of_nat b))%Q)
    by (change 0%Q with (inject_Z 0); rewrite <- Zlt_Qlt; lia).
  assert (H2 : (inject_Z (Z.of_nat a) <= inject_Z (Z.of_nat b))%Q)
    by (rewrite <- Zle_Qle; lia).
  split.
  - apply Qle_shift_div_l; [exact H1|]. lra.
  - apply Qle_shift_div_r; [exact H1|]. lra.
Qed.

Lemma cube_bounds (y : Q) :
  (0 <= y)%Q -> (y <= 1)%Q ->
  (0 <= Qpower_positive y 3 /\ Qpower_positive y 3 <= 1)%Q.
Proof.
  intros H0 H1. cbn [Qpower_positive pow_pos].
  assert (Hyy0 : (0 <= y * y)%Q) by (apply Qmult_le_0_compat; assumption).
  assert (Hyy1 : (y * y <= 1)%Q).
  { apply Qle_trans with (1 * y)%Q; [|lra].
    apply Qmult_le_compat_r; assumption. }
  split.
  - apply Qmult_le_0_compat; assumption.
  - apply Qle_trans with (1 * (y * y))%Q; [|lra].
    apply Qmult_le_compat_r; assumption.
Qed.

(** X24. Every rate [compare_bit_sequences] reports is a proportion: the
    bit error ratio and the symbol error probability lie between 0 and 1,
    the three percentages between 0 and 100, whatever the two sequences
    are. *)
Theorem compare_bit_sequences_rates (o d : list string) :
  exists c,
    Comparacion.compare_bit_sequences o d = Ok c /\
    (0 <= Comparacion.relacion_error_bit c <= 1)%Q /\
    (0 <= Comparacion.probabilidad_error_simbolo c <= 1)%Q /\
    (0 <= Comparacion.porcentaje_error_codigo c <= 100)%Q /\
    (0 <= Comparacion.porcentaje_error_bit c <= 100)%Q /\
    (0 <= Comparacion.porcentaje_error_simbolo c <= 100)%Q.
Proof.
  set (n := Nat.min (List.length o) (List.length d)).
  destruct (compare_loop o d n 0
              {| Comparacion.c_errores_por_codigo := 0;
                 Comparacion.c_errores_por_bit := 0;
                 Comparacion.c_total_bits := 0;
                 Comparacion.c_codigos_erroneos := [] |})
    as (H1 & _ & _ & H4 & _).
  cbn [Comparacion.c_errores_por_codigo Comparacion.c_errores_por_bit
       Comparacion.c_total_bits Comparacion.c_codigos_erroneos app plus] in *.
  eexists. split; [reflexivity|].
  cbn [Comparacion.relacion_error_bit Comparacion.probabilidad_error_simbolo
       Comparacion.porcentaje_error_codigo Comparacion.porcentaje_error_bit
       Comparacion.porcentaje_error_simbolo].
  fold n.
  set (c := fold_left (Comparacion.compare_step o d) (seq 0 n) _) in *.
  assert (Hcod : Comparacion.c_errores_por_codigo c <= n).
  { rewrite H1. eapply Nat.le_trans; [apply filter_length_le|].
    now rewrite length_seq. }
  assert (Hbit : Comparacion.c_errores_por_bit c <= Comparacion.c_total_bits c)
    by lia.
  assert (Hr : (0 <= (if 0 <? Comparacion.c_total_bits c
                      then Comparacion.ratio (Comparacion.c_errores_por_bit c)
                                             (Comparacion.c_total_bits c)
                      else 0%Q) <= 1)%Q).
  { destruct (Nat.ltb_spec 0 (Comparacion.c_total_bits c)) as [Hpos|_];
      [|lra].
    now apply ratio_bounds. }
  assert (Hp : (0 <= (if 0 <? Comparacion.c_total_bits c
                      then 1 - Qpower_positive
                                 (1 - (if 0 <? Comparacion.c_total_bits c
                                       then Comparacion.ratio
                                              (Comparacion.c_errores_por_bit c)
                                              (Comparacion.c_total_bits c)
                                       else 0%Q)) 3
                      else 0%Q) <= 1)%Q).
  { destruct (Nat.ltb_spec 0 (Comparacion.c_total_bits c)) as [Hpos|_];
      [|lra].
    destruct (ratio_bounds _ _ Hbit Hpos) as [Ha Hb].
    destruct (cube_bounds (1 - Comparacion.ratio (Comparacion.c_errores_por_bit c)
                                                 (Comparacion.c_total_bits c)))
      as [Hc Hd]; lra. }
  split; [exact Hr|]. split; [exact Hp|]. split; [|split].
  - destruct (Nat.ltb_spec 0 n) as [Hpos|_]; [|lra].
    destruct (ratio_bounds _ _ Hcod Hpos). lra.
  - destruct (Nat.ltb_spec 0 (Comparacion.c_total_bits c)) as [Hpos|_];
      [|lra].
    destruct (ratio_bounds _ _ Hbit Hpos). lra.
  - lra.
Qed.
